(** * Preloaded schema/guide index and per-session dedup tools

    A shallow embedding of [framework/index.py] (the [AgentIndex] store, its
    guide matcher, cache document and query API), of the tool closures of
    [tools/explore_database.py] and [tools/get_business_rules.py], and of the
    formatting of [tools/run_query.py].

    Python values are embedded as follows.
    - [str] is [string]; a character is a code point in 0..255, so that
      [str.isspace], the regex classes [\s] and [\w] and [str.lower] are the
      tables of CPython for that range.
    - [dict] is an association list in insertion order ([Dict]), because the
      source iterates over dictionaries (building the lowercase lookup, writing
      the cache document).
    - [set] is a [gset]; the closures' captured variables are the fields of an
      explicit [Session] record threaded through every tool call.
    - [int] is [Z]; [len] is [length] injected into [Z] where it meets an [int].
    - the cache file is its text: [json.dumps] and [json.loads] are embedded
      for the values the cache holds ([Json]). *)

From Stdlib Require Import ZArith NArith Ascii String List DecimalString.
From stdpp Require Import base decidable option list sorting gmap strings.

Local Open Scope string_scope.
Local Open Scope list_scope.

(** ** Python string primitives *)

Module PyStr.

Definition code (c : ascii) : N := N_of_ascii c.

Definition in_range (lo hi : N) (c : ascii) : bool :=
  ((lo <=? code c) && (code c <=? hi))%N.

(** [str.isspace] on one character; the regex class [\s] is the same set. *)
Definition is_space (c : ascii) : bool :=
  in_range 9 13 c || in_range 28 32 c || in_range 133 133 c || in_range 160 160 c.

(** The regex class [\w] of a [str] pattern: alphanumerics and underscore. *)
Definition is_word (c : ascii) : bool :=
  in_range 48 57 c || in_range 65 90 c || in_range 95 95 c || in_range 97 122 c
  || in_range 170 170 c || in_range 178 179 c || in_range 181 181 c
  || in_range 185 186 c || in_range 188 190 c || in_range 192 214 c
  || in_range 216 246 c || in_range 248 255 c.

Definition lower_char (c : ascii) : ascii :=
  if in_range 65 90 c || in_range 192 214 c || in_range 216 222 c
  then ascii_of_N (code c + 32)
  else c.

(** [s.lower()] *)
Fixpoint lower (s : string) : string :=
  match s with
  | EmptyString => EmptyString
  | String c s' => String (lower_char c) (lower s')
  end.

(** [s.lstrip(chars)] for the character set [p] *)
Fixpoint lstrip_by (p : ascii -> bool) (s : string) : string :=
  match s with
  | EmptyString => EmptyString
  | String c s' => if p c then lstrip_by p s' else s
  end.

(** [s.rstrip(chars)] for the character set [p] *)
Fixpoint rstrip_by (p : ascii -> bool) (s : string) : string :=
  match s with
  | EmptyString => EmptyString
  | String c s' =>
      match rstrip_by p s' with
      | EmptyString => if p c then EmptyString else String c EmptyString
      | r => String c r
      end
  end.

(** [s.strip()] *)
Definition strip (s : string) : string := rstrip_by is_space (lstrip_by is_space s).

Definition is_hash_or_blank (c : ascii) : bool :=
  (code c =? 35)%N || (code c =? 32)%N.

(** [s.split("\n", 1)[0]] *)
Fixpoint before_newline (s : string) : string :=
  match s with
  | EmptyString => EmptyString
  | String c s' => if (code c =? 10)%N then EmptyString else String c (before_newline s')
  end.

Definition push_head (c : ascii) (l : list string) : list string :=
  match l with
  | h :: t => String c h :: t
  | [] => [String c EmptyString]
  end.

(** [re.split(r"[...]", s)] for a one-character class [p]: every separator
    character ends a field, so adjacent separators give empty fields. *)
Fixpoint re_split_class (p : ascii -> bool) (s : string) : list string :=
  match s with
  | EmptyString => [EmptyString]
  | String c s' =>
      if p c then EmptyString :: re_split_class p s'
      else push_head c (re_split_class p s')
  end.

(** [re.split(r"[...]+", s)] for a class [p]: a maximal run of separator
    characters is one separator. [in_sep] records that the previous
    character was a separator of the run being skipped. *)
Fixpoint re_split_runs_from (p : ascii -> bool) (in_sep : bool) (s : string)
  : list string :=
  match s with
  | EmptyString => [EmptyString]
  | String c s' =>
      if p c then
        if in_sep then re_split_runs_from p true s'
        else EmptyString :: re_split_runs_from p true s'
      else push_head c (re_split_runs_from p false s')
  end.

Definition re_split_runs (p : ascii -> bool) (s : string) : list string :=
  re_split_runs_from p false s.

(** [sep.join(l)] *)
Definition join (sep : string) (l : list string) : string := String.concat sep l.

(** [c * n] for a one-character string *)
Fixpoint repeat_char (c : ascii) (n : nat) : string :=
  match n with
  | O => EmptyString
  | S n' => String c (repeat_char c n')
  end.

(** [str(n)] for an [int] *)
Definition of_int (z : Z) : string := NilZero.string_of_int (Z.to_int z).

(** [str(len(l))] *)
Definition of_len (n : nat) : string := of_int (Z.of_nat n).

(** [sum(len(n) + k for n in l)] *)
Definition sum_len_plus (k : nat) (l : list string) : nat :=
  fold_right (fun n acc => String.length n + k + acc) 0 l.

(** [l[:m]] with Python's reading of a negative bound *)
Definition slice_to {A} (m : Z) (l : list A) : list A :=
  if (m <? 0)%Z then firstn (length l - Z.to_nat (- m)) l
  else firstn (Z.to_nat m) l.

(** [sorted(l)] on strings: code-point lexicographic order. *)
Definition sorted (l : list string) : list string := merge_sort String.le l.

(** [s.startswith(pre)] *)
Fixpoint starts_with (pre s : string) : bool :=
  match pre, s with
  | EmptyString, _ => true
  | String a pre', String b s' => if Ascii.eqb a b then starts_with pre' s' else false
  | String _ _, EmptyString => false
  end.

(** [needle in hay], on strings *)
Fixpoint contains (needle hay : string) : bool :=
  starts_with needle hay ||
  match hay with
  | EmptyString => false
  | String _ hay' => contains needle hay'
  end.

(** [s[n:]] *)
Fixpoint drop (n : nat) (s : string) : string :=
  match n, s with
  | O, _ => s
  | S n', String _ s' => drop n' s'
  | S _, EmptyString => EmptyString
  end.

(** [all(p(c) for c in s)] *)
Fixpoint all_chars (p : ascii -> bool) (s : string) : bool :=
  match s with
  | EmptyString => true
  | String c s' => p c && all_chars p s'
  end.

End PyStr.

(** ** Python dictionaries with string keys, in insertion order *)

Module Dict.
Section Ops.
Context {V : Type}.

(** [d.get(k)] *)
Fixpoint get (k : string) (d : list (string * V)) : option V :=
  match d with
  | [] => None
  | (k', v) :: d' => if String.eqb k k' then Some v else get k d'
  end.

(** [d[k] = v]: an existing key keeps its position, a new key goes last. *)
Fixpoint set (k : string) (v : V) (d : list (string * V)) : list (string * V) :=
  match d with
  | [] => [(k, v)]
  | (k', v') :: d' =>
      if String.eqb k k' then (k', v) :: d' else (k', v') :: set k v d'
  end.

(** [d.keys()] / iteration over [d] *)
Definition keys (d : list (string * V)) : list string := map fst d.

(** [k in d] *)
Definition mem (k : string) (d : list (string * V)) : bool :=
  match get k d with Some _ => true | None => false end.
End Ops.
End Dict.

(** ** Data model ([framework/index.py]) *)

Record ColumnInfo := { name : string; type : string; nullable : bool }.

Record TableInfo := { columns : list ColumnInfo; sample_rows : list (list string) }.

Record GuideInfo := { file : string; content : string }.

Record AgentIndex := {
  schemas : list (string * list (string * TableInfo));
  guides : list (string * GuideInfo)
}.

Definition SAMPLE_ROWS : nat := 3.

(** ** Database scanning

    The catalog is what the three [information_schema] queries and the sample
    query answer: per schema row its table rows, per table its column rows
    [(column_name, data_type, is_nullable)] and the rows of the table in the
    order the engine returns them, every cell already passed through [str];
    [table_data] is [None] when the sample query raises. *)

Record TableFacts := {
  col_rows : list (string * string * string);
  table_data : option (list (list string))
}.

Definition Catalog := list (string * list (string * TableFacts)).

Definition scan_table (f : TableFacts) : TableInfo :=
  {| columns :=
       map (fun '(cn, dt, nu) =>
              {| name := cn; type := dt; nullable := String.eqb nu "YES" |})
           (col_rows f);
     sample_rows :=
       match table_data f with
       | Some rows => firstn SAMPLE_ROWS rows
       | None => []
       end |}.

Definition scan_tables (table_rows : list (string * TableFacts)) : list (string * TableInfo) :=
  fold_left (fun tables '(table_name, f) => Dict.set table_name (scan_table f) tables)
            table_rows [].

Definition _scan_database (db : Catalog) (self : AgentIndex) : AgentIndex :=
  {| schemas :=
       fold_left (fun acc '(schema_name, table_rows) =>
                    Dict.set schema_name (scan_tables table_rows) acc)
                 db (schemas self);
     guides := guides self |}.

(** ** Guide scanning *)

Definition is_close_paren (c : ascii) : bool := Ascii.eqb c ")".
Definition is_open_paren (c : ascii) : bool := Ascii.eqb c "(".

(** The characters before the first [")"], when there is one. *)
Fixpoint until_close (s : string) : option string :=
  match s with
  | EmptyString => None
  | String c s' =>
      if is_close_paren c then Some EmptyString
      else match until_close s' with
           | Some r => Some (String c r)
           | None => None
           end
  end.

(** [re.search(r"\(([^)]+)\)", title)], giving [m.group(1)]: the leftmost ["("]
    that is followed by at least one character other than [")"] and then by
    [")"]. The class [[^)]] excludes nothing else, so the group runs to the
    first [")"] after the opening parenthesis. *)
Fixpoint search_paren (title : string) : option string :=
  match title with
  | EmptyString => None
  | String c s' =>
      if is_open_paren c then
        match until_close s' with
        | Some (String a inner) => Some (String a inner)
        | _ => search_paren s'
        end
      else search_paren s'
  end.

(** The longest prefix of characters in [p], and the rest. *)
Fixpoint span_by (p : ascii -> bool) (s : string) : string * string :=
  match s with
  | EmptyString => (EmptyString, EmptyString)
  | String c s' =>
      if p c then let '(a, b) := span_by p s' in (String c a, b)
      else (EmptyString, s)
  end.

(** Whether [r"\s+Databases?\s*$"] matches starting at the head of [s]. The
    two classes and the literal share no character, so the greedy run of
    whitespace is the only one that can be followed by the literal; [\s*]
    then takes the remaining characters, which must all be whitespace ([$]
    holds at the end of the string). *)
Definition database_suffix_here (s : string) : bool :=
  let '(ws, r) := span_by PyStr.is_space s in
  match ws with
  | EmptyString => false
  | String _ _ =>
      PyStr.starts_with "Database" r &&
      let r' := PyStr.drop 8 r in
      let r'' := if PyStr.starts_with "s" r' then PyStr.drop 1 r' else r' in
      PyStr.all_chars PyStr.is_space r''
  end.

(** [re.sub(r"\s+Databases?\s*$", "", s)]: the leftmost match runs to the end
    of the string, so there is at most one. *)
Fixpoint sub_database_suffix (s : string) : string :=
  if database_suffix_here s then EmptyString
  else match s with
       | EmptyString => EmptyString
       | String c s' => String c (sub_database_suffix s')
       end.

(** Whether [r"(\w+)\s+Database"] matches starting at the head of [s], with
    [group(1)]. *)
Definition word_database_here (s : string) : option string :=
  let '(w, r) := span_by PyStr.is_word s in
  match w with
  | EmptyString => None
  | String _ _ =>
      let '(ws, r') := span_by PyStr.is_space r in
      match ws with
      | EmptyString => None
      | String _ _ => if PyStr.starts_with "Database" r' then Some w else None
      end
  end.

(** [re.search(r"(\w+)\s+Database", title)], giving [m2.group(1)]. *)
Fixpoint search_word_database (title : string) : option string :=
  match word_database_here title with
  | Some w => Some w
  | None =>
      match title with
      | EmptyString => None
      | String _ s' => search_word_database s'
      end
  end.

Definition is_slash_or_comma (c : ascii) : bool := Ascii.eqb c "/" || Ascii.eqb c ",".

(** The candidate as looked up: stripped, suffix removed, stripped, lowered. *)
Definition normalize_candidate (candidate : string) : string :=
  let candidate := PyStr.strip candidate in
  let candidate := PyStr.strip (sub_database_suffix candidate) in
  PyStr.lower candidate.

(** The [for candidate in ...] loop with its early [return]. *)
Fixpoint first_known_candidate (known_lower : list (string * string))
         (candidates : list string) : option string :=
  match candidates with
  | [] => None
  | candidate :: rest =>
      match Dict.get (normalize_candidate candidate) known_lower with
      | Some s => Some s
      | None => first_known_candidate known_lower rest
      end
  end.

Definition title_parenthetical (title : string) (known_lower : list (string * string))
  : option string :=
  match search_paren title with
  | Some inner => first_known_candidate known_lower (PyStr.re_split_class is_slash_or_comma inner)
  | None => None
  end.

Definition title_suffix (title : string) (known_lower : list (string * string))
  : option string :=
  match search_word_database title with
  | Some candidate => Dict.get (PyStr.lower candidate) known_lower
  | None => None
  end.

Definition _extract_schema_from_title (title : string) (known_lower : list (string * string))
  : option string :=
  match title_parenthetical title known_lower with
  | Some s => Some s
  | None => title_suffix title known_lower
  end.

Definition is_stem_separator (c : ascii) : bool :=
  Ascii.eqb c "_" || Ascii.eqb c "-" || PyStr.is_space c.

(** The [for token in tokens] loop with its early [return]. *)
Fixpoint first_known_token (known_lower : list (string * string)) (tokens : list string)
  : option string :=
  match tokens with
  | [] => None
  | token :: rest =>
      match Dict.get token known_lower with
      | Some s => Some s
      | None => first_known_token known_lower rest
      end
  end.

Definition _fuzzy_match_filename (stem : string) (known_lower : list (string * string))
  : option string :=
  let tokens := PyStr.re_split_runs is_stem_separator (PyStr.lower stem) in
  first_known_token known_lower tokens.

(** A guide file as [_scan_guides] sees it: [guide_path.name],
    [guide_path.stem] and [guide_path.read_text()]. *)
Record GuidePath := { path_name : string; path_stem : string; read_text : string }.

(** [{s.lower(): s for s in self.schemas}] *)
Definition schema_names_lower (self : AgentIndex) : list (string * string) :=
  fold_left (fun acc s => Dict.set (PyStr.lower s) s acc) (Dict.keys (schemas self)) [].

Definition guide_first_line (content : string) : string :=
  PyStr.strip (PyStr.lstrip_by PyStr.is_hash_or_blank (PyStr.strip (PyStr.before_newline content))).

(** The schema a guide is assigned to, by the ordered rules. *)
Definition guide_schema (known_lower : list (string * string)) (guide_path : GuidePath)
  : option string :=
  let first_line := guide_first_line (read_text guide_path) in
  match _extract_schema_from_title first_line known_lower with
  | Some schema_name => Some schema_name
  | None => _fuzzy_match_filename (path_stem guide_path) known_lower
  end.

(** One iteration of the loop of [_scan_guides], on [self.guides]. *)
Definition scan_guide (known_lower : list (string * string))
           (gs : list (string * GuideInfo)) (guide_path : GuidePath)
  : list (string * GuideInfo) :=
  match guide_schema known_lower guide_path with
  | Some schema_name =>
      Dict.set schema_name
               {| file := path_name guide_path; content := read_text guide_path |} gs
  | None => gs
  end.

(** [guides_dir] is [None] when [GUIDES_DIR] does not exist, otherwise the
    result of [sorted(GUIDES_DIR.glob("*.md"))]. *)
Definition _scan_guides (guides_dir : option (list GuidePath)) (self : AgentIndex)
  : AgentIndex :=
  match guides_dir with
  | None => self
  | Some paths =>
      {| schemas := schemas self;
         guides := fold_left (scan_guide (schema_names_lower self)) paths (guides self) |}
  end.

(** ** Cache document *)

(** The values that [_save_cache] gives to [json.dumps]: strings, booleans,
    lists and string-keyed dictionaries in insertion order. *)
#[warnings="-register-all"]
Inductive json :=
| JStr (s : string)
| JBool (b : bool)
| JArr (items : list json)
| JObj (members : list (string * json)).

Definition column_doc (c : ColumnInfo) : json :=
  JObj [("name", JStr (name c)); ("type", JStr (type c)); ("nullable", JBool (nullable c))].

Definition table_doc (info : TableInfo) : json :=
  JObj [("columns", JArr (map column_doc (columns info)));
        ("sample_rows", JArr (map (fun row => JArr (map JStr row)) (sample_rows info)))].

Definition guide_doc (g : GuideInfo) : json :=
  JObj [("file", JStr (file g)); ("content", JStr (content g))].

(** The dictionary [data] built by [_save_cache]. *)
Definition cache_data (self : AgentIndex) : json :=
  JObj [("schemas",
         JObj (map (fun '(schema, tables) =>
                      (schema, JObj (map (fun '(table, info) => (table, table_doc info)) tables)))
                   (schemas self)));
        ("guides",
         JObj (map (fun '(schema, g) => (schema, guide_doc g)) (guides self)))].

(** *** The cache file as text

    [_save_cache] writes [json.dumps(data, indent=2)]. [Json.dumps] is that
    encoder of the Python standard library on the values the cache holds:
    [ensure_ascii] escapes, two spaces per nesting level, [","] and [": "] as
    separators. [Json.loads] is [json.loads] on texts made of strings,
    booleans, arrays and objects; numbers, [null] and characters above 255
    are outside the model and are refused. *)
Module Json.

Local Open Scope string_scope.

Definition dquote : ascii := "034".
Definition backslash : ascii := "092".

Definition hex_digit (n : N) : ascii :=
  if (n <? 10)%N then ascii_of_N (48 + n) else ascii_of_N (87 + n).

(** [ESCAPE_DCT] and the [\uXXXX] fallback of [encode_basestring_ascii] *)
Definition escape_char (c : ascii) : string :=
  let n := PyStr.code c in
  if (n =? 34)%N then String backslash (String dquote "")
  else if (n =? 92)%N then String backslash (String backslash "")
  else if (n =? 10)%N then String backslash "n"
  else if (n =? 13)%N then String backslash "r"
  else if (n =? 9)%N then String backslash "t"
  else if (n =? 12)%N then String backslash "f"
  else if (n =? 8)%N then String backslash "b"
  else if ((32 <=? n) && (n <=? 126))%N then String c ""
  else String backslash
         (String "u" (String "0" (String "0"
            (String (hex_digit (n / 16)) (String (hex_digit (n mod 16)) ""))))).

Fixpoint escape_body (s : string) : string :=
  match s with
  | EmptyString => EmptyString
  | String c s' => escape_char c ++ escape_body s'
  end.

Definition dump_string (s : string) : string :=
  String dquote (escape_body s ++ String dquote "").

(** A line break and the indentation of [level] *)
Definition nl (level : nat) : string :=
  String (ascii_of_N 10) (PyStr.repeat_char " " (2 * level)).

(** [_iterencode]: the first item follows the opening bracket, every further
    item follows a separator, the closing bracket stands on a line of its
    own; an empty container is written without a line break. *)
Fixpoint dump (level : nat) (j : json) : string :=
  match j with
  | JStr s => dump_string s
  | JBool b => if b then "true" else "false"
  | JArr [] => "[]"
  | JArr (x :: rest) =>
      "[" ++ nl (S level) ++ dump (S level) x
      ++ (fix more (l : list json) : string :=
            match l with
            | [] => ""
            | y :: l' => "," ++ nl (S level) ++ dump (S level) y ++ more l'
            end) rest
      ++ nl level ++ "]"
  | JObj [] => "{}"
  | JObj ((k, v) :: rest) =>
      "{" ++ nl (S level) ++ dump_string k ++ ": " ++ dump (S level) v
      ++ (fix more (l : list (string * json)) : string :=
            match l with
            | [] => ""
            | (k', v') :: l' =>
                "," ++ nl (S level) ++ dump_string k' ++ ": " ++ dump (S level) v' ++ more l'
            end) rest
      ++ nl level ++ "}"
  end.

(** The items after the first, as [dump] writes them inside a container
    whose items stand at [level]. *)
Fixpoint more_items (level : nat) (l : list json) : string :=
  match l with
  | [] => ""
  | y :: l' => "," ++ nl level ++ dump level y ++ more_items level l'
  end.

Fixpoint more_members (level : nat) (l : list (string * json)) : string :=
  match l with
  | [] => ""
  | (k, v) :: l' =>
      "," ++ nl level ++ dump_string k ++ ": " ++ dump level v ++ more_members level l'
  end.

(** [json.dumps(data, indent=2)] *)
Definition dumps (j : json) : string := dump 0 j.

Definition is_json_space (c : ascii) : bool :=
  let n := PyStr.code c in
  (n =? 32)%N || (n =? 9)%N || (n =? 10)%N || (n =? 13)%N.

Definition skip_ws (s : string) : string := PyStr.lstrip_by is_json_space s.

Definition hex_value (c : ascii) : option N :=
  let n := PyStr.code c in
  if ((48 <=? n) && (n <=? 57))%N then Some (n - 48)%N
  else if ((97 <=? n) && (n <=? 102))%N then Some (n - 87)%N
  else if ((65 <=? n) && (n <=? 70))%N then Some (n - 55)%N
  else None.

Definition hex4 (a b c d : ascii) : option N :=
  match hex_value a, hex_value b, hex_value c, hex_value d with
  | Some x, Some y, Some z, Some w => Some (((x * 16 + y) * 16 + z) * 16 + w)%N
  | _, _, _, _ => None
  end.

(** The character a one-letter escape stands for. *)
Definition unescape (e : ascii) : option ascii :=
  let n := PyStr.code e in
  if (n =? 34)%N then Some dquote
  else if (n =? 92)%N then Some backslash
  else if (n =? 47)%N then Some "/"%char
  else if (n =? 98)%N then Some (ascii_of_N 8)
  else if (n =? 102)%N then Some (ascii_of_N 12)
  else if (n =? 110)%N then Some (ascii_of_N 10)
  else if (n =? 114)%N then Some (ascii_of_N 13)
  else if (n =? 116)%N then Some (ascii_of_N 9)
  else None.

Definition cons_char (c : ascii) (r : option (string * string)) : option (string * string) :=
  match r with
  | Some (s, rest) => Some (String c s, rest)
  | None => None
  end.

(** [scanstring], after the opening quote: the decoded string and the text
    after the closing quote. Control characters are refused (strict mode). *)
Fixpoint scan_string (s : string) : option (string * string) :=
  match s with
  | EmptyString => None
  | String c s' =>
      if Ascii.eqb c dquote then Some (EmptyString, s')
      else if Ascii.eqb c backslash then
        match s' with
        | EmptyString => None
        | String e s'' =>
            if Ascii.eqb e "u" then
              match s'' with
              | String h1 (String h2 (String h3 (String h4 s3))) =>
                  match hex4 h1 h2 h3 h4 with
                  | Some n => if (n <? 256)%N then cons_char (ascii_of_N n) (scan_string s3)
                              else None
                  | None => None
                  end
              | _ => None
              end
            else
              match unescape e with
              | Some d => cons_char d (scan_string s'')
              | None => None
              end
        end
      else if (PyStr.code c <? 32)%N then None
      else cons_char c (scan_string s')
  end.

(** [scan_once] with [JSONArray] and [JSONObject]; [fuel] bounds the calls
    and is never exhausted when it is the length of the text. *)
Fixpoint parse_value (fuel : nat) (s : string) : option (json * string) :=
  match fuel with
  | O => None
  | S fuel' =>
      match skip_ws s with
      | EmptyString => None
      | String c r =>
          if Ascii.eqb c dquote then
            match scan_string r with
            | Some (str, rest) => Some (JStr str, rest)
            | None => None
            end
          else if Ascii.eqb c "t" then
            if PyStr.starts_with "rue" r then Some (JBool true, PyStr.drop 3 r) else None
          else if Ascii.eqb c "f" then
            if PyStr.starts_with "alse" r then Some (JBool false, PyStr.drop 4 r) else None
          else if Ascii.eqb c "[" then
            match skip_ws r with
            | String c' r' =>
                if Ascii.eqb c' "]" then Some (JArr [], r')
                else
                  match parse_value fuel' r with
                  | Some (x, rest) =>
                      match parse_more_items fuel' rest with
                      | Some (xs, rest') => Some (JArr (x :: xs), rest')
                      | None => None
                      end
                  | None => None
                  end
            | EmptyString => None
            end
          else if Ascii.eqb c "{" then
            match skip_ws r with
            | String c' r' =>
                if Ascii.eqb c' "}" then Some (JObj [], r')
                else
                  match parse_member fuel' r with
                  | Some (kv, rest) =>
                      match parse_more_members fuel' rest with
                      | Some (kvs, rest') => Some (JObj (kv :: kvs), rest')
                      | None => None
                      end
                  | None => None
                  end
            | EmptyString => None
            end
          else None
      end
  end
with parse_more_items (fuel : nat) (s : string) : option (list json * string) :=
  match fuel with
  | O => None
  | S fuel' =>
      match skip_ws s with
      | EmptyString => None
      | String c r =>
          if Ascii.eqb c "]" then Some ([], r)
          else if Ascii.eqb c "," then
            match parse_value fuel' r with
            | Some (x, rest) =>
                match parse_more_items fuel' rest with
                | Some (xs, rest') => Some (x :: xs, rest')
                | None => None
                end
            | None => None
            end
          else None
      end
  end
with parse_member (fuel : nat) (s : string) : option ((string * json) * string) :=
  match fuel with
  | O => None
  | S fuel' =>
      match skip_ws s with
      | EmptyString => None
      | String c r =>
          if Ascii.eqb c dquote then
            match scan_string r with
            | Some (k, rest) =>
                match skip_ws rest with
                | String c' r' =>
                    if Ascii.eqb c' ":" then
                      match parse_value fuel' r' with
                      | Some (v, rest') => Some ((k, v), rest')
                      | None => None
                      end
                    else None
                | EmptyString => None
                end
            | None => None
            end
          else None
      end
  end
with parse_more_members (fuel : nat) (s : string)
  : option (list (string * json) * string) :=
  match fuel with
  | O => None
  | S fuel' =>
      match skip_ws s with
      | EmptyString => None
      | String c r =>
          if Ascii.eqb c "}" then Some ([], r)
          else if Ascii.eqb c "," then
            match parse_member fuel' r with
            | Some (kv, rest) =>
                match parse_more_members fuel' rest with
                | Some (kvs, rest') => Some (kv :: kvs, rest')
                | None => None
                end
            | None => None
            end
          else None
      end
  end.

(** [json.loads]: one value, then nothing but whitespace. *)
Definition loads (text : string) : option json :=
  match parse_value (S (String.length text)) text with
  | Some (j, rest) =>
      match skip_ws rest with
      | EmptyString => Some j
      | String _ _ => None
      end
  | None => None
  end.

End Json.

(** [_save_cache]: the text handed to [CACHE_PATH.write_text]. *)
Definition _save_cache (self : AgentIndex) : string := Json.dumps (cache_data self).

(** [build]: a fresh index, the two scans, then the cache file; the result
    is the index with the text written to the cache. *)
Definition build (db : Catalog) (guides_dir : option (list GuidePath)) : AgentIndex * string :=
  let index := {| schemas := []; guides := [] |} in
  let index := _scan_database db index in
  let index := _scan_guides guides_dir index in
  (index, _save_cache index).

(** ** Public query API *)

Definition get_schema_list (self : AgentIndex) : list string :=
  PyStr.sorted (Dict.keys (schemas self)).

Definition get_tables (self : AgentIndex) (schema : string) : list string :=
  match Dict.get schema (schemas self) with
  | None => []
  | Some tables => PyStr.sorted (Dict.keys tables)
  end.

Definition get_table_info (self : AgentIndex) (schema table : string) : option TableInfo :=
  match Dict.get schema (schemas self) with
  | None => None
  | Some tables => Dict.get table tables
  end.

Definition column_line (c : ColumnInfo) : string :=
  "  " ++ name c ++ " (" ++ type c ++ (if nullable c then ", nullable" else "") ++ ")".

Definition more_columns_line (n_columns : nat) (max_columns : Z) : string :=
  "  ... and " ++ PyStr.of_int (Z.of_nat n_columns - max_columns) ++ " more columns".

Definition use_run_query_line : string :=
  "  (Use run_query with SELECT * ... LIMIT 3 to see all columns)".

Definition table_header_line (schema table : string) (n_columns : nat) : string :=
  "Table: " ++ schema ++ "." ++ table ++ " (" ++ PyStr.of_len n_columns ++ " columns)".

Definition sample_title_line (n_rows : nat) : string :=
  "Sample rows (" ++ PyStr.of_len n_rows ++ "):".

Definition sample_header_line (col_names : list string) : string :=
  "  " ++ PyStr.join " | " col_names.

Definition sample_separator_line (col_names : list string) : string :=
  "  " ++ PyStr.repeat_char "-" (PyStr.sum_len_plus 3 col_names).

Definition sample_row_line (max_columns : Z) (row : list string) : string :=
  "  " ++ PyStr.join " | " (PyStr.slice_to max_columns row).

(** The list [lines] of [get_table_description] when the table exists. *)
Definition description_lines (schema table : string) (info : TableInfo) (max_columns : Z)
  : list string :=
  let columns := columns info in
  let truncated := (Z.of_nat (length columns) >? max_columns)%Z in
  let display_cols := PyStr.slice_to max_columns columns in
  let lines := [table_header_line schema table (length columns); ""; "Columns:"] in
  let lines := lines ++ map column_line display_cols in
  let lines :=
    if truncated
    then lines ++ [more_columns_line (length columns) max_columns; use_run_query_line]
    else lines in
  match sample_rows info with
  | [] => lines
  | _ :: _ =>
      if negb truncated then
        let col_names := map name display_cols in
        lines ++ [""; sample_title_line (length (sample_rows info));
                  sample_header_line col_names; sample_separator_line col_names]
              ++ map (sample_row_line max_columns) (sample_rows info)
      else lines
  end.

Definition table_not_found (schema table : string) : string :=
  "Table '" ++ schema ++ "." ++ table ++ "' not found.".

Definition newline : string := String (ascii_of_N 10) EmptyString.

Definition get_table_description (self : AgentIndex) (schema table : string) (max_columns : Z)
  : string :=
  match get_table_info self schema table with
  | None => table_not_found schema table
  | Some info => PyStr.join newline (description_lines schema table info max_columns)
  end.

Definition default_max_columns : Z := 40.

Definition get_business_rules (self : AgentIndex) (schema : string) : option string :=
  match Dict.get schema (guides self) with
  | Some guide => Some (content guide)
  | None => None
  end.

Definition get_all_guide_topics (self : AgentIndex) : list string :=
  PyStr.sorted (Dict.keys (guides self)).

(** ** Tools ([tools/explore_database.py], [tools/get_business_rules.py])

    A session holds what one call of [make_explore_tools] and one call of
    [make_business_rules_tool] capture: [_schemas_listed], [_described] and
    [_fetched]. Every tool takes the session and returns its text with the
    session it leaves behind. The dash of the refusal texts is carried as its
    UTF-8 bytes; no operation looks inside these texts. *)

Record Session := {
  _schemas_listed : bool;
  _described : gset (string * string);
  _fetched : gset string
}.

Definition new_session : Session :=
  {| _schemas_listed := false; _described := ∅; _fetched := ∅ |}.

Definition schemas_refusal : string :=
  "You already listed schemas above. " ++
  "Do NOT call this again — proceed to the next step.".

Definition describe_refusal (schema_name table_name : string) : string :=
  "You already described " ++ schema_name ++ "." ++ table_name ++ " above. " ++
  "Do NOT call describe_table on the same table again — " ++
  "use the information you already have and write your query.".

Definition rules_refusal (schema_name : string) : string :=
  "You already retrieved business rules for '" ++ schema_name ++ "' above. " ++
  "Do NOT call this again — use the rules you already have.".

(** [s in guided], for the set made of the guide topics *)
Definition in_topics (guided : list string) (s : string) : bool :=
  existsb (String.eqb s) guided.

(** The text of a first [list_schemas] call. *)
Definition schemas_listing (index : AgentIndex) : string :=
  let guided := get_all_guide_topics index in
  let all_schemas := get_schema_list index in
  let guided_schemas := List.filter (in_topics guided) all_schemas in
  let other_schemas := List.filter (fun s => negb (in_topics guided s)) all_schemas in
  let lines :=
    ["Available schemas and their tables:"; "";
     "Schemas with business rules guides (most likely relevant):"] in
  let lines :=
    lines ++ map (fun s => ("  - " ++ s ++ ": " ++ PyStr.join ", " (get_tables index s))%string)
                 guided_schemas in
  let lines := lines ++ [""] in
  let lines := lines ++ [("Other schemas (no guide): " ++ PyStr.join ", " other_schemas)%string] in
  PyStr.join newline lines.

Definition list_schemas (index : AgentIndex) (st : Session) : string * Session :=
  if _schemas_listed st then (schemas_refusal, st)
  else (schemas_listing index,
        {| _schemas_listed := true; _described := _described st; _fetched := _fetched st |}).

Definition schema_not_found (index : AgentIndex) (schema_name : string) : string :=
  "Schema '" ++ schema_name ++ "' not found." ++ newline ++
  "Available schemas: " ++ PyStr.join ", " (get_schema_list index).

Definition tables_listing (schema_name : string) (tables : list string) : string :=
  "Tables in " ++ schema_name ++ ":" ++ newline ++
  PyStr.join newline (map (fun t => ("  - " ++ t)%string) tables).

Definition list_tables (index : AgentIndex) (schema_name : string) (st : Session)
  : string * Session :=
  match get_tables index schema_name with
  | [] => (schema_not_found index schema_name, st)
  | tables => (tables_listing schema_name tables, st)
  end.

Definition describe_table (index : AgentIndex) (schema_name table_name : string) (st : Session)
  : string * Session :=
  let key := (schema_name, table_name) in
  if bool_decide (key ∈ _described st) then (describe_refusal schema_name table_name, st)
  else
    let st := {| _schemas_listed := _schemas_listed st;
                 _described := {[key]} ∪ _described st;
                 _fetched := _fetched st |} in
    (get_table_description index schema_name table_name default_max_columns, st).

Definition rules_not_found (index : AgentIndex) (schema_name : string) : string :=
  "No business rules guide found for schema '" ++ schema_name ++ "'." ++ newline ++
  "Available guide topics: " ++ PyStr.join ", " (get_all_guide_topics index).

Definition get_business_rules_tool (index : AgentIndex) (schema_name : string) (st : Session)
  : string * Session :=
  if bool_decide (schema_name ∈ _fetched st) then (rules_refusal schema_name, st)
  else
    let st := {| _schemas_listed := _schemas_listed st;
                 _described := _described st;
                 _fetched := {[schema_name]} ∪ _fetched st |} in
    match get_business_rules index schema_name with
    | Some content => (content, st)
    | None => (rules_not_found index schema_name, st)
    end.

(** The calls an agent can make, and a session driven by a list of them. *)
Inductive Call :=
| ListSchemas
| ListTables (schema_name : string)
| DescribeTable (schema_name table_name : string)
| GetBusinessRules (schema_name : string).

Definition call (index : AgentIndex) (c : Call) (st : Session) : string * Session :=
  match c with
  | ListSchemas => list_schemas index st
  | ListTables s => list_tables index s st
  | DescribeTable s t => describe_table index s t st
  | GetBusinessRules s => get_business_rules_tool index s st
  end.

Fixpoint run (index : AgentIndex) (cs : list Call) (st : Session) : list string * Session :=
  match cs with
  | [] => ([], st)
  | c :: cs' =>
      let '(r, st') := call index c st in
      let '(rs, st'') := run index cs' st' in
      (r :: rs, st'')
  end.

(** ** Reading the cache document back

    The source writes the cache and never reads it; the reader of this module
    follows the document shape that the specification gives. *)
Module CacheReader.

Definition as_str (j : json) : option string :=
  match j with JStr s => Some s | _ => None end.

Definition as_bool (j : json) : option bool :=
  match j with JBool b => Some b | _ => None end.

Definition as_arr (j : json) : option (list json) :=
  match j with JArr items => Some items | _ => None end.

Definition as_obj (j : json) : option (list (string * json)) :=
  match j with JObj members => Some members | _ => None end.

Definition field (k : string) (j : json) : option json :=
  match j with JObj members => Dict.get k members | _ => None end.

Definition str_field (k : string) (j : json) : option string :=
  match field k j with Some v => as_str v | None => None end.

Definition bool_field (k : string) (j : json) : option bool :=
  match field k j with Some v => as_bool v | None => None end.

Definition arr_field (k : string) (j : json) : option (list json) :=
  match field k j with Some v => as_arr v | None => None end.

Definition obj_field (k : string) (j : json) : option (list (string * json)) :=
  match field k j with Some v => as_obj v | None => None end.

Fixpoint read_list {A} (f : json -> option A) (items : list json) : option (list A) :=
  match items with
  | [] => Some []
  | j :: rest =>
      match f j, read_list f rest with
      | Some a, Some r => Some (a :: r)
      | _, _ => None
      end
  end.

Fixpoint read_members {V} (f : json -> option V) (members : list (string * json))
  : option (list (string * V)) :=
  match members with
  | [] => Some []
  | (k, j) :: rest =>
      match f j, read_members f rest with
      | Some v, Some r => Some ((k, v) :: r)
      | _, _ => None
      end
  end.

Definition read_column (j : json) : option ColumnInfo :=
  match str_field "name" j, str_field "type" j, bool_field "nullable" j with
  | Some n, Some t, Some b => Some {| name := n; type := t; nullable := b |}
  | _, _, _ => None
  end.

Definition read_row (j : json) : option (list string) :=
  match as_arr j with Some cells => read_list as_str cells | None => None end.

Definition read_table (j : json) : option TableInfo :=
  match arr_field "columns" j, arr_field "sample_rows" j with
  | Some cols, Some rows =>
      match read_list read_column cols, read_list read_row rows with
      | Some cs, Some rs => Some {| columns := cs; sample_rows := rs |}
      | _, _ => None
      end
  | _, _ => None
  end.

Definition read_guide (j : json) : option GuideInfo :=
  match str_field "file" j, str_field "content" j with
  | Some f, Some c => Some {| file := f; content := c |}
  | _, _ => None
  end.

Definition read_tables (j : json) : option (list (string * TableInfo)) :=
  match as_obj j with Some members => read_members read_table members | None => None end.

(** Modelled from the spec: the re-parse of the cache document, which no
    function of the source performs. The document has two top-level keys,
    [schemas] (schema to table to [columns], a list of name/type/nullable,
    and [sample_rows], a list of string lists) and [guides] (schema to [file]
    and [content]); anything of another shape is not a cache document. *)
Definition read_cache (doc : json) : option AgentIndex :=
  match obj_field "schemas" doc, obj_field "guides" doc with
  | Some ss, Some gs =>
      match read_members read_tables ss, read_members read_guide gs with
      | Some ss', Some gs' => Some {| schemas := ss'; guides := gs' |}
      | _, _ => None
      end
  | _, _ => None
  end.

End CacheReader.

(** Modelled from the spec: the re-parse of the cache file, [json.loads]
    followed by the reading of the document; no function of the source does
    it. *)
Definition read_cache_text (text : string) : option AgentIndex :=
  match Json.loads text with
  | Some doc => CacheReader.read_cache doc
  | None => None
  end.

(** ** Dedup keys

    The vocabulary of the dedup state machine: which key a call is tracked
    under, whether a session has marked it, and the two answers a tracked call
    can give. *)

Inductive DedupKey :=
| KSchemas
| KTable (schema_name table_name : string)
| KRules (schema_name : string).

Definition key_of (c : Call) : option DedupKey :=
  match c with
  | ListSchemas => Some KSchemas
  | ListTables _ => None
  | DescribeTable s t => Some (KTable s t)
  | GetBusinessRules s => Some (KRules s)
  end.

Definition shown (k : DedupKey) (st : Session) : Prop :=
  match k with
  | KSchemas => _schemas_listed st = true
  | KTable s t => (s, t) ∈ _described st
  | KRules s => s ∈ _fetched st
  end.

Definition refusal (k : DedupKey) : string :=
  match k with
  | KSchemas => schemas_refusal
  | KTable s t => describe_refusal s t
  | KRules s => rules_refusal s
  end.

(** What the index answers for a key, without any session. *)
Definition facade_result (index : AgentIndex) (k : DedupKey) : string :=
  match k with
  | KSchemas => schemas_listing index
  | KTable s t => get_table_description index s t default_max_columns
  | KRules s =>
      match get_business_rules index s with
      | Some content => content
      | None => rules_not_found index s
      end
  end.


(** ** Readings of the claims that the code does not satisfy as written *)

(** C10 as written: a known schema gets its table listing, every other name
    the not-found guidance. *)
Definition known_schema_gets_listing (index : AgentIndex) (schema_name : string) : Prop :=
  ∀ st : Session,
    fst (list_tables index schema_name st) =
    if Dict.mem schema_name (schemas index)
    then tables_listing schema_name (get_tables index schema_name)
    else schema_not_found index schema_name.

(** The lookup behind a tracked key finds nothing. *)
Definition lookup_fails (index : AgentIndex) (k : DedupKey) : Prop :=
  match k with
  | KSchemas => False
  | KTable s t => get_table_info index s t = None
  | KRules s => get_business_rules index s = None
  end.

(** C1 as written: a call whose lookup fails leaves the session as it is, and
    the same call made again returns the same text. *)
Definition failed_lookup_not_deduped (index : AgentIndex) (c : Call) (st : Session) : Prop :=
  snd (call index c st) = st
  ∧ fst (call index c (snd (call index c st))) = fst (call index c st).

(** The text a tracked key gets when its lookup finds nothing. *)
Definition not_found_text (index : AgentIndex) (k : DedupKey) : string :=
  match k with
  | KSchemas => schemas_listing index
  | KTable s t => table_not_found s t
  | KRules s => rules_not_found index s
  end.

(** Every name of [alternatives] occurs in [text]. *)
Definition lists_all (alternatives : list string) (text : string) : bool :=
  forallb (fun a => PyStr.contains a text) alternatives.

(** C2 as written, for [describe_table]: the text for an unknown table lists
    the valid alternatives, the tables of the schema or the schemas. *)
Definition not_found_lists_alternatives (index : AgentIndex) (schema_name table_name : string)
  : Prop :=
  get_table_info index schema_name table_name = None →
  let text := fst (describe_table index schema_name table_name new_session) in
  lists_all (get_tables index schema_name) text = true
  ∨ lists_all (get_schema_list index) text = true.

(** C5 as written: the separator line is as wide as the header row. *)
Definition separator_matches_header (col_names : list string) : Prop :=
  String.length (sample_separator_line col_names)
  = String.length (sample_header_line col_names).

(** The guide mapping only has keys of the schema mapping. *)
Definition guides_within_schemas (index : AgentIndex) : Prop :=
  ∀ k : string, In k (Dict.keys (guides index)) → In k (Dict.keys (schemas index)).

(** The [GuideInfo] that [_scan_guides] stores for a guide file. *)
Definition guide_info (gp : GuidePath) : GuideInfo :=
  {| file := path_name gp; content := read_text gp |}.

(** ** Vocabulary for the split operations *)

(** Fields put back together with the separators that stood between them. *)
Fixpoint interleave (fields seps : list string) : string :=
  match fields, seps with
  | f :: fields', r :: seps' => f ++ r ++ interleave fields' seps'
  | f :: _, [] => f
  | [], _ => ""
  end.

(** Every string of the list but the last one is non-empty. *)
Fixpoint all_but_last_nonempty (l : list string) : Prop :=
  match l with
  | t :: ((_ :: _) as rest) => t ≠ "" ∧ all_but_last_nonempty rest
  | _ => True
  end.

(** [c.lower() == c] *)
Definition is_lower_fixed (c : ascii) : bool := Ascii.eqb (PyStr.lower_char c) c.

(** The first character of [s] is outside the class [p]. *)
Definition starts_outside (p : ascii -> bool) (s : string) : Prop :=
  match s with
  | String c _ => p c = false
  | EmptyString => False
  end.

(** The last character of [s] is outside the class [p]. *)
Definition ends_outside (p : ascii -> bool) (s : string) : Prop :=
  ∃ (init : string) (z : ascii), s = (init ++ String z "")%string ∧ p z = false.

(** ** Vocabulary for the cache text *)

(** A value written at any level and followed by any text is read back,
    with that text left over, by any fuel that is at least the length of
    what was written. *)
Definition reads_back (j : json) : Prop :=
  ∀ (level : nat) (rest : string) (fuel : nat),
    String.length (Json.dump level j) <= fuel →
    Json.parse_value fuel (Json.dump level j ++ rest) = Some (j, rest).

(** ** C3 as written *)

(** [s] without a trailing [suffix], compared without regard to case;
    [suffix] is given in lowercase. *)
Fixpoint remove_suffix_ci (suffix s : string) : option string :=
  if String.eqb (PyStr.lower s) suffix then Some EmptyString
  else match s with
       | EmptyString => None
       | String c s' =>
           match remove_suffix_ci suffix s' with
           | Some r => Some (String c r)
           | None => None
           end
       end.

(** The candidate as C3 words it: a trailing "Database"/"Databases" removed
    whatever its case, whitespace removed, the rest compared in lowercase. *)
Definition normalize_candidate_ci (candidate : string) : string :=
  let c := PyStr.strip candidate in
  let c := match remove_suffix_ci "databases" c with
           | Some r => r
           | None => match remove_suffix_ci "database" c with
                     | Some r => r
                     | None => c
                     end
           end in
  PyStr.lower (PyStr.strip c).

(** C3 as written: the first candidate of the parenthesized group that
    matches a known schema name after that normalisation is the guide's
    schema. *)
Definition title_rule_case_insensitive (known : list (string * string)) (gp : GuidePath)
  : Prop :=
  ∀ (inner : string) (before : list string) (c : string) (after : list string) (s : string),
    search_paren (guide_first_line (read_text gp)) = Some inner →
    PyStr.re_split_class is_slash_or_comma inner = before ++ c :: after →
    Forall (fun c' => Dict.get (normalize_candidate_ci c') known = None) before →
    Dict.get (normalize_candidate_ci c) known = Some s →
    guide_schema known gp = Some s.


(** ** Sample data used by the examples

    Every index below is the result of [build] on a small catalog. *)

Definition filename_guide : GuidePath :=
  {| path_name := "financial_rules.md"; path_stem := "financial_rules";
     read_text := "# Business rules" ++ newline ++ "Text." |}.

Definition unmatched_guide : GuidePath :=
  {| path_name := "misc_notes.md"; path_stem := "misc_notes";
     read_text := "Notes" |}.

(** A guide whose title writes the suffix in lowercase. *)
Definition lowercase_suffix_guide : GuidePath :=
  {| path_name := "notes.md"; path_stem := "notes";
     read_text := "# Guide (financial database)" ++ newline ++ "Text." |}.

Definition alternatives_guide : GuidePath :=
  {| path_name := "cards.md"; path_stem := "cards";
     read_text := "# Rules (Credit / CreditCard)" ++ newline ++ "Text." |}.

Definition account_facts : TableFacts :=
  {| col_rows := [("a", "INTEGER", "NO")]; table_data := Some [["7"]] |}.

Definition loan_facts : TableFacts :=
  {| col_rows := [("loan_id", "BIGINT", "NO"); ("amount", "DOUBLE", "YES")];
     table_data := Some [["1"; "10.5"]; ["2"; "None"]] |}.

Definition account_table : TableInfo := Eval cbv in scan_table account_facts.

Definition loan_table : TableInfo := Eval cbv in scan_table loan_facts.

(** [views_only] is a schema whose tables are all views: the schema query
    returns it, the base-table query returns no row for it. *)
Definition sample_catalog : Catalog :=
  [("financial", [("account", account_facts); ("loan", loan_facts)]);
   ("hr", [("staff", account_facts)]);
   ("views_only", [])].

Definition sample_index : AgentIndex :=
  Eval cbv in fst (build sample_catalog (Some [filename_guide; unmatched_guide])).

(** A table with 45 columns [c0] ... [c44] and five rows. *)
Definition wide_facts : TableFacts :=
  {| col_rows := map (fun i => (("c" ++ PyStr.of_len i)%string, "INTEGER",
                                if Nat.even i then "YES" else "NO")) (seq 0 45);
     table_data := Some (map (fun r => map (fun i => PyStr.of_len (r + i)) (seq 0 45))
                             (seq 0 5)) |}.

Definition wide_table : TableInfo := Eval cbv in scan_table wide_facts.

Definition wide_index : AgentIndex :=
  Eval cbv in fst (build [("financial", [("wide", wide_facts)])] None).

Definition financial_only : AgentIndex :=
  Eval cbv in fst (build [("financial", [("loan", loan_facts)])] None).

Definition creditcard_only : AgentIndex :=
  Eval cbv in fst (build [("creditcard", [])] None).

(** ** Query tool ([tools/run_query.py])

    [execute_query] belongs to [framework/database.py]; the tool only reads
    from its result the success flag, the error message as the f-string
    prints it, and the dataframe: its column names and its rows, every cell
    as [str] prints it. *)
Module RunQuery.

Local Open Scope string_scope.

Definition MAX_ROWS : nat := 10.

Record DataFrame := { columns : list string; rows : list (list string) }.

Record QueryExecutionResult := {
  is_success : bool;
  error_message : string;
  dataframe : option DataFrame
}.

Definition query_error (result : QueryExecutionResult) : string :=
  "Query error: " ++ error_message result ++ newline ++ newline
  ++ "Please fix the query and try again.".

Definition no_dataframe : string := "Query returned no dataframe.".

Definition more_rows_line (total_rows : nat) : string :=
  "... (" ++ PyStr.of_int (Z.of_nat total_rows - Z.of_nat MAX_ROWS) ++ " more rows)".

(** The list [lines] of [run_query] for a dataframe. *)
Definition result_lines (df : DataFrame) : list string :=
  let col_names := columns df in
  let rows := rows df in
  let total_rows := length rows in
  let lines :=
    ["Rows: " ++ PyStr.of_len total_rows ++ ", Columns: " ++ PyStr.of_len (length col_names);
     "";
     PyStr.join " | " col_names;
     PyStr.repeat_char "-" (PyStr.sum_len_plus 3 col_names)] in
  let lines :=
    (lines ++ map (fun row => PyStr.join " | " row)
                  (PyStr.slice_to (Z.of_nat MAX_ROWS) rows))%list in
  if (Z.of_nat total_rows >? Z.of_nat MAX_ROWS)%Z
  then (lines ++ [more_rows_line total_rows])%list
  else lines.

Definition run_query (execute_query : string -> QueryExecutionResult) (query : string)
  : string :=
  let result := execute_query query in
  if negb (is_success result) then query_error result
  else match dataframe result with
       | None => no_dataframe
       | Some df => PyStr.join newline (result_lines df)
       end.

End RunQuery.

(** ** Vocabulary for the further properties *)

(** A character of a file that is plain text in any ASCII-compatible
    encoding: printable ASCII or a line feed. *)
Definition is_plain_char (c : ascii) : bool :=
  (PyStr.code c =? 10)%N || PyStr.in_range 32 126 c.

Definition sample_query : string -> RunQuery.QueryExecutionResult :=
  fun _ =>
    {| RunQuery.is_success := true;
       RunQuery.error_message := "None";
       RunQuery.dataframe :=
         Some {| RunQuery.columns := ["n"; "sq"];
                 RunQuery.rows :=
                   map (fun i => [PyStr.of_len i; PyStr.of_len (i * i)]) (seq 0 12) |} |}.

Definition two_guides_catalog : Catalog := [("financial", [("loan", loan_facts)])].

Definition earlier_guide : GuidePath :=
  {| path_name := "a_financial.md"; path_stem := "a_financial";
     read_text := "# Old rules" |}.

Definition later_guide : GuidePath :=
  {| path_name := "b.md"; path_stem := "b";
     read_text := "# New rules (Financial Database)" |}.

(** [title] reads [pre], then a non-empty word [w], then a non-empty run of
    whitespace, then the literal: a place where [(\w+)\s+Database] matches,
    with [w] as its group. *)
Definition word_database_at (title pre w : string) : Prop :=
  ∃ ws post : string,
    title = (pre ++ w ++ ws ++ "Database" ++ post)%string
    ∧ w ≠ "" ∧ PyStr.all_chars PyStr.is_word w = true
    ∧ ws ≠ "" ∧ PyStr.all_chars PyStr.is_space ws = true.

(** [s] is the last key of the schema mapping with its lowercase. *)
Definition last_with_lower (index : AgentIndex) (s : string) : Prop :=
  ∃ l1 l2 : list string,
    Dict.keys (schemas index) = l1 ++ s :: l2
    ∧ ∀ s', In s' l2 → PyStr.lower s' ≠ PyStr.lower s.

(** [title] reads [pre], then ["("], then the non-empty text [inner] without
    [")"], then [")"]: a place where [\(([^)]+)\)] matches, with [inner] as
    its group. *)
Definition paren_group_at (title pre inner : string) : Prop :=
  inner ≠ ""
  ∧ PyStr.all_chars (fun c => negb (Ascii.eqb c ")")) inner = true
  ∧ ∃ post : string, title = (pre ++ "(" ++ inner ++ ")" ++ post)%string.

(** [s] reads [core], then a non-empty run of whitespace, then [Database]
    or [Databases] written so, and ends there. *)
Definition database_suffixed (s core : string) : Prop :=
  ∃ ws suffix : string,
    s = (core ++ ws ++ suffix)%string
    ∧ ws ≠ "" ∧ PyStr.all_chars PyStr.is_space ws = true
    ∧ (suffix = "Database" ∨ suffix = "Databases").

(** A guide whose title has an empty pair of parentheses before the group. *)
Definition empty_group_guide : GuidePath :=
  {| path_name := "cards2.md"; path_stem := "cards2";
     read_text := ("# Rules () (Credit, CreditCard Databases)" ++ newline ++ "Text.")%string |}.

(** A guide that only its file name assigns, the name written with a dash
    and a blank. *)
Definition dashed_guide : GuidePath :=
  {| path_name := "Rules-Financial v2.md"; path_stem := "Rules-Financial v2";
     read_text := "# Business rules" |}.

(** The number of line feeds of a text; its lines are one more. *)
Fixpoint count_lf (s : string) : nat :=
  match s with
  | EmptyString => 0
  | String c s' => (if (PyStr.code c =? 10)%N then 1 else 0) + count_lf s'
  end.

(** The line feeds inside the strings of a list. *)
Definition lf_in (l : list string) : nat := list_sum (map count_lf l).

(** A query result with a line feed inside a cell. *)
Definition multiline_query : string -> RunQuery.QueryExecutionResult :=
  fun _ =>
    {| RunQuery.is_success := true;
       RunQuery.error_message := "None";
       RunQuery.dataframe :=
         Some {| RunQuery.columns := ["note"];
                 RunQuery.rows := [[("first" ++ newline ++ "second")%string]; ["third"]] |} |}.

(** * Properties *)

(** ** The dedup state machine *)

Section Dedup.

Variable index : AgentIndex.

Lemma list_schemas_fresh (st : Session) :
  _schemas_listed st = false →
  list_schemas index st =
    (schemas_listing index,
     {| _schemas_listed := true; _described := _described st; _fetched := _fetched st |}).
Proof. intros H. unfold list_schemas. by rewrite H. Qed.

Lemma list_schemas_shown (st : Session) :
  _schemas_listed st = true → list_schemas index st = (schemas_refusal, st).
Proof. intros H. unfold list_schemas. by rewrite H. Qed.

Lemma describe_table_fresh (s t : string) (st : Session) :
  (s, t) ∉ _described st →
  describe_table index s t st =
    (get_table_description index s t default_max_columns,
     {| _schemas_listed := _schemas_listed st;
        _described := {[(s, t)]} ∪ _described st;
        _fetched := _fetched st |}).
Proof. intros H. unfold describe_table. by rewrite bool_decide_eq_false_2. Qed.

Lemma describe_table_shown (s t : string) (st : Session) :
  (s, t) ∈ _described st → describe_table index s t st = (describe_refusal s t, st).
Proof. intros H. unfold describe_table. by rewrite bool_decide_eq_true_2. Qed.

Lemma rules_tool_fresh (s : string) (st : Session) :
  s ∉ _fetched st →
  get_business_rules_tool index s st =
    (facade_result index (KRules s),
     {| _schemas_listed := _schemas_listed st;
        _described := _described st;
        _fetched := {[s]} ∪ _fetched st |}).
Proof.
  intros H. unfold get_business_rules_tool. rewrite bool_decide_eq_false_2 by done.
  simpl. by destruct (get_business_rules index s).
Qed.

Lemma rules_tool_shown (s : string) (st : Session) :
  s ∈ _fetched st → get_business_rules_tool index s st = (rules_refusal s, st).
Proof. intros H. unfold get_business_rules_tool. by rewrite bool_decide_eq_true_2. Qed.

Lemma shown_dec (k : DedupKey) (st : Session) : {shown k st} + {¬ shown k st}.
Proof.
  destruct k as [|s t|s]; simpl.
  - destruct (_schemas_listed st); [by left | by right].
  - destruct (decide ((s, t) ∈ _described st)); [by left | by right].
  - destruct (decide (s ∈ _fetched st)); [by left | by right].
Qed.

(** A tracked call answers from the index the first time... *)
Lemma call_fresh (c : Call) (k : DedupKey) (st : Session) :
  key_of c = Some k → ¬ shown k st →
  fst (call index c st) = facade_result index k ∧ shown k (snd (call index c st)).
Proof.
  destruct c as [|s|s t|s]; simpl; intros [= <-] Hk; simpl in *.
  - apply not_true_is_false in Hk. by rewrite list_schemas_fresh.
  - rewrite describe_table_fresh by done. simpl. split; [done | set_solver].
  - rewrite rules_tool_fresh by done. simpl. split; [done | set_solver].
Qed.

(** ... and refuses once the key is marked, leaving the session as it is. *)
Lemma call_shown (c : Call) (k : DedupKey) (st : Session) :
  key_of c = Some k → shown k st → call index c st = (refusal k, st).
Proof.
  destruct c as [|s|s t|s]; simpl; intros [= <-] Hk; simpl in *.
  - by apply list_schemas_shown.
  - by apply describe_table_shown.
  - by apply rules_tool_shown.
Qed.

Lemma call_marks (c : Call) (k : DedupKey) (st : Session) :
  key_of c = Some k → shown k (snd (call index c st)).
Proof.
  intros Hc. destruct (shown_dec k st) as [H | H].
  - by rewrite (call_shown c k st Hc H).
  - by apply call_fresh.
Qed.

(** No call unmarks a key. *)
Lemma call_keeps_shown (c : Call) (k : DedupKey) (st : Session) :
  shown k st → shown k (snd (call index c st)).
Proof.
  intros Hk. destruct c as [|s|s t|s]; simpl.
  - unfold list_schemas. destruct (_schemas_listed st) eqn:E; simpl; [done |].
    destruct k; simpl in *; [done | done | done].
  - unfold list_tables. by destruct (get_tables index s).
  - unfold describe_table. case_bool_decide; simpl; [done |].
    destruct k; simpl in *; [done | set_solver | done].
  - unfold get_business_rules_tool. case_bool_decide; simpl; [done |].
    destruct (get_business_rules index s); simpl;
      (destruct k; simpl in *; [done | done | set_solver]).
Qed.

Lemma run_keeps_shown (cs : list Call) (k : DedupKey) (st : Session) :
  shown k st → shown k (snd (run index cs st)).
Proof.
  revert st. induction cs as [|c cs IH]; intros st Hk; simpl; [done |].
  pose proof (call_keeps_shown c k st Hk) as Hc.
  destruct (call index c st) as [r st']. simpl in Hc.
  specialize (IH st' Hc). destruct (run index cs st') as [rs st'']. done.
Qed.

(** A call leaves every key other than its own as it found it. *)
Lemma call_other_key (c : Call) (k' : DedupKey) (st : Session) :
  key_of c ≠ Some k' → shown k' (snd (call index c st)) ↔ shown k' st.
Proof.
  intros Hne. destruct c as [|s|s t|s]; simpl in *.
  - unfold list_schemas. destruct (_schemas_listed st) eqn:E; simpl; [done |].
    destruct k'; simpl in *; [congruence | done | done].
  - unfold list_tables. by destruct (get_tables index s).
  - unfold describe_table. case_bool_decide; simpl; [done |].
    destruct k' as [|s' t'|s']; simpl in *; [done | | done].
    rewrite elem_of_union, elem_of_singleton.
    split; [intros [E | H']; [congruence | done] | by right].
  - unfold get_business_rules_tool. case_bool_decide; simpl; [done |].
    destruct (get_business_rules index s); simpl;
      (destruct k' as [|s' t'|s']; simpl in *; [done | done |];
       rewrite elem_of_union, elem_of_singleton;
       (split; [intros [E | H']; [congruence | done] | by right])).
Qed.

End Dedup.

(** ** Claims on the tools *)

(** C6. Within one session, for each tracked key (the list-schemas flag, each
    (schema, table) pair of [describe_table], each schema of
    [get_business_rules]): the first call returns the result of the index;
    after it, whatever calls come in between, the same call returns the
    refusal text of its key and changes nothing, and the key stays marked; a
    call for a different key that is not yet marked still returns the result
    of the index. *)
Theorem dedup_first_real_then_refusal
        (index : AgentIndex) (c : Call) (k : DedupKey) (st : Session) :
  key_of c = Some k → ¬ shown k st →
  fst (call index c st) = facade_result index k
  ∧ (∀ cs : list Call,
       let st' := snd (run index cs (snd (call index c st))) in
       shown k st' ∧ call index c st' = (refusal k, st'))
  ∧ (∀ (c' : Call) (k' : DedupKey),
       key_of c' = Some k' → k' ≠ k → ¬ shown k' st →
       fst (call index c' (snd (call index c st))) = facade_result index k').
Proof.
  intros Hc Hk. split; [by apply call_fresh |]. split.
  - intros cs st'.
    assert (shown k st') as Hs.
    { apply run_keeps_shown. by apply call_marks. }
    split; [done | by apply call_shown].
  - intros c' k' Hc' Hne Hk'.
    apply call_fresh; [done |].
    intros Hs. apply Hk'. apply (call_other_key index c k' st); [| done].
    rewrite Hc. congruence.
Qed.

Lemma dedup_first_real_then_refusal_witness :
  let c := DescribeTable "financial" "loan" in
  let k := KTable "financial" "loan" in
  fst (call sample_index c new_session) = facade_result sample_index k
  ∧ (∀ cs : list Call,
       let st' := snd (run sample_index cs (snd (call sample_index c new_session))) in
       shown k st' ∧ call sample_index c st' = (refusal k, st'))
  ∧ (∀ (c' : Call) (k' : DedupKey),
       key_of c' = Some k' → k' ≠ k → ¬ shown k' new_session →
       fst (call sample_index c' (snd (call sample_index c new_session)))
       = facade_result sample_index k').
Proof.
  apply (dedup_first_real_then_refusal
           sample_index (DescribeTable "financial" "loan")
           (KTable "financial" "loan") new_session).
  - reflexivity.
  - simpl. apply not_elem_of_empty.
Defined.

Lemma known_schema_gets_listing_counterexample :
  Dict.mem "views_only" (schemas sample_index) = true
  ∧ In "views_only" (get_schema_list sample_index)
  ∧ fst (list_tables sample_index "views_only" new_session)
    = schema_not_found sample_index "views_only"
  ∧ ¬ known_schema_gets_listing sample_index "views_only".
Proof.
  split; [reflexivity |]. split; [vm_compute; tauto |]. split; [reflexivity |].
  intros H. specialize (H new_session). vm_compute in H. discriminate H.
Qed.

Lemma sorted_nil_inv (l : list string) : PyStr.sorted l = [] → l = [].
Proof.
  intros H. apply Permutation_nil_r. rewrite <- H.
  unfold PyStr.sorted. by rewrite merge_sort_Permutation.
Qed.

Lemma list_tables_text (index : AgentIndex) (schema_name : string) (st : Session) :
  fst (list_tables index schema_name st) =
  match Dict.get schema_name (schemas index) with
  | Some ((_ :: _) as tables) => tables_listing schema_name (PyStr.sorted (Dict.keys tables))
  | _ => schema_not_found index schema_name
  end.
Proof.
  unfold list_tables, get_tables.
  destruct (Dict.get schema_name (schemas index)) as [tables|]; [| done].
  destruct tables as [|kv tables]; [done |].
  destruct (PyStr.sorted (Dict.keys (kv :: tables))) eqn:E; [| done].
  apply sorted_nil_inv in E. discriminate E.
Qed.

Lemma list_tables_state (index : AgentIndex) (schema_name : string) (st : Session) :
  snd (list_tables index schema_name st) = st.
Proof. unfold list_tables. by destruct (get_tables index schema_name). Qed.

Lemma list_tables_not_refusal (index : AgentIndex) (schema_name : string) (st : Session)
      (k : DedupKey) :
  fst (list_tables index schema_name st) ≠ refusal k.
Proof.
  unfold list_tables.
  destruct (get_tables index schema_name); destruct k; simpl; discriminate.
Qed.

(** C10 (amended). [list_tables] keeps no dedup state: for every schema name
    and every session, whatever calls were made before, a call leaves the
    session as it is and returns the text that a fresh session gets, which
    is never a refusal text: the table listing for a schema with at least
    one table, the not-found guidance with the available schemas for any
    other name. *)
Theorem list_tables_keeps_no_state
        (index : AgentIndex) (schema_name : string) (cs : list Call) (st : Session) :
  let st' := snd (run index cs st) in
  snd (call index (ListTables schema_name) st') = st'
  ∧ fst (call index (ListTables schema_name) st')
    = fst (call index (ListTables schema_name) new_session)
  ∧ (∀ k : DedupKey, fst (call index (ListTables schema_name) st') ≠ refusal k)
  ∧ fst (call index (ListTables schema_name) st') =
    match Dict.get schema_name (schemas index) with
    | Some ((_ :: _) as tables) => tables_listing schema_name (PyStr.sorted (Dict.keys tables))
    | _ => schema_not_found index schema_name
    end.
Proof.
  intros st'. simpl. split; [apply list_tables_state |].
  split; [by rewrite !list_tables_text |].
  split; [intros k; apply list_tables_not_refusal | apply list_tables_text].
Qed.

Lemma failed_lookup_not_deduped_counterexample :
  lookup_fails sample_index (KTable "financial" "missing_table")
  ∧ fst (run sample_index [DescribeTable "financial" "missing_table";
                           DescribeTable "financial" "missing_table"] new_session)
    = [table_not_found "financial" "missing_table";
       describe_refusal "financial" "missing_table"]
  ∧ ¬ failed_lookup_not_deduped sample_index
        (DescribeTable "financial" "missing_table") new_session.
Proof.
  split; [reflexivity |]. split; [vm_compute; reflexivity |].
  intros [_ H]. vm_compute in H. discriminate H.
Qed.

Lemma facade_result_not_found (index : AgentIndex) (k : DedupKey) :
  lookup_fails index k → facade_result index k = not_found_text index k.
Proof.
  destruct k as [|s t|s]; simpl; [done | |].
  - intros H. unfold get_table_description. by rewrite H.
  - intros H. by rewrite H.
Qed.

(** C1 (amended). For every session, a [describe_table] or
    [get_business_rules] call on a key not yet marked marks the key before
    the lookup, also when the lookup fails (unknown schema or table, schema
    with no guide): the call returns the not-found text, the key is marked
    afterwards, and a second identical call returns the refusal text. *)
Theorem failed_lookup_marks_key
        (index : AgentIndex) (c : Call) (k : DedupKey) (st : Session) :
  key_of c = Some k → lookup_fails index k → ¬ shown k st →
  fst (call index c st) = not_found_text index k
  ∧ shown k (snd (call index c st))
  ∧ call index c (snd (call index c st)) = (refusal k, snd (call index c st)).
Proof.
  intros Hc Hf Hk.
  destruct (call_fresh index c k st Hc Hk) as [Hr Hs].
  split; [by rewrite Hr, facade_result_not_found |].
  split; [done | by apply call_shown].
Qed.

Lemma failed_lookup_marks_key_witness :
  let c := GetBusinessRules "hr" in
  fst (call sample_index c new_session) = not_found_text sample_index (KRules "hr")
  ∧ shown (KRules "hr") (snd (call sample_index c new_session))
  ∧ call sample_index c (snd (call sample_index c new_session))
    = (refusal (KRules "hr"), snd (call sample_index c new_session)).
Proof.
  apply (failed_lookup_marks_key sample_index (GetBusinessRules "hr") (KRules "hr") new_session).
  - reflexivity.
  - reflexivity.
  - simpl. apply not_elem_of_empty.
Defined.

(** ** Dictionaries and strings *)

Lemma dict_get_None_not_in {V} (k : string) (d : list (string * V)) :
  Dict.get k d = None ↔ ¬ In k (Dict.keys d).
Proof.
  induction d as [|[k' v'] d IH]; simpl; [tauto |].
  destruct (String.eqb_spec k k') as [-> | Hne].
  - split; [done | intros H; exfalso; apply H; by left].
  - rewrite IH. split; [intros H [E | I]; [congruence | done] | tauto].
Qed.

Lemma str_length_app (a b : string) :
  String.length (a ++ b) = String.length a + String.length b.
Proof. induction a as [|c a IH]; simpl; [done | by rewrite IH]. Qed.

Lemma repeat_char_length (c : ascii) (n : nat) : String.length (PyStr.repeat_char c n) = n.
Proof. induction n as [|n IH]; simpl; [done | by rewrite IH]. Qed.

(** The dashes counted by the source: three more than the joined names are
    wide, as soon as there is a name. *)
Lemma sum_len_plus_join (names : list string) :
  PyStr.sum_len_plus 3 names
  = String.length (PyStr.join " | " names) + (if names is [] then 0 else 3).
Proof.
  unfold PyStr.join. induction names as [|n names IH]; [done |].
  change (PyStr.sum_len_plus 3 (n :: names))
    with (String.length n + 3 + PyStr.sum_len_plus 3 names).
  rewrite IH. destruct names as [|n' names]; simpl; [lia |].
  rewrite !str_length_app. simpl. lia.
Qed.

Lemma slice_to_nat {A} (m : nat) (l : list A) : PyStr.slice_to (Z.of_nat m) l = firstn m l.
Proof.
  unfold PyStr.slice_to. destruct (Z.ltb_spec (Z.of_nat m) 0); [lia |].
  by rewrite Nat2Z.id.
Qed.

Lemma slice_to_all {A} (m : nat) (l : list A) :
  (length l ≤ m)%nat → PyStr.slice_to (Z.of_nat m) l = l.
Proof. intros H. rewrite slice_to_nat. by apply firstn_all2. Qed.

Lemma get_schema_list_perm (index : AgentIndex) :
  get_schema_list index ≡ₚ Dict.keys (schemas index).
Proof. apply merge_sort_Permutation. Qed.

Lemma get_all_guide_topics_perm (index : AgentIndex) :
  get_all_guide_topics index ≡ₚ Dict.keys (guides index).
Proof. apply merge_sort_Permutation. Qed.

(** ** Claims on the query API *)

Lemma not_found_lists_alternatives_counterexample :
  get_table_info sample_index "financial" "missing_table" = None
  ∧ get_tables sample_index "financial" = ["account"; "loan"]
  ∧ get_schema_list sample_index = ["financial"; "hr"; "views_only"]
  ∧ fst (describe_table sample_index "financial" "missing_table" new_session)
    = "Table 'financial.missing_table' not found."
  ∧ ¬ not_found_lists_alternatives sample_index "financial" "missing_table".
Proof.
  split; [reflexivity |]. split; [vm_compute; reflexivity |].
  split; [vm_compute; reflexivity |]. split; [vm_compute; reflexivity |].
  intros H. destruct (H eq_refl) as [E | E]; vm_compute in E; discriminate E.
Qed.

(** C2 (amended). For an unknown schema name [s] and an unknown schema or
    table name [s'.t], no operation fails: [list_tables] returns the
    not-found text followed by the available schemas, which are the schemas
    of the index; [get_business_rules], on a key not yet marked, returns the
    not-found text followed by the guide topics, which are the schemas with a
    guide; [describe_table], on a key not yet marked, returns the text
    [Table 's'.t' not found.], which lists no alternative. On a marked key
    the last two return their refusal text. *)
Theorem unknown_name_reported
        (index : AgentIndex) (s s' t : string) (st : Session) :
  guides_within_schemas index →
  Dict.get s (schemas index) = None →
  get_table_info index s' t = None →
  fst (call index (ListTables s) st)
  = ("Schema '" ++ s ++ "' not found." ++ newline ++
     "Available schemas: " ++ PyStr.join ", " (get_schema_list index))%string
  ∧ get_schema_list index ≡ₚ Dict.keys (schemas index)
  ∧ fst (call index (GetBusinessRules s) st)
    = (if bool_decide (s ∈ _fetched st) then rules_refusal s
       else ("No business rules guide found for schema '" ++ s ++ "'." ++ newline ++
             "Available guide topics: " ++ PyStr.join ", " (get_all_guide_topics index))%string)
  ∧ get_all_guide_topics index ≡ₚ Dict.keys (guides index)
  ∧ fst (call index (DescribeTable s' t) st)
    = (if bool_decide ((s', t) ∈ _described st) then describe_refusal s' t
       else ("Table '" ++ s' ++ "." ++ t ++ "' not found.")%string).
Proof.
  intros Hg Hs Ht. simpl.
  split.
  { rewrite list_tables_text, Hs. done. }
  split; [apply get_schema_list_perm |].
  split.
  { unfold get_business_rules_tool. case_bool_decide; [done |].
    assert (Dict.get s (guides index) = None) as Hn.
    { apply dict_get_None_not_in. intros Hin. apply Hg in Hin.
      by apply dict_get_None_not_in in Hs. }
    unfold get_business_rules. by rewrite Hn. }
  split; [apply get_all_guide_topics_perm |].
  unfold describe_table. case_bool_decide; [done |].
  simpl. unfold get_table_description. by rewrite Ht.
Qed.

Lemma unknown_name_reported_witness :
  fst (call sample_index (ListTables "nosuch") new_session)
  = ("Schema 'nosuch' not found." ++ newline ++
     "Available schemas: " ++ PyStr.join ", " (get_schema_list sample_index))%string
  ∧ get_schema_list sample_index ≡ₚ Dict.keys (schemas sample_index)
  ∧ fst (call sample_index (GetBusinessRules "nosuch") new_session)
    = (if bool_decide ("nosuch" ∈ _fetched new_session) then rules_refusal "nosuch"
       else ("No business rules guide found for schema 'nosuch'." ++ newline ++
             "Available guide topics: " ++ PyStr.join ", " (get_all_guide_topics sample_index))%string)
  ∧ get_all_guide_topics sample_index ≡ₚ Dict.keys (guides sample_index)
  ∧ fst (call sample_index (DescribeTable "financial" "missing_table") new_session)
    = (if bool_decide (("financial", "missing_table") ∈ _described new_session)
       then describe_refusal "financial" "missing_table"
       else "Table 'financial.missing_table' not found.").
Proof.
  apply (unknown_name_reported sample_index "nosuch" "financial" "missing_table" new_session).
  - intros k. vm_compute. tauto.
  - reflexivity.
  - reflexivity.
Defined.

Lemma description_lines_truncated (schema table : string) (info : TableInfo) (m : nat) :
  m < length (columns info) →
  description_lines schema table info (Z.of_nat m)
  = [table_header_line schema table (length (columns info)); ""; "Columns:"]
    ++ map column_line (firstn m (columns info))
    ++ [more_columns_line (length (columns info)) (Z.of_nat m); use_run_query_line].
Proof.
  intros Hm. unfold description_lines.
  assert ((Z.of_nat (length (columns info)) >? Z.of_nat m)%Z = true) as ->.
  { rewrite Z.gtb_ltb. apply Z.ltb_lt. lia. }
  rewrite slice_to_nat. simpl. by destruct (sample_rows info).
Qed.

(** C4. For every table with more than [maxColumns] columns ([maxColumns] a
    number of columns, 40 by default in [describe_table]), the description
    reports the total column count, lists exactly the first [maxColumns]
    columns as [name (type[, nullable])], then the count of omitted columns
    and the hint to use a sampling query, and ends there: it has no
    sample-rows section, whatever sample rows the table holds. *)
Theorem description_truncated
        (index : AgentIndex) (schema table : string) (info : TableInfo) (maxColumns : nat) :
  get_table_info index schema table = Some info →
  maxColumns < length (columns info) →
  get_table_description index schema table (Z.of_nat maxColumns)
  = PyStr.join newline
      ([("Table: " ++ schema ++ "." ++ table ++ " ("
           ++ PyStr.of_len (length (columns info)) ++ " columns)")%string; ""; "Columns:"]
       ++ map (fun c => ("  " ++ name c ++ " (" ++ type c
                         ++ (if nullable c then ", nullable" else "") ++ ")")%string)
              (firstn maxColumns (columns info))
       ++ [("  ... and " ++ PyStr.of_len (length (columns info) - maxColumns)
              ++ " more columns")%string;
           "  (Use run_query with SELECT * ... LIMIT 3 to see all columns)"])
  ∧ length (firstn maxColumns (columns info)) = maxColumns
  ∧ description_lines schema table info (Z.of_nat maxColumns)
    = description_lines schema table
        {| columns := columns info; sample_rows := [] |} (Z.of_nat maxColumns).
Proof.
  intros Hi Hm. split; [| split].
  - unfold get_table_description. rewrite Hi.
    rewrite description_lines_truncated by done.
    unfold more_columns_line, PyStr.of_len.
    replace (Z.of_nat (length (columns info)) - Z.of_nat maxColumns)%Z
      with (Z.of_nat (length (columns info) - maxColumns)) by lia.
    done.
  - rewrite length_firstn. lia.
  - by rewrite !description_lines_truncated.
Qed.

Lemma description_truncated_witness :
  get_table_description wide_index "financial" "wide" (Z.of_nat 40)
  = PyStr.join newline
      ([("Table: " ++ "financial" ++ "." ++ "wide" ++ " ("
           ++ PyStr.of_len (length (columns wide_table)) ++ " columns)")%string; ""; "Columns:"]
       ++ map (fun c => ("  " ++ name c ++ " (" ++ type c
                         ++ (if nullable c then ", nullable" else "") ++ ")")%string)
              (firstn 40 (columns wide_table))
       ++ [("  ... and " ++ PyStr.of_len (length (columns wide_table) - 40)
              ++ " more columns")%string;
           "  (Use run_query with SELECT * ... LIMIT 3 to see all columns)"])
  ∧ length (firstn 40 (columns wide_table)) = 40
  ∧ description_lines "financial" "wide" wide_table (Z.of_nat 40)
    = description_lines "financial" "wide"
        {| columns := columns wide_table; sample_rows := [] |} (Z.of_nat 40).
Proof.
  apply (description_truncated wide_index "financial" "wide" wide_table 40).
  - reflexivity.
  - vm_compute. lia.
Defined.

Lemma separator_matches_header_counterexample :
  get_table_description sample_index "financial" "account" default_max_columns
  = PyStr.join newline
      ["Table: financial.account (1 columns)"; ""; "Columns:"; "  a (INTEGER)"; "";
       "Sample rows (1):"; "  a"; "  ----"; "  7"]
  ∧ sample_header_line (map name (columns account_table)) = "  a"
  ∧ sample_separator_line (map name (columns account_table)) = "  ----"
  ∧ ¬ separator_matches_header (map name (columns account_table)).
Proof.
  split; [vm_compute; reflexivity |]. split; [reflexivity |]. split; [reflexivity |].
  intros H. vm_compute in H. discriminate H.
Qed.

Lemma map_slice_rows (m : nat) (rows : list (list string)) :
  Forall (fun row => (length row ≤ m)%nat) rows →
  map (sample_row_line (Z.of_nat m)) rows
  = map (fun row => ("  " ++ PyStr.join " | " row)%string) rows.
Proof.
  induction 1 as [|row rows Hr _ IH]; simpl; [done |].
  unfold sample_row_line at 1. rewrite slice_to_all by done. by rewrite IH.
Qed.

(** C5 (amended). For every table with at most [maxColumns] columns and a
    non-empty cached sample (each row as wide as the table, as the data model
    has it), the description ends with a header row of the column names in
    catalog order,
    a separator line, and one line per sample row with its cells joined by
    the delimiter. The separator has as many dashes as the sum over the
    column names of their length plus three, so it is three characters wider
    than the header row as soon as the table has a column. *)
Theorem description_with_samples
        (index : AgentIndex) (schema table : string) (info : TableInfo) (maxColumns : nat) :
  get_table_info index schema table = Some info →
  (length (columns info) ≤ maxColumns)%nat →
  sample_rows info ≠ [] →
  Forall (fun row => length row = length (columns info)) (sample_rows info) →
  let col_names := map name (columns info) in
  let header := ("  " ++ PyStr.join " | " col_names)%string in
  let separator := ("  " ++ PyStr.repeat_char "-" (PyStr.sum_len_plus 3 col_names))%string in
  get_table_description index schema table (Z.of_nat maxColumns)
  = PyStr.join newline
      ([table_header_line schema table (length (columns info)); ""; "Columns:"]
       ++ map column_line (columns info)
       ++ [""; sample_title_line (length (sample_rows info)); header; separator]
       ++ map (fun row => ("  " ++ PyStr.join " | " row)%string) (sample_rows info))
  ∧ String.length separator
    = String.length header + (if columns info is [] then 0 else 3).
Proof.
  intros Hi Hm Hne Hrows col_names header separator. split.
  - unfold get_table_description. rewrite Hi. f_equal.
    unfold description_lines.
    assert ((Z.of_nat (length (columns info)) >? Z.of_nat maxColumns)%Z = false) as ->.
    { rewrite Z.gtb_ltb. apply Z.ltb_ge. lia. }
    rewrite slice_to_all by done.
    destruct (sample_rows info) as [|row rows] eqn:E; [done |].
    simpl negb. cbv iota. rewrite map_slice_rows.
    2:{ eapply Forall_impl; [exact Hrows |]. simpl. intros r ->. done. }
    rewrite <- !app_assoc. done.
  - unfold separator, header.
    rewrite !str_length_app, repeat_char_length, sum_len_plus_join.
    unfold col_names. destruct (columns info); simpl; lia.
Qed.

Lemma description_with_samples_witness :
  let info := loan_table in
  let col_names := map name (columns info) in
  let header := ("  " ++ PyStr.join " | " col_names)%string in
  let separator := ("  " ++ PyStr.repeat_char "-" (PyStr.sum_len_plus 3 col_names))%string in
  get_table_description sample_index "financial" "loan" (Z.of_nat 40)
  = PyStr.join newline
      ([table_header_line "financial" "loan" (length (columns info)); ""; "Columns:"]
       ++ map column_line (columns info)
       ++ [""; sample_title_line (length (sample_rows info)); header; separator]
       ++ map (fun row => ("  " ++ PyStr.join " | " row)%string) (sample_rows info))
  ∧ String.length separator
    = String.length header + (if columns info is [] then 0 else 3).
Proof.
  apply (description_with_samples sample_index "financial" "loan" loan_table 40).
  - reflexivity.
  - simpl. lia.
  - discriminate.
  - repeat constructor.
Defined.

(** ** The lowercase lookup and the rule chain *)

Lemma dict_get_set {V} (k x : string) (v : V) (d : list (string * V)) :
  Dict.get x (Dict.set k v d) = if String.eqb x k then Some v else Dict.get x d.
Proof.
  induction d as [|[k' v'] d IH]; simpl; [done |].
  destruct (String.eqb_spec k k') as [-> | Hk]; simpl.
  - by destruct (String.eqb_spec x k').
  - rewrite IH. destruct (String.eqb_spec x k') as [-> | Hx]; [| done].
    destruct (String.eqb_spec k' k); [congruence | done].
Qed.

Lemma lower_lookup_Some (names : list string) (acc : list (string * string)) (x s : string) :
  Dict.get x (fold_left (fun acc s => Dict.set (PyStr.lower s) s acc) names acc) = Some s →
  (In s names ∧ PyStr.lower s = x) ∨ Dict.get x acc = Some s.
Proof.
  revert acc. induction names as [|n names IH]; intros acc; simpl; [by right |].
  intros H. apply IH in H as [[Hin Hl] | H]; [left; tauto |].
  rewrite dict_get_set in H.
  destruct (String.eqb_spec x (PyStr.lower n)) as [-> | Hx]; [| by right].
  injection H as <-. left. tauto.
Qed.

Lemma lower_lookup_None (names : list string) (acc : list (string * string)) (x : string) :
  Dict.get x (fold_left (fun acc s => Dict.set (PyStr.lower s) s acc) names acc) = None ↔
  Dict.get x acc = None ∧ ∀ s, In s names → PyStr.lower s ≠ x.
Proof.
  revert acc. induction names as [|n names IH]; intros acc; simpl; [tauto |].
  rewrite IH, dict_get_set.
  destruct (String.eqb_spec x (PyStr.lower n)) as [-> | Hx].
  - split; [intros [? _]; done | intros [_ H]; exfalso; by apply (H n); [left |]].
  - split; intros [Ha Hn]; (split; [done |]).
    + intros s [<- | Hin]; [congruence | by apply Hn].
    + intros s Hin. apply Hn. by right.
Qed.

(** What the lookup holds: under a lowercase name, a schema with that
    lowercase name; nothing under a name that no schema lowers to. *)
Lemma known_lower_Some (index : AgentIndex) (x s : string) :
  Dict.get x (schema_names_lower index) = Some s →
  In s (Dict.keys (schemas index)) ∧ PyStr.lower s = x.
Proof.
  intros H. apply lower_lookup_Some in H as [H | H]; [done | discriminate H].
Qed.

Lemma known_lower_None (index : AgentIndex) (x : string) :
  Dict.get x (schema_names_lower index) = None ↔
  ∀ s, In s (Dict.keys (schemas index)) → PyStr.lower s ≠ x.
Proof.
  unfold schema_names_lower. rewrite lower_lookup_None. simpl. tauto.
Qed.

Lemma first_known_token_Some (known : list (string * string)) (tokens : list string)
      (s : string) :
  first_known_token known tokens = Some s ↔
  ∃ pre tok post, tokens = pre ++ tok :: post
                  ∧ Forall (fun t => Dict.get t known = None) pre
                  ∧ Dict.get tok known = Some s.
Proof.
  induction tokens as [|t tokens IH]; simpl.
  - split; [done | intros (pre & tok & post & E & _); by destruct pre].
  - destruct (Dict.get t known) as [s0|] eqn:Et.
    + split.
      * intros [= <-]. exists [], t, tokens. by repeat split.
      * intros (pre & tok & post & E & Hpre & Htok).
        destruct pre as [|p pre]; simpl in E; injection E as E1 E2; subst.
        -- congruence.
        -- apply Forall_cons in Hpre as [Hp _]. congruence.
    + rewrite IH. split.
      * intros (pre & tok & post & -> & Hpre & Htok).
        exists (t :: pre), tok, post. repeat split; [by constructor | done].
      * intros (pre & tok & post & E & Hpre & Htok).
        destruct pre as [|p pre]; simpl in E; injection E as E1 E2; subst; [congruence |].
        apply Forall_cons in Hpre as [_ Hpre]. by exists pre, tok, post.
Qed.

Lemma first_known_token_None (known : list (string * string)) (tokens : list string) :
  first_known_token known tokens = None ↔
  Forall (fun t => Dict.get t known = None) tokens.
Proof.
  induction tokens as [|t tokens IH]; simpl; [split; [constructor | done] |].
  destruct (Dict.get t known) as [s0|] eqn:Et.
  - split; [done | intros H; apply Forall_cons in H as [H _]; congruence].
  - rewrite IH. split; [by constructor | by intros H; apply Forall_cons in H as [_ H]].
Qed.

Lemma first_known_candidate_tokens (known : list (string * string)) (candidates : list string) :
  first_known_candidate known candidates
  = first_known_token known (map normalize_candidate candidates).
Proof.
  induction candidates as [|c candidates IH]; simpl; [done |].
  by destruct (Dict.get (normalize_candidate c) known).
Qed.

Lemma first_known_token_in (known : list (string * string)) (tokens : list string) (s : string) :
  first_known_token known tokens = Some s → ∃ x, Dict.get x known = Some s.
Proof.
  intros H. apply first_known_token_Some in H as (_ & tok & _ & _ & _ & H). by exists tok.
Qed.

(** Every rule answers with a value of the lookup. *)
Lemma guide_schema_in (known : list (string * string)) (gp : GuidePath) (s : string) :
  guide_schema known gp = Some s → ∃ x, Dict.get x known = Some s.
Proof.
  unfold guide_schema, _extract_schema_from_title, title_parenthetical, title_suffix,
    _fuzzy_match_filename.
  destruct (search_paren _) as [inner|].
  - rewrite first_known_candidate_tokens.
    destruct (first_known_token known (map _ _)) as [s1|] eqn:E1.
    { intros [= <-]. by apply first_known_token_in in E1. }
    destruct (search_word_database _) as [w|].
    + destruct (Dict.get (PyStr.lower w) known) as [s2|] eqn:E2.
      { intros [= <-]. by exists (PyStr.lower w). }
      apply first_known_token_in.
    + apply first_known_token_in.
  - destruct (search_word_database _) as [w|].
    + destruct (Dict.get (PyStr.lower w) known) as [s2|] eqn:E2.
      { intros [= <-]. by exists (PyStr.lower w). }
      apply first_known_token_in.
    + apply first_known_token_in.
Qed.

Lemma guide_schema_rules (known : list (string * string)) (gp : GuidePath) :
  guide_schema known gp =
  match title_parenthetical (guide_first_line (read_text gp)) known with
  | Some s => Some s
  | None =>
      match title_suffix (guide_first_line (read_text gp)) known with
      | Some s => Some s
      | None => _fuzzy_match_filename (path_stem gp) known
      end
  end.
Proof.
  unfold guide_schema, _extract_schema_from_title.
  destruct (title_parenthetical _ known); [done |].
  by destruct (title_suffix _ known).
Qed.

(** ** Guide scanning *)

Lemma scan_guides_origin (known : list (string * string)) (paths : list GuidePath)
      (gs : list (string * GuideInfo)) (k : string) (g : GuideInfo) :
  Dict.get k (fold_left (scan_guide known) paths gs) = Some g →
  Dict.get k gs = Some g
  ∨ ∃ gp, In gp paths ∧ guide_schema known gp = Some k ∧ g = guide_info gp.
Proof.
  revert gs. induction paths as [|gp paths IH]; intros gs; simpl; [by left |].
  intros H. apply IH in H as [H | (gp' & Hin & Hs & Hg)].
  - unfold scan_guide in H.
    destruct (guide_schema known gp) as [s|] eqn:E; [| by left].
    rewrite dict_get_set in H.
    destruct (String.eqb_spec k s) as [-> | Hk]; [| by left].
    injection H as <-. right. exists gp. repeat split; [by left | done].
  - right. exists gp'. repeat split; [by right | done | done].
Qed.

Lemma build_guide_origin (db : Catalog) (guides_dir : option (list GuidePath))
      (k : string) (g : GuideInfo) :
  let index := fst (build db guides_dir) in
  Dict.get k (guides index) = Some g →
  ∃ paths gp, guides_dir = Some paths ∧ In gp paths
              ∧ guide_schema (schema_names_lower index) gp = Some k
              ∧ g = guide_info gp.
Proof.
  intros index. unfold index, build. simpl.
  destruct guides_dir as [paths|]; simpl; [| done].
  intros H. apply scan_guides_origin in H as [H | (gp & Hin & Hs & Hg)]; [done |].
  by exists paths, gp.
Qed.

Lemma in_map_NoDup_inj {A B} (f : A → B) (l : list A) (x y : A) :
  List.NoDup (map f l) → In x l → In y l → f x = f y → x = y.
Proof.
  induction l as [|a l IH]; simpl; [done |].
  intros Hnd. apply NoDup_cons_iff in Hnd as [Hna Hnd].
  intros [<- | Hx] [<- | Hy] E; try done.
  - exfalso. apply Hna. rewrite E. by apply in_map.
  - exfalso. apply Hna. rewrite <- E. by apply in_map.
  - by apply IH.
Qed.

(** C7. For every guide document that matches no known schema under any of
    the three rules, scanning it leaves the guide mapping as it is, and
    after the build it is the guide of no schema (file names in the guide
    directory being distinct); after every build each key of the guide
    mapping is a key of the schema mapping, and every guide in the mapping
    is a scanned document whose rules gave that key. *)
Theorem unmatched_guide_dropped_guides_within_schemas
        (db : Catalog) (guides_dir : option (list GuidePath)) :
  let index := fst (build db guides_dir) in
  let known := schema_names_lower index in
  guides_within_schemas index
  ∧ (∀ (gs : list (string * GuideInfo)) (gp : GuidePath),
       title_parenthetical (guide_first_line (read_text gp)) known = None →
       title_suffix (guide_first_line (read_text gp)) known = None →
       _fuzzy_match_filename (path_stem gp) known = None →
       scan_guide known gs gp = gs)
  ∧ (∀ (k : string) (g : GuideInfo),
       Dict.get k (guides index) = Some g →
       ∃ paths gp, guides_dir = Some paths ∧ In gp paths
                   ∧ guide_schema known gp = Some k
                   ∧ g = {| file := path_name gp; content := read_text gp |})
  ∧ (∀ (paths : list GuidePath) (gp : GuidePath) (k : string),
       guides_dir = Some paths → List.NoDup (map path_name paths) → In gp paths →
       guide_schema known gp = None →
       Dict.get k (guides index) ≠ Some {| file := path_name gp; content := read_text gp |}).
Proof.
  intros index known.
  assert (∀ (k : string) (g : GuideInfo),
            Dict.get k (guides index) = Some g →
            ∃ paths gp, guides_dir = Some paths ∧ In gp paths
                        ∧ guide_schema known gp = Some k ∧ g = guide_info gp) as Horigin.
  { intros k g. apply build_guide_origin. }
  split; [| split; [| split]].
  - intros k Hin.
    destruct (Dict.get k (guides index)) as [g|] eqn:E.
    + apply Horigin in E as (paths & gp & _ & _ & Hs & _).
      apply guide_schema_in in Hs as [x Hx].
      by apply known_lower_Some in Hx as [Hx _].
    + by apply dict_get_None_not_in in E.
  - intros gs gp H1 H2 H3. unfold scan_guide.
    by rewrite guide_schema_rules, H1, H2, H3.
  - exact Horigin.
  - intros paths gp k Hdir Hnd Hin Hnone Hget.
    apply Horigin in Hget as (paths' & gp' & Hdir' & Hin' & Hs & Hg).
    assert (paths' = paths) as -> by congruence.
    assert (gp' = gp) as ->.
    { apply (in_map_NoDup_inj path_name paths); [done | done | done |].
      unfold guide_info in Hg. by injection Hg. }
    congruence.
Qed.

(** ** The lowercase lookup, by position *)

Lemma lower_lookup_other (names : list string) (acc : list (string * string)) (x : string) :
  (∀ s, In s names → PyStr.lower s ≠ x) →
  Dict.get x (fold_left (fun acc s => Dict.set (PyStr.lower s) s acc) names acc)
  = Dict.get x acc.
Proof.
  revert acc. induction names as [|n names IH]; intros acc H; simpl; [done |].
  rewrite IH by (intros s Hs; apply H; by right).
  rewrite dict_get_set.
  destruct (String.eqb_spec x (PyStr.lower n)) as [-> | Hx]; [| done].
  exfalso. by apply (H n); [left |].
Qed.

Lemma lower_lookup_split (names : list string) (acc : list (string * string)) (x s : string) :
  Dict.get x (fold_left (fun acc s => Dict.set (PyStr.lower s) s acc) names acc) = Some s →
  (∃ l1 l2, names = l1 ++ s :: l2 ∧ PyStr.lower s = x
            ∧ ∀ s', In s' l2 → PyStr.lower s' ≠ x)
  ∨ (Dict.get x acc = Some s ∧ ∀ s', In s' names → PyStr.lower s' ≠ x).
Proof.
  revert acc. induction names as [|n names IH]; intros acc; simpl; [by right |].
  intros H. apply IH in H as [(l1 & l2 & -> & Hl & Hl2) | [H Hn]].
  - left. by exists (n :: l1), l2.
  - rewrite dict_get_set in H.
    destruct (String.eqb_spec x (PyStr.lower n)) as [-> | Hx].
    + injection H as <-. left. by exists [], names.
    + right. split; [done |]. intros s' [<- | Hs']; [done | by apply Hn].
Qed.

Lemma lower_lookup_last (l1 l2 : list string) (acc : list (string * string)) (s : string) :
  (∀ s', In s' l2 → PyStr.lower s' ≠ PyStr.lower s) →
  Dict.get (PyStr.lower s)
           (fold_left (fun acc s => Dict.set (PyStr.lower s) s acc) (l1 ++ s :: l2) acc)
  = Some s.
Proof.
  intros H. rewrite fold_left_app. simpl.
  rewrite lower_lookup_other by done.
  by rewrite dict_get_set, String.eqb_refl.
Qed.

Lemma known_lower_last (index : AgentIndex) (x s : string) :
  Dict.get x (schema_names_lower index) = Some s
  ↔ PyStr.lower s = x ∧ last_with_lower index s.
Proof.
  unfold schema_names_lower, last_with_lower. split.
  - intros H. apply lower_lookup_split in H as [(l1 & l2 & E & <- & Hl2) | [H _]]; [| done].
    split; [done |]. by exists l1, l2.
  - intros [<- (l1 & l2 & -> & Hl2)]. by apply lower_lookup_last.
Qed.

(** ** Splitting *)

Lemma push_head_cons (c : ascii) (h : string) (t : list string) :
  PyStr.push_head c (h :: t) = String c h :: t.
Proof. done. Qed.

Lemma str_app_cons (c : ascii) (a b : string) :
  (String c a ++ b)%string = String c (a ++ b).
Proof. done. Qed.

Lemma str_app_nil (b : string) : ("" ++ b)%string = b.
Proof. done. Qed.

Lemma interleave_push (c : ascii) (h : string) (t seps : list string) :
  interleave (String c h :: t) seps = String c (interleave (h :: t) seps).
Proof. by destruct seps. Qed.

Lemma interleave_cons (f r : string) (fields seps : list string) :
  interleave (f :: fields) (r :: seps) = (f ++ r ++ interleave fields seps)%string.
Proof. done. Qed.

Lemma all_chars_app (p : ascii → bool) (a b : string) :
  PyStr.all_chars p (a ++ b) = PyStr.all_chars p a && PyStr.all_chars p b.
Proof. induction a as [|c a IH]; simpl; [done | by rewrite IH, andb_assoc]. Qed.

(** The fields of [re.split] on runs, put back together with the runs of
    separators between them, are the string; [r0] is the part of a run
    already entered when the scan starts inside one. *)
Lemma re_split_runs_from_spec (p : ascii → bool) (in_sep : bool) (s : string) :
  ∃ (r0 : string) (seps : list string),
    (in_sep = false → r0 = "")
    ∧ PyStr.all_chars p r0 = true
    ∧ Forall (fun r => r ≠ "" ∧ PyStr.all_chars p r = true) seps
    ∧ length (PyStr.re_split_runs_from p in_sep s) = S (length seps)
    ∧ s = (r0 ++ interleave (PyStr.re_split_runs_from p in_sep s) seps)%string.
Proof.
  revert in_sep. induction s as [|c s IH]; intros in_sep; simpl.
  - exists "", []. by repeat split.
  - destruct (p c) eqn:Ec.
    + destruct (IH true) as (r0 & seps & _ & Hr0 & Hseps & Hlen & Hs).
      destruct in_sep.
      * exists (String c r0), seps. repeat split; try done.
        -- simpl. by rewrite Ec, Hr0.
        -- rewrite str_app_cons. by rewrite <- Hs.
      * exists "", (String c r0 :: seps). repeat split.
        -- constructor; [| done]. split; [done |]. simpl. by rewrite Ec, Hr0.
        -- simpl. by rewrite Hlen.
        -- rewrite interleave_cons, !str_app_nil, str_app_cons. by rewrite <- Hs.
    + destruct (IH false) as (r0 & seps & Hnil & _ & Hseps & Hlen & Hs).
      rewrite (Hnil eq_refl), str_app_nil in Hs.
      destruct (PyStr.re_split_runs_from p false s) as [|h t]; [done |].
      exists "", seps. repeat split; try done.
      rewrite push_head_cons, str_app_nil, interleave_push. by rewrite <- Hs.
Qed.

Lemma re_split_runs_from_no_sep (p : ascii → bool) (in_sep : bool) (s : string) :
  Forall (fun t => PyStr.all_chars (fun c => negb (p c)) t = true)
         (PyStr.re_split_runs_from p in_sep s).
Proof.
  revert in_sep. induction s as [|c s IH]; intros in_sep; simpl.
  - by constructor.
  - destruct (p c) eqn:Ec.
    + destruct in_sep; [apply IH | constructor; [done | apply IH]].
    + specialize (IH false).
      destruct (PyStr.re_split_runs_from p false s) as [|h t]; simpl.
      * constructor; [| done]. simpl. by rewrite Ec.
      * apply Forall_cons in IH as [Hh Ht]. constructor; [| done].
        simpl. by rewrite Ec, Hh.
Qed.

Lemma re_split_runs_from_all (P p : ascii → bool) (in_sep : bool) (s : string) :
  PyStr.all_chars P s = true →
  Forall (fun t => PyStr.all_chars P t = true) (PyStr.re_split_runs_from p in_sep s).
Proof.
  revert in_sep. induction s as [|c s IH]; intros in_sep; simpl.
  - by constructor.
  - intros H. apply andb_prop in H as [Hc Hs].
    destruct (p c).
    + destruct in_sep; [by apply IH | constructor; [done | by apply IH]].
    + specialize (IH false Hs).
      destruct (PyStr.re_split_runs_from p false s) as [|h t]; simpl.
      * constructor; [| done]. simpl. by rewrite Hc.
      * apply Forall_cons in IH as [Hh Ht]. constructor; [| done].
        simpl. by rewrite Hc, Hh.
Qed.

(** Only the first and the last field of a split on runs can be empty. *)
Lemma re_split_runs_from_inner (p : ascii → bool) (in_sep : bool) (s : string) :
  if in_sep then all_but_last_nonempty (PyStr.re_split_runs_from p true s)
  else all_but_last_nonempty (tail (PyStr.re_split_runs_from p false s)).
Proof.
  revert in_sep. induction s as [|c s IH]; intros in_sep.
  - by destruct in_sep.
  - simpl. destruct (p c) eqn:Ec.
    + destruct in_sep; simpl; apply (IH true).
    + specialize (IH false). simpl in IH.
      destruct (PyStr.re_split_runs_from p false s) as [|h t]; [by destruct in_sep |].
      simpl in IH. destruct in_sep; simpl; [| done].
      destruct t; [done |]. split; [done | apply IH].
Qed.

(** The fields of [re.split] on a one-character class, put back together
    with one separator between neighbours, are the string. *)
Lemma re_split_class_spec (p : ascii → bool) (s : string) :
  ∃ seps : list string,
    Forall (fun r => ∃ c, r = String c "" ∧ p c = true) seps
    ∧ length (PyStr.re_split_class p s) = S (length seps)
    ∧ s = interleave (PyStr.re_split_class p s) seps.
Proof.
  induction s as [|c s (seps & Hseps & Hlen & Hs)]; simpl.
  - exists []. by repeat split.
  - destruct (p c) eqn:Ec.
    + exists (String c "" :: seps). repeat split.
      * constructor; [by exists c | done].
      * simpl. by rewrite Hlen.
      * rewrite interleave_cons, str_app_nil, str_app_cons, str_app_nil. by rewrite <- Hs.
    + destruct (PyStr.re_split_class p s) as [|h t]; [done |].
      exists seps. repeat split; try done.
      rewrite push_head_cons, interleave_push. by rewrite <- Hs.
Qed.

Lemma re_split_class_no_sep (p : ascii → bool) (s : string) :
  Forall (fun t => PyStr.all_chars (fun c => negb (p c)) t = true) (PyStr.re_split_class p s).
Proof.
  induction s as [|c s IH]; simpl.
  - by constructor.
  - destruct (p c) eqn:Ec; [by constructor |].
    destruct (PyStr.re_split_class p s) as [|h t]; simpl.
    + constructor; [| done]. simpl. by rewrite Ec.
    + apply Forall_cons in IH as [Hh Ht]. constructor; [| done].
      simpl. by rewrite Ec, Hh.
Qed.

(** ** Lowercase *)

Lemma lower_char_idem (c : ascii) : PyStr.lower_char (PyStr.lower_char c) = PyStr.lower_char c.
Proof. destruct c as [[] [] [] [] [] [] [] []]; reflexivity. Qed.

Lemma lower_idem (s : string) : PyStr.lower (PyStr.lower s) = PyStr.lower s.
Proof. induction s as [|c s IH]; simpl; [done | by rewrite lower_char_idem, IH]. Qed.

Lemma lower_all_fixed (s : string) :
  PyStr.all_chars is_lower_fixed (PyStr.lower s) = true.
Proof.
  induction s as [|c s IH]; simpl; [done |].
  rewrite IH, andb_true_r. unfold is_lower_fixed.
  rewrite lower_char_idem. apply Ascii.eqb_refl.
Qed.

Lemma all_fixed_lower (s : string) :
  PyStr.all_chars is_lower_fixed s = true → PyStr.lower s = s.
Proof.
  induction s as [|c s IH]; simpl; [done |].
  intros H. apply andb_prop in H as [Hc Hs].
  apply Ascii.eqb_eq in Hc. by rewrite Hc, IH.
Qed.

(** ** Claim on the filename rule *)

(** C8. The filename rule is tried only when both title rules found nothing.
    It splits the lowercased filename stem on runs of ['_'], ['-'] or
    whitespace: the tokens, put back together with non-empty runs of these
    three kinds of characters between them, are the lowercased stem; no
    token holds an underscore, a dash or whitespace, every token is
    lowercase, and only the first and the last can be empty. The guide goes
    to the schema found under the first token that is the lowercase of a
    known schema name (the last schema of the mapping with this lowercase),
    and to no schema when there is no such token. *)
Theorem filename_rule_first_token (index : AgentIndex) (gp : GuidePath) :
  let known := schema_names_lower index in
  let title := guide_first_line (read_text gp) in
  let tokens := PyStr.re_split_runs is_stem_separator (PyStr.lower (path_stem gp)) in
  guide_schema known gp
  = match title_parenthetical title known with
    | Some s => Some s
    | None =>
        match title_suffix title known with
        | Some s => Some s
        | None => _fuzzy_match_filename (path_stem gp) known
        end
    end
  ∧ (∃ seps : list string,
       Forall (fun r => r ≠ ""
                        ∧ PyStr.all_chars
                            (fun c => Ascii.eqb c "_" || Ascii.eqb c "-" || PyStr.is_space c)
                            r = true) seps
       ∧ length tokens = S (length seps)
       ∧ PyStr.lower (path_stem gp) = interleave tokens seps)
  ∧ Forall (fun t => PyStr.all_chars
                       (fun c => negb (Ascii.eqb c "_" || Ascii.eqb c "-" || PyStr.is_space c))
                       t = true
                     ∧ PyStr.lower t = t) tokens
  ∧ all_but_last_nonempty (tail tokens)
  ∧ (∀ s : string,
       _fuzzy_match_filename (path_stem gp) known = Some s ↔
       ∃ pre tok post,
         tokens = pre ++ tok :: post
         ∧ Forall (fun t => ∀ s', In s' (Dict.keys (schemas index)) → PyStr.lower s' ≠ t) pre
         ∧ Dict.get tok known = Some s)
  ∧ (∀ tok s : string,
       Dict.get tok known = Some s →
       In s (Dict.keys (schemas index)) ∧ PyStr.lower s = PyStr.lower tok)
  ∧ (_fuzzy_match_filename (path_stem gp) known = None ↔
     Forall (fun t => ∀ s', In s' (Dict.keys (schemas index)) → PyStr.lower s' ≠ t) tokens)
  ∧ (∀ (pre : list string) (tok : string) (post : list string) (s : string),
       tokens = pre ++ tok :: post →
       Forall (fun t => ∀ s', In s' (Dict.keys (schemas index)) → PyStr.lower s' ≠ t) pre →
       PyStr.lower s = tok → last_with_lower index s →
       _fuzzy_match_filename (path_stem gp) known = Some s).
Proof.
  intros known title tokens.
  split; [apply guide_schema_rules |].
  split.
  { destruct (re_split_runs_from_spec is_stem_separator false (PyStr.lower (path_stem gp)))
      as (r0 & seps & Hnil & _ & Hseps & Hlen & Hs).
    rewrite (Hnil eq_refl), str_app_nil in Hs. by exists seps. }
  split.
  { pose proof (re_split_runs_from_no_sep is_stem_separator false
                  (PyStr.lower (path_stem gp))) as H1.
    pose proof (re_split_runs_from_all is_lower_fixed is_stem_separator false
                  (PyStr.lower (path_stem gp)) (lower_all_fixed _)) as H2.
    unfold tokens, PyStr.re_split_runs.
    rewrite List.Forall_forall in *. intros t Ht. split; [exact (H1 t Ht) |].
    apply all_fixed_lower. by apply H2. }
  split.
  { apply (re_split_runs_from_inner is_stem_separator false). }
  assert (∀ l : list string,
            Forall (fun t => Dict.get t known = None) l ↔
            Forall (fun t => ∀ s', In s' (Dict.keys (schemas index)) → PyStr.lower s' ≠ t) l)
    as Hnone.
  { intros l. rewrite !List.Forall_forall. split; intros H t Ht.
    - apply known_lower_None. by apply H.
    - apply known_lower_None. by apply H. }
  split; [| split; [| split]].
  - intros s. unfold _fuzzy_match_filename. fold tokens.
    rewrite first_known_token_Some.
    split; intros (pre & tok & post & E & Hpre & Htok); exists pre, tok, post;
      (repeat split; [done | by apply Hnone | done]).
  - intros tok s H. apply known_lower_Some in H as [Hin <-].
    by rewrite lower_idem.
  - unfold _fuzzy_match_filename. fold tokens.
    by rewrite first_known_token_None, Hnone.
  - intros pre tok post s E Hpre Hlow Hlast.
    unfold _fuzzy_match_filename. fold tokens.
    apply first_known_token_Some. exists pre, tok, post.
    split; [done |]. split; [by apply Hnone |].
    by apply known_lower_last.
Qed.

Lemma filename_rule_first_token_witness :
  PyStr.re_split_runs is_stem_separator (PyStr.lower (path_stem dashed_guide))
  = ["rules"; "financial"; "v2"]
  ∧ _fuzzy_match_filename (path_stem dashed_guide) (schema_names_lower financial_only)
    = Some "financial"
  ∧ guide_schema (schema_names_lower financial_only) dashed_guide = Some "financial".
Proof.
  destruct (filename_rule_first_token financial_only dashed_guide)
    as (Hrule & _ & _ & _ & Hfirst & _).
  assert (_fuzzy_match_filename (path_stem dashed_guide) (schema_names_lower financial_only)
          = Some "financial") as Hf.
  { apply Hfirst. exists ["rules"], "financial", ["v2"].
    split; [reflexivity |]. split; [| reflexivity].
    constructor; [| constructor]. intros s' [<- | []]. discriminate. }
  split; [reflexivity |]. split; [exact Hf |].
  rewrite Hrule, Hf. reflexivity.
Defined.

(** ** Stripping *)

Lemma str_app_assoc (a b c : string) : ((a ++ b) ++ c)%string = (a ++ (b ++ c))%string.
Proof. induction a as [|x a IH]; [done |]. by rewrite !str_app_cons, IH. Qed.

Lemma lstrip_app_all (p : ascii → bool) (lead s : string) :
  PyStr.all_chars p lead = true →
  PyStr.lstrip_by p (lead ++ s) = PyStr.lstrip_by p s.
Proof.
  induction lead as [|c lead IH]; [done |]. simpl.
  intros H. apply andb_prop in H as [Hc Hl]. rewrite Hc. by apply IH.
Qed.

Lemma lstrip_starts (p : ascii → bool) (s : string) :
  starts_outside p s → PyStr.lstrip_by p s = s.
Proof. destruct s as [|c s]; [done |]. simpl. by intros ->. Qed.

Lemma lstrip_result (p : ascii → bool) (s : string) :
  PyStr.lstrip_by p s = "" ∨ starts_outside p (PyStr.lstrip_by p s).
Proof.
  induction s as [|c s IH]; [by left |]. simpl.
  destruct (p c) eqn:Ec; [done | by right].
Qed.

Lemma rstrip_all (p : ascii → bool) (s : string) :
  PyStr.all_chars p s = true → PyStr.rstrip_by p s = "".
Proof.
  induction s as [|c s IH]; [done |]. simpl.
  intros H. apply andb_prop in H as [Hc Hs]. by rewrite IH, Hc.
Qed.

Lemma rstrip_app_all (p : ascii → bool) (s trail : string) :
  PyStr.all_chars p trail = true →
  PyStr.rstrip_by p (s ++ trail) = PyStr.rstrip_by p s.
Proof.
  intros H. induction s as [|c s IH]; [by apply rstrip_all |].
  rewrite str_app_cons. simpl. by rewrite IH.
Qed.

Lemma rstrip_ends (p : ascii → bool) (s : string) :
  ends_outside p s → PyStr.rstrip_by p s = s.
Proof.
  intros (init & z & -> & Hz). induction init as [|c init IH].
  - simpl. by rewrite Hz.
  - rewrite str_app_cons. simpl. rewrite IH. by destruct init.
Qed.

Lemma rstrip_result (p : ascii → bool) (s : string) :
  PyStr.rstrip_by p s = "" ∨ ends_outside p (PyStr.rstrip_by p s).
Proof.
  induction s as [|c s IH]; [by left |]. simpl.
  destruct (PyStr.rstrip_by p s) as [|a r] eqn:E.
  - destruct (p c) eqn:Ec; [by left |]. right. by exists "", c.
  - right. destruct IH as [IH | (init & z & Ei & Hz)]; [done |].
    exists (String c init), z. by rewrite str_app_cons, <- Ei.
Qed.

Lemma rstrip_keeps_start (p : ascii → bool) (s : string) :
  starts_outside p s → starts_outside p (PyStr.rstrip_by p s).
Proof.
  destruct s as [|c s]; [done |]. simpl. intros Hc.
  destruct (PyStr.rstrip_by p s); [by rewrite Hc | done].
Qed.

(** A string that [strip] leaves alone is empty or has no whitespace at
    either end, and conversely. *)
Lemma strip_result (s : string) :
  PyStr.strip s = ""
  ∨ (starts_outside PyStr.is_space (PyStr.strip s) ∧ ends_outside PyStr.is_space (PyStr.strip s)).
Proof.
  unfold PyStr.strip.
  destruct (rstrip_result PyStr.is_space (PyStr.lstrip_by PyStr.is_space s)) as [E | He];
    [by left |].
  right. split; [| done].
  destruct (lstrip_result PyStr.is_space s) as [E | Hs].
  - rewrite E in He. by destruct He as ([|] & z & Hz & _).
  - by apply rstrip_keeps_start.
Qed.

Lemma strip_fixed (s : string) :
  starts_outside PyStr.is_space s → ends_outside PyStr.is_space s → PyStr.strip s = s.
Proof. intros Hs He. unfold PyStr.strip. by rewrite lstrip_starts, rstrip_ends. Qed.

Lemma strip_idem (s : string) : PyStr.strip (PyStr.strip s) = PyStr.strip s.
Proof.
  destruct (strip_result s) as [E | [Hs He]]; [by rewrite E | by apply strip_fixed].
Qed.

Lemma stripped_ends (s : string) :
  PyStr.strip s = s → s ≠ "" →
  starts_outside PyStr.is_space s ∧ ends_outside PyStr.is_space s.
Proof.
  intros E Hne. destruct (strip_result s) as [E' | H]; [congruence | by rewrite E in H].
Qed.

Lemma strip_around (lead s trail : string) :
  PyStr.all_chars PyStr.is_space lead = true →
  PyStr.all_chars PyStr.is_space trail = true →
  starts_outside PyStr.is_space s → ends_outside PyStr.is_space s →
  PyStr.strip (lead ++ s ++ trail) = s.
Proof.
  intros Hl Ht Hs He. unfold PyStr.strip.
  rewrite lstrip_app_all by done.
  rewrite lstrip_starts by (by destruct s).
  rewrite rstrip_app_all by done. by apply rstrip_ends.
Qed.

(** ** The [Database] suffix *)

Lemma sub_database_suffix_eq (s : string) :
  sub_database_suffix s =
  if database_suffix_here s then ""
  else match s with
       | "" => ""
       | String c s' => String c (sub_database_suffix s')
       end.
Proof. by destruct s. Qed.

Lemma span_by_app_stop (p : ascii → bool) (x : string) (z : ascii) (rest : string) :
  p z = false →
  ∃ w0 x', span_by p (x ++ String z rest) = (w0, (x' ++ String z rest)%string)
           ∧ x = (w0 ++ x')%string.
Proof.
  intros Hz. induction x as [|c x (w0 & x' & E & Hx)].
  - exists "", "". simpl. by rewrite Hz.
  - rewrite str_app_cons. simpl. destruct (p c) eqn:Ec.
    + rewrite E. exists (String c w0), x'. by rewrite Hx.
    + by exists "", (String c x).
Qed.

Lemma span_by_all_then (p : ascii → bool) (ws : string) (c : ascii) (s : string) :
  PyStr.all_chars p ws = true → p c = false →
  span_by p (ws ++ String c s) = (ws, String c s).
Proof.
  intros Hw Hc. induction ws as [|a ws IH]; simpl.
  - by rewrite Hc.
  - simpl in Hw. apply andb_prop in Hw as [Ha Hw]. by rewrite Ha, IH.
Qed.

Lemma drop_app_le (n : nat) (a b : string) :
  n <= String.length a → PyStr.drop n (a ++ b) = (PyStr.drop n a ++ b)%string.
Proof.
  revert a. induction n as [|n IH]; intros a Hn; [done |].
  destruct a as [|c a]; simpl in Hn; [lia |].
  rewrite str_app_cons. simpl. apply IH. lia.
Qed.

Lemma drop_length (n : nat) (a : string) :
  String.length (PyStr.drop n a) = String.length a - n.
Proof.
  revert a. induction n as [|n IH]; intros a; simpl; [lia |].
  destruct a as [|c a]; simpl; [done | apply IH].
Qed.

Lemma all_chars_end (p : ascii → bool) (a : string) (z : ascii) :
  p z = false → PyStr.all_chars p (a ++ String z "") = false.
Proof. intros Hz. rewrite all_chars_app. simpl. rewrite Hz. apply andb_false_r. Qed.

(** After the literal, with or without its [s], something other than
    whitespace is left as soon as the text goes on for nine characters and
    ends outside whitespace. *)
Lemma rest_not_blank (r_init : string) (last : ascii) :
  PyStr.is_space last = false → 9 <= String.length r_init →
  let r' := PyStr.drop 8 (r_init ++ String last "") in
  PyStr.all_chars PyStr.is_space
    (if PyStr.starts_with "s" r' then PyStr.drop 1 r' else r') = false.
Proof.
  intros Hl Hlen r'. unfold r'. rewrite drop_app_le by lia.
  pose proof (drop_length 8 r_init) as Hd.
  destruct (PyStr.drop 8 r_init) as [|a d]; simpl in Hd; [lia |].
  rewrite str_app_cons.
  destruct (PyStr.starts_with "s" (String a (d ++ String last ""))).
  - simpl. by apply all_chars_end.
  - simpl. rewrite all_chars_end by done. apply andb_false_r.
Qed.

Lemma database_suffix_split (suffix : string) :
  suffix = "Database" ∨ suffix = "Databases" →
  ∃ init last, suffix = (init ++ String last "")%string
               ∧ PyStr.is_space last = false ∧ 7 <= String.length init.
Proof.
  intros [-> | ->].
  - exists "Databas", "e"%char. repeat split; simpl; lia.
  - exists "Database", "s"%char. repeat split; simpl; lia.
Qed.

(** No match starts before the end of the core. *)
Lemma database_suffix_here_inside (x : string) (z : ascii) (ws suffix : string) :
  PyStr.is_space z = false → ws ≠ "" →
  suffix = "Database" ∨ suffix = "Databases" →
  database_suffix_here (x ++ String z (ws ++ suffix)) = false.
Proof.
  intros Hz Hws Hsuf. unfold database_suffix_here.
  destruct (span_by_app_stop PyStr.is_space x z (ws ++ suffix) Hz) as (w0 & x' & E & Hx).
  rewrite E. destruct w0 as [|a w0]; [done |].
  destruct (database_suffix_split suffix Hsuf) as (init & last & -> & Hl & Hi).
  apply andb_false_intro2.
  replace (x' ++ String z (ws ++ init ++ String last ""))%string
    with ((x' ++ String z (ws ++ init)) ++ String last "")%string.
  - apply rest_not_blank; [done |].
    rewrite !str_length_app. simpl. rewrite str_length_app.
    destruct ws; [done |]. simpl. lia.
  - rewrite str_app_assoc, str_app_cons. by rewrite str_app_assoc.
Qed.

(** The match starts where the whitespace before the literal starts. *)
Lemma database_suffix_here_at (ws suffix : string) :
  PyStr.all_chars PyStr.is_space ws = true → ws ≠ "" →
  suffix = "Database" ∨ suffix = "Databases" →
  database_suffix_here (ws ++ suffix) = true.
Proof.
  intros Hw Hne Hsuf. unfold database_suffix_here.
  assert (span_by PyStr.is_space (ws ++ suffix) = (ws, suffix)) as ->.
  { destruct Hsuf as [-> | ->]; by apply span_by_all_then. }
  destruct ws; [done |]. by destruct Hsuf as [-> | ->].
Qed.

Lemma sub_database_suffix_strips (init : string) (z : ascii) (ws suffix : string) :
  PyStr.is_space z = false →
  PyStr.all_chars PyStr.is_space ws = true → ws ≠ "" →
  suffix = "Database" ∨ suffix = "Databases" →
  sub_database_suffix (init ++ String z (ws ++ suffix)) = (init ++ String z "")%string.
Proof.
  intros Hz Hw Hne Hsuf. induction init as [|c init IH].
  - pose proof (database_suffix_here_inside "" z ws suffix Hz Hne Hsuf) as Hin.
    rewrite str_app_nil in *. rewrite sub_database_suffix_eq, Hin.
    rewrite sub_database_suffix_eq, database_suffix_here_at by done. done.
  - rewrite sub_database_suffix_eq.
    rewrite (database_suffix_here_inside (String c init) z ws suffix) by done.
    by rewrite !str_app_cons, IH.
Qed.

(** What the candidate loop looks up for a candidate that ends in the
    literal: the lowercase of what stands before the whitespace before it. *)
Lemma normalize_candidate_suffix (lead core ws suffix trail : string) :
  PyStr.all_chars PyStr.is_space lead = true →
  PyStr.all_chars PyStr.is_space trail = true →
  PyStr.all_chars PyStr.is_space ws = true → ws ≠ "" →
  PyStr.strip core = core → core ≠ "" →
  suffix = "Database" ∨ suffix = "Databases" →
  normalize_candidate (lead ++ core ++ ws ++ suffix ++ trail) = PyStr.lower core.
Proof.
  intros Hl Ht Hw Hne Hcore Hc Hsuf. unfold normalize_candidate.
  destruct (stripped_ends core Hcore Hc) as [Hs (init & z & -> & Hz)].
  destruct (database_suffix_split suffix Hsuf) as (si & last & Esuf & Hlast & _).
  assert (PyStr.strip (lead ++ (init ++ String z "") ++ ws ++ suffix ++ trail)
          = (init ++ String z (ws ++ suffix))%string) as ->.
  { replace (lead ++ (init ++ String z "") ++ ws ++ suffix ++ trail)%string
      with (lead ++ (init ++ String z (ws ++ suffix)) ++ trail)%string.
    - apply strip_around; [done | done | by destruct init |].
      exists (init ++ String z (ws ++ si))%string, last. split; [| done].
      rewrite Esuf. rewrite !str_app_assoc, !str_app_cons. by rewrite str_app_assoc.
    - f_equal. rewrite !str_app_assoc, !str_app_cons, str_app_nil.
      by rewrite str_app_assoc. }
  rewrite sub_database_suffix_strips by done. by rewrite Hcore.
Qed.

(** ** The parenthesized group *)

Lemma until_close_spec (s r : string) :
  until_close s = Some r →
  PyStr.all_chars (fun c => negb (is_close_paren c)) r = true
  ∧ ∃ post, s = (r ++ String ")" post)%string.
Proof.
  revert r. induction s as [|c s IH]; intros r; simpl; [done |].
  destruct (is_close_paren c) eqn:Ec.
  - intros [= <-]. split; [done |]. exists s.
    apply Ascii.eqb_eq in Ec. by rewrite Ec.
  - destruct (until_close s) as [r0|]; [| done].
    intros [= <-]. destruct (IH r0 eq_refl) as [Hr (post & ->)].
    split; [simpl; by rewrite Ec, Hr | by exists post].
Qed.

Lemma until_close_app (r post : string) :
  PyStr.all_chars (fun c => negb (is_close_paren c)) r = true →
  until_close (r ++ String ")" post) = Some r.
Proof.
  induction r as [|c r IH]; [done |]. simpl.
  intros H. apply andb_prop in H as [Hc Hr]. apply negb_true_iff in Hc.
  by rewrite Hc, IH.
Qed.

(** [search_paren] finds the leftmost non-empty group without [")"] that
    stands between ["("] and [")"]. *)
Lemma search_paren_spec (title inner : string) :
  search_paren title = Some inner →
  inner ≠ ""
  ∧ PyStr.all_chars (fun c => negb (is_close_paren c)) inner = true
  ∧ ∃ pre post,
      title = (pre ++ String "(" (inner ++ String ")" post))%string
      ∧ ∀ pre' inner' post',
          title = (pre' ++ String "(" (inner' ++ String ")" post'))%string →
          inner' ≠ "" →
          PyStr.all_chars (fun c => negb (is_close_paren c)) inner' = true →
          String.length pre <= String.length pre'.
Proof.
  revert inner. induction title as [|c s IH]; intros inner; simpl; [done |].
  assert (search_paren s = Some inner →
          (is_open_paren c = true →
           ∀ r, until_close s = Some r → r = "") →
          inner ≠ ""
          ∧ PyStr.all_chars (fun c => negb (is_close_paren c)) inner = true
          ∧ ∃ pre post,
              String c s = (pre ++ String "(" (inner ++ String ")" post))%string
              ∧ ∀ pre' inner' post',
                  String c s = (pre' ++ String "(" (inner' ++ String ")" post'))%string →
                  inner' ≠ "" →
                  PyStr.all_chars (fun c => negb (is_close_paren c)) inner' = true →
                  String.length pre <= String.length pre') as Hrec.
  { intros Hs Hfail.
    destruct (IH inner Hs) as (Hne & Hall & pre & post & Es & Hleft).
    split; [done |]. split; [done |].
    exists (String c pre), post. split; [by rewrite str_app_cons, <- Es |].
    intros pre' inner' post' E' Hne' Hall'.
    destruct pre' as [|c' pre'].
    - rewrite str_app_nil in E'. injection E' as -> ->.
      exfalso. apply Hne'. apply (Hfail eq_refl). by apply until_close_app.
    - rewrite str_app_cons in E'. injection E' as -> E'.
      specialize (Hleft pre' inner' post' E' Hne' Hall'). simpl. lia. }
  destruct (is_open_paren c) eqn:Ec.
  - destruct (until_close s) as [[|a r]|] eqn:Eu.
    + intros Hs. apply Hrec; [done |]. intros _ r. congruence.
    + intros [= <-]. apply until_close_spec in Eu as [Hall (post & ->)].
      split; [done |]. split; [done |].
      exists "", post. split.
      * apply Ascii.eqb_eq in Ec. by rewrite Ec.
      * intros. simpl. lia.
    + intros Hs. apply Hrec; [done |]. intros _ r. congruence.
  - intros Hs. apply Hrec; [done |]. congruence.
Qed.

(** ** Claim on the title rule *)

Lemma title_rule_case_insensitive_counterexample :
  let known := schema_names_lower financial_only in
  guide_first_line (read_text lowercase_suffix_guide) = "Guide (financial database)"
  ∧ search_paren "Guide (financial database)" = Some "financial database"
  ∧ normalize_candidate_ci "financial database" = "financial"
  ∧ normalize_candidate "financial database" = "financial database"
  ∧ guide_schema known lowercase_suffix_guide = None
  ∧ ¬ title_rule_case_insensitive known lowercase_suffix_guide.
Proof.
  intros known. repeat split; try reflexivity.
  intros H.
  specialize (H "financial database" [] "financial database" [] "financial"
                eq_refl eq_refl (List.Forall_nil _) eq_refl).
  vm_compute in H. discriminate H.
Qed.

Lemma candidate_found (known : list (string * string)) (candidates before after : list string)
      (c s : string) :
  candidates = before ++ c :: after →
  Forall (fun c' => Dict.get (normalize_candidate c') known = None) before →
  Dict.get (normalize_candidate c) known = Some s →
  first_known_candidate known candidates = Some s.
Proof.
  intros -> Hb Hc. rewrite first_known_candidate_tokens.
  apply first_known_token_Some.
  exists (map normalize_candidate before), (normalize_candidate c),
         (map normalize_candidate after).
  split; [by rewrite map_app |]. split; [| done].
  rewrite List.Forall_forall in *. intros t Ht.
  apply in_map_iff in Ht as (c' & <- & Hin). by apply Hb.
Qed.

(** ** The examples of the specification *)

Example title_with_suffix :
  _extract_schema_from_title "Title (Financial Database)" (schema_names_lower financial_only)
  = Some "financial".
Proof. reflexivity. Qed.

Example title_with_alternatives :
  guide_schema (schema_names_lower creditcard_only) alternatives_guide = Some "creditcard".
Proof. reflexivity. Qed.

Example filename_fallback :
  _extract_schema_from_title (guide_first_line (read_text filename_guide))
                             (schema_names_lower financial_only) = None
  ∧ guide_schema (schema_names_lower financial_only) filename_guide = Some "financial".
Proof. split; reflexivity. Qed.

Example unmatched_guide_dropped :
  guides (fst (build [("financial", [])] (Some [filename_guide; unmatched_guide])))
  = [("financial", guide_info filename_guide)].
Proof. reflexivity. Qed.

Example dedup_session :
  fst (run sample_index
           [DescribeTable "financial" "loan"; DescribeTable "financial" "loan";
            DescribeTable "financial" "account"] new_session)
  = [get_table_description sample_index "financial" "loan" 40;
     describe_refusal "financial" "loan";
     get_table_description sample_index "financial" "account" 40].
Proof. vm_compute. reflexivity. Qed.

Example wide_table_description :
  PyStr.contains "... and 5 more columns"
                 (get_table_description wide_index "financial" "wide" 40) = true
  ∧ PyStr.contains "Sample rows"
                   (get_table_description wide_index "financial" "wide" 40) = false
  ∧ PyStr.contains "Table: financial.wide (45 columns)"
                   (get_table_description wide_index "financial" "wide" 40) = true.
Proof. repeat split; vm_compute; reflexivity. Qed.

Example negative_bound_slices :
  PyStr.slice_to 2 [1; 2; 3] = [1; 2] ∧ PyStr.slice_to (-1) [1; 2; 3] = [1; 2].
Proof. split; reflexivity. Qed.

(** ** The cache text *)

Lemma json_nested_ind (P : json → Prop) :
  (∀ s, P (JStr s)) →
  (∀ b, P (JBool b)) →
  (∀ items, Forall P items → P (JArr items)) →
  (∀ members, Forall (fun kv => P (snd kv)) members → P (JObj members)) →
  ∀ j, P j.
Proof.
  intros Hstr Hbool Harr Hobj. fix IH 1. intros [s|b|items|members].
  - apply Hstr.
  - apply Hbool.
  - apply Harr. induction items as [|x xs IHx]; constructor; [apply IH | apply IHx].
  - apply Hobj. induction members as [|[k v] ms IHm]; constructor; [apply IH | apply IHm].
Qed.

Lemma dump_arr_cons (level : nat) (x : json) (rest : list json) :
  Json.dump level (JArr (x :: rest))
  = ("[" ++ Json.nl (S level) ++ Json.dump (S level) x
     ++ Json.more_items (S level) rest ++ Json.nl level ++ "]")%string.
Proof.
  simpl. do 4 f_equal.
  induction rest as [|y rest IH]; [done |]. simpl. by rewrite IH.
Qed.

Lemma dump_obj_cons (level : nat) (k : string) (v : json) (rest : list (string * json)) :
  Json.dump level (JObj ((k, v) :: rest))
  = ("{" ++ Json.nl (S level) ++ Json.dump_string k ++ ": " ++ Json.dump (S level) v
     ++ Json.more_members (S level) rest ++ Json.nl level ++ "}")%string.
Proof.
  simpl. do 6 f_equal.
  induction rest as [|[k' v'] rest IH]; [done |]. simpl. by rewrite IH.
Qed.

Lemma scan_escape_char (c : ascii) (x : string) :
  Json.scan_string (Json.escape_char c ++ x) = Json.cons_char c (Json.scan_string x).
Proof. destruct c as [[] [] [] [] [] [] [] []]; reflexivity. Qed.

Lemma scan_escape_body (s rest : string) :
  Json.scan_string (Json.escape_body s ++ String Json.dquote rest) = Some (s, rest).
Proof.
  induction s as [|c s IH]; [done |].
  simpl Json.escape_body. by rewrite str_app_assoc, scan_escape_char, IH.
Qed.

Lemma all_chars_repeat (p : ascii → bool) (c : ascii) (n : nat) :
  p c = true → PyStr.all_chars p (PyStr.repeat_char c n) = true.
Proof. intros Hc. induction n as [|n IH]; simpl; [done | by rewrite Hc, IH]. Qed.

Lemma skip_ws_nl (level : nat) (x : string) :
  Json.skip_ws (Json.nl level ++ x) = Json.skip_ws x.
Proof.
  unfold Json.skip_ws. apply lstrip_app_all.
  unfold Json.nl. simpl. by apply all_chars_repeat.
Qed.

Lemma skip_ws_head (c : ascii) (t : string) :
  Json.is_json_space c = false → Json.skip_ws (String c t) = String c t.
Proof. intros Hc. unfold Json.skip_ws. simpl. by rewrite Hc. Qed.

Lemma parse_value_ws (fuel : nat) (a b : string) :
  Json.skip_ws a = Json.skip_ws b → Json.parse_value fuel a = Json.parse_value fuel b.
Proof. intros E. destruct fuel; simpl; [done | by rewrite E]. Qed.

Lemma parse_member_ws (fuel : nat) (a b : string) :
  Json.skip_ws a = Json.skip_ws b → Json.parse_member fuel a = Json.parse_member fuel b.
Proof. intros E. destruct fuel; simpl; [done | by rewrite E]. Qed.

Lemma parse_more_items_ws (fuel : nat) (a b : string) :
  Json.skip_ws a = Json.skip_ws b →
  Json.parse_more_items fuel a = Json.parse_more_items fuel b.
Proof. intros E. destruct fuel; simpl; [done | by rewrite E]. Qed.

Lemma parse_more_members_ws (fuel : nat) (a b : string) :
  Json.skip_ws a = Json.skip_ws b →
  Json.parse_more_members fuel a = Json.parse_more_members fuel b.
Proof. intros E. destruct fuel; simpl; [done | by rewrite E]. Qed.

(** A value never starts with whitespace, a closing bracket or a comma. *)
Lemma dump_head (level : nat) (j : json) (rest : string) :
  ∃ c t, (Json.dump level j ++ rest)%string = String c t
         ∧ Json.is_json_space c = false
         ∧ Ascii.eqb c "]" = false ∧ Ascii.eqb c "}" = false.
Proof.
  destruct j as [s|[]|[|x r]|[|[k v] r]];
    try rewrite dump_arr_cons; try rewrite dump_obj_cons;
    eexists _, _; (split; [reflexivity | by repeat split]).
Qed.

Lemma nl_length (level : nat) : 1 <= String.length (Json.nl level).
Proof. unfold Json.nl. simpl. lia. Qed.

Lemma dump_string_length (s : string) : 2 <= String.length (Json.dump_string s).
Proof. unfold Json.dump_string. simpl. rewrite str_length_app. simpl. lia. Qed.

Lemma parse_dump_string (k rest : string) :
  Json.scan_string (Json.escape_body k ++ String Json.dquote "" ++ rest) = Some (k, rest).
Proof. apply scan_escape_body. Qed.

Lemma str_app_nil_r (a : string) : (a ++ "")%string = a.
Proof. induction a as [|x a IH]; [done |]. by rewrite str_app_cons, IH. Qed.

Lemma parse_more_items_dump (xs : list json) :
  Forall reads_back xs →
  ∀ (lvl level : nat) (rest : string) (fuel : nat),
    String.length (Json.more_items lvl xs) + 1 <= fuel →
    Json.parse_more_items fuel
      (Json.more_items lvl xs ++ Json.nl level ++ "]" ++ rest) = Some (xs, rest).
Proof.
  induction 1 as [|y ys Hy _ IH]; intros lvl level rest fuel Hfuel.
  - destruct fuel as [|f]; [simpl in Hfuel; lia |].
    rewrite str_app_nil.
    rewrite (parse_more_items_ws _ _ ("]" ++ rest)) by apply skip_ws_nl.
    reflexivity.
  - destruct fuel as [|f]; [lia |].
    simpl Json.more_items in *.
    rewrite !str_length_app in Hfuel. simpl in Hfuel.
    pose proof (nl_length lvl).
    rewrite !str_app_assoc. rewrite str_app_cons, str_app_nil.
    cbn [Json.parse_more_items]. rewrite skip_ws_head by done.
    change (Ascii.eqb "," "]") with false. change (Ascii.eqb "," ",") with true. cbv iota.
    rewrite (parse_value_ws _ _ _ (skip_ws_nl _ _)).
    rewrite Hy by lia. rewrite IH by lia. done.
Qed.

Lemma parse_member_dump (k : string) (v : json) :
  reads_back v →
  ∀ (lvl : nat) (rest : string) (fuel : nat),
    String.length (Json.dump lvl v) + 1 <= fuel →
    Json.parse_member fuel
      (Json.nl lvl ++ Json.dump_string k ++ ": " ++ Json.dump lvl v ++ rest)
    = Some ((k, v), rest).
Proof.
  intros Hv lvl rest fuel Hfuel.
  destruct fuel as [|f]; [lia |].
  rewrite (parse_member_ws _ _ _ (skip_ws_nl _ _)).
  unfold Json.dump_string. rewrite str_app_cons.
  cbn [Json.parse_member]. rewrite skip_ws_head by done.
  rewrite Ascii.eqb_refl.
  rewrite str_app_assoc, str_app_cons, str_app_nil, scan_escape_body.
  rewrite !str_app_cons, str_app_nil.
  rewrite skip_ws_head by done.
  change (Ascii.eqb ":" ":") with true. cbv iota.
  rewrite (parse_value_ws _ (String " " (Json.dump lvl v ++ rest)) (Json.dump lvl v ++ rest)).
  - by rewrite Hv by lia.
  - unfold Json.skip_ws. done.
Qed.

Lemma parse_more_members_dump (ms : list (string * json)) :
  Forall (fun kv => reads_back (snd kv)) ms →
  ∀ (lvl level : nat) (rest : string) (fuel : nat),
    String.length (Json.more_members lvl ms) + 1 <= fuel →
    Json.parse_more_members fuel
      (Json.more_members lvl ms ++ Json.nl level ++ "}" ++ rest) = Some (ms, rest).
Proof.
  induction 1 as [|[k v] ms Hv _ IH]; intros lvl level rest fuel Hfuel.
  - destruct fuel as [|f]; [simpl in Hfuel; lia |].
    rewrite str_app_nil.
    rewrite (parse_more_members_ws _ _ ("}" ++ rest)) by apply skip_ws_nl.
    reflexivity.
  - destruct fuel as [|f]; [lia |].
    simpl Json.more_members in *. simpl in Hv.
    rewrite !str_length_app in Hfuel. simpl in Hfuel.
    pose proof (nl_length lvl). pose proof (dump_string_length k).
    rewrite !str_app_assoc. rewrite str_app_cons, str_app_nil.
    cbn [Json.parse_more_members]. rewrite skip_ws_head by done.
    change (Ascii.eqb "," "}") with false. change (Ascii.eqb "," ",") with true. cbv iota.
    rewrite <- (str_app_assoc ": "), <- !str_app_assoc.
    rewrite (str_app_assoc _ (Json.more_members lvl ms)).
    rewrite !str_app_assoc.
    rewrite (parse_member_dump k v Hv) by lia.
    rewrite IH by lia. done.
Qed.

Lemma parse_dump (j : json) : reads_back j.
Proof.
  induction j as [s|b|items Hitems|members Hmembers] using json_nested_ind;
    intros level rest fuel Hfuel.
  - destruct fuel as [|f]; [pose proof (dump_string_length s); simpl in *; lia |].
    simpl Json.dump. unfold Json.dump_string. rewrite str_app_cons.
    cbn [Json.parse_value]. rewrite skip_ws_head by done.
    rewrite Ascii.eqb_refl. by rewrite str_app_assoc, str_app_cons, str_app_nil, scan_escape_body.
  - destruct fuel as [|f]; [destruct b; simpl in Hfuel; lia |].
    by destruct b.
  - destruct items as [|x xs].
    + destruct fuel as [|f]; [simpl in Hfuel; lia | done].
    + apply Forall_cons in Hitems as [Hx Hxs].
      rewrite dump_arr_cons in *.
      rewrite !str_length_app in Hfuel. simpl in Hfuel.
      pose proof (nl_length (S level)). pose proof (nl_length level).
      destruct fuel as [|f]; [lia |].
      rewrite !str_app_assoc. rewrite str_app_cons, str_app_nil.
      cbn [Json.parse_value]. rewrite skip_ws_head by done.
      change (Ascii.eqb "[" Json.dquote) with false.
      change (Ascii.eqb "[" "t") with false. change (Ascii.eqb "[" "f") with false.
      change (Ascii.eqb "[" "[") with true. cbv iota.
      rewrite skip_ws_nl.
      destruct (dump_head (S level) x
                  (Json.more_items (S level) xs ++ Json.nl level ++ "]" ++ rest))
        as (c & t & E & Hc & Hc1 & _).
      rewrite E, skip_ws_head, Hc1 by done. rewrite <- E.
      rewrite (parse_value_ws _ _ _ (skip_ws_nl _ _)).
      rewrite Hx by lia.
      by rewrite (parse_more_items_dump xs Hxs) by lia.
  - destruct members as [|[k v] ms].
    + destruct fuel as [|f]; [simpl in Hfuel; lia | done].
    + apply Forall_cons in Hmembers as [Hv Hms]. simpl in Hv.
      rewrite dump_obj_cons in *.
      rewrite !str_length_app in Hfuel. simpl in Hfuel.
      pose proof (nl_length (S level)). pose proof (nl_length level).
      pose proof (dump_string_length k).
      destruct fuel as [|f]; [lia |].
      rewrite !str_app_assoc. rewrite str_app_cons, str_app_nil.
      cbn [Json.parse_value]. rewrite skip_ws_head by done.
      change (Ascii.eqb "{" Json.dquote) with false.
      change (Ascii.eqb "{" "t") with false. change (Ascii.eqb "{" "f") with false.
      change (Ascii.eqb "{" "[") with false. change (Ascii.eqb "{" "{") with true. cbv iota.
      rewrite skip_ws_nl.
      unfold Json.dump_string at 1. rewrite str_app_cons.
      rewrite skip_ws_head by done.
      change (Ascii.eqb Json.dquote "}") with false. cbv iota.
      fold (Json.dump_string k).
      rewrite (parse_member_dump k v Hv) by lia.
      by rewrite (parse_more_members_dump ms Hms) by lia.
Qed.

(** [json.loads(json.dumps(data, indent=2))] is [data]. *)
Lemma loads_dumps (j : json) : Json.loads (Json.dumps j) = Some j.
Proof.
  unfold Json.loads, Json.dumps.
  pose proof (parse_dump j 0 "" (S (String.length (Json.dump 0 j)))) as H.
  rewrite str_app_nil_r in H. rewrite H by lia. done.
Qed.

(** ** Claim on the cache *)

Lemma read_list_map {A} (f : json → option A) (g : A → json) (l : list A) :
  (∀ x, f (g x) = Some x) → CacheReader.read_list f (map g l) = Some l.
Proof.
  intros H. induction l as [|x l IH]; simpl; [done | by rewrite H, IH].
Qed.

Lemma read_members_map {V} (f : json → option V) (g : V → json) (l : list (string * V)) :
  (∀ x, f (g x) = Some x) →
  CacheReader.read_members f (map (fun '(k, v) => (k, g v)) l) = Some l.
Proof.
  intros H. induction l as [|[k v] l IH]; simpl; [done | by rewrite H, IH].
Qed.

Lemma read_column_doc (c : ColumnInfo) : CacheReader.read_column (column_doc c) = Some c.
Proof. by destruct c. Qed.

Lemma read_row_doc (row : list string) :
  CacheReader.read_row (JArr (map JStr row)) = Some row.
Proof. simpl. by apply read_list_map. Qed.

Lemma read_table_doc (info : TableInfo) : CacheReader.read_table (table_doc info) = Some info.
Proof.
  destruct info as [cols rows]. unfold CacheReader.read_table, table_doc. simpl.
  rewrite (read_list_map _ column_doc cols read_column_doc).
  by rewrite (read_list_map _ (fun row => JArr (map JStr row)) rows read_row_doc).
Qed.

Lemma read_guide_doc (g : GuideInfo) : CacheReader.read_guide (guide_doc g) = Some g.
Proof. by destruct g. Qed.

Lemma read_tables_doc (tables : list (string * TableInfo)) :
  CacheReader.read_tables (JObj (map (fun '(table, info) => (table, table_doc info)) tables))
  = Some tables.
Proof. simpl. by apply read_members_map, read_table_doc. Qed.

(** C9. For every index, the cache document has the two top-level keys
    [schemas] and [guides], and re-parsing the text written to the cache
    file gives the index itself: the same schemas and tables in the same
    order, the same column names, types and nullability flags, the same
    sample-row cells, the same guide files and contents. *)
Theorem cache_round_trip (index : AgentIndex) :
  (∃ ss gs : list (string * json),
     cache_data index = JObj [("schemas", JObj ss); ("guides", JObj gs)])
  ∧ CacheReader.read_cache (cache_data index) = Some index
  ∧ read_cache_text (_save_cache index) = Some index.
Proof.
  assert (CacheReader.read_cache (cache_data index) = Some index) as Hread.
  { destruct index as [ss gs]. unfold CacheReader.read_cache, cache_data. simpl.
    rewrite (read_members_map CacheReader.read_tables
               (fun tables => JObj (map (fun '(table, info) => (table, table_doc info)) tables))
               ss read_tables_doc).
    by rewrite (read_members_map _ guide_doc gs read_guide_doc). }
  split; [by eexists _, _ |]. split; [done |].
  unfold read_cache_text, _save_cache. by rewrite loads_dumps.
Qed.

Example cache_text_of_sample :
  _save_cache creditcard_only
  = PyStr.join newline
      ["{"; "  " ++ String Json.dquote "schemas" ++ String Json.dquote ": {";
       "    " ++ String Json.dquote "creditcard" ++ String Json.dquote ": {}";
       "  },";
       "  " ++ String Json.dquote "guides" ++ String Json.dquote ": {}";
       "}"]%string.
Proof. vm_compute. reflexivity. Qed.

(** * Further properties *)

(** ** Dictionaries filled by a loop *)

Lemma dict_get_Some_in {V} (k : string) (v : V) (d : list (string * V)) :
  Dict.get k d = Some v → In k (Dict.keys d).
Proof.
  intros H. destruct (dict_get_None_not_in k d) as [_ Hn].
  destruct (in_dec String.string_dec k (Dict.keys d)) as [Hin | Hout]; [done |].
  rewrite (Hn Hout) in H. discriminate H.
Qed.

Lemma dict_in_get_Some {V} (k : string) (d : list (string * V)) :
  In k (Dict.keys d) → ∃ v, Dict.get k d = Some v.
Proof.
  intros Hin. destruct (Dict.get k d) as [v|] eqn:E; [by exists v |].
  by apply dict_get_None_not_in in E.
Qed.

Lemma dict_keys_set {V} (k x : string) (v : V) (d : list (string * V)) :
  In x (Dict.keys (Dict.set k v d)) ↔ x = k ∨ In x (Dict.keys d).
Proof.
  induction d as [|[k' v'] d IH]; simpl; [intuition congruence |].
  destruct (String.eqb_spec k k') as [-> | Hk]; simpl; [intuition congruence |].
  rewrite IH. intuition congruence.
Qed.

Lemma dict_set_NoDup {V} (k : string) (v : V) (d : list (string * V)) :
  List.NoDup (Dict.keys d) → List.NoDup (Dict.keys (Dict.set k v d)).
Proof.
  induction d as [|[k' v'] d IH]; simpl.
  - intros _. constructor; [by intros [] | constructor].
  - intros Hnd. apply NoDup_cons_iff in Hnd as [Hk' Hnd].
    destruct (String.eqb_spec k k') as [-> | Hk]; simpl.
    + by constructor.
    + constructor; [| by apply IH].
      intros Hin. apply dict_keys_set in Hin as [E | Hin]; [congruence | done].
Qed.

Section FoldSet.

Context {A V : Type} (g : A → V).

(** The loop [for (k, a) in l: d[k] = g(a)], starting from [acc]. *)
Let fill (l : list (string * A)) (acc : list (string * V)) : list (string * V) :=
  fold_left (fun acc '(k, a) => Dict.set k (g a) acc) l acc.

Lemma fold_set_get_other (l : list (string * A)) (acc : list (string * V)) (k : string) :
  ¬ In k (map fst l) → Dict.get k (fill l acc) = Dict.get k acc.
Proof.
  revert acc. induction l as [|[k' a] l IH]; intros acc Hk; [done |].
  simpl in *. unfold fill in *. simpl. rewrite IH by tauto.
  rewrite dict_get_set. destruct (String.eqb_spec k k') as [-> | Hne]; [tauto | done].
Qed.

Lemma fold_set_get_last (l1 l2 : list (string * A)) (acc : list (string * V))
      (k : string) (a : A) :
  ¬ In k (map fst l2) → Dict.get k (fill (l1 ++ (k, a) :: l2) acc) = Some (g a).
Proof.
  intros Hk. unfold fill. rewrite fold_left_app. simpl.
  fold (fill l2 (Dict.set k (g a) (fold_left (fun acc '(k, a) => Dict.set k (g a) acc) l1 acc))).
  rewrite fold_set_get_other by done.
  by rewrite dict_get_set, String.eqb_refl.
Qed.

Lemma fold_set_get_origin (l : list (string * A)) (acc : list (string * V))
      (k : string) (v : V) :
  Dict.get k (fill l acc) = Some v →
  Dict.get k acc = Some v ∨ ∃ a, In (k, a) l ∧ v = g a.
Proof.
  revert acc. induction l as [|[k' a] l IH]; intros acc H; [by left |].
  unfold fill in *. simpl in H. apply IH in H as [H | (a' & Hin & ->)].
  - rewrite dict_get_set in H.
    destruct (String.eqb_spec k k') as [-> | Hne]; [| by left].
    injection H as <-. right. exists a. split; [by left | done].
  - right. exists a'. split; [by right | done].
Qed.

Lemma fold_set_keys (l : list (string * A)) (acc : list (string * V)) (x : string) :
  In x (Dict.keys (fill l acc)) ↔ In x (Dict.keys acc) ∨ In x (map fst l).
Proof.
  revert acc. induction l as [|[k a] l IH]; intros acc; [simpl; tauto |].
  unfold fill in *. simpl. rewrite IH, dict_keys_set. intuition congruence.
Qed.

Lemma fold_set_NoDup (l : list (string * A)) (acc : list (string * V)) :
  List.NoDup (Dict.keys acc) → List.NoDup (Dict.keys (fill l acc)).
Proof.
  revert acc. induction l as [|[k a] l IH]; intros acc Hnd; [done |].
  unfold fill in *. simpl. apply IH. by apply dict_set_NoDup.
Qed.

End FoldSet.

(** ** What the catalog scan leaves in the index *)

Lemma build_schemas (db : Catalog) (guides_dir : option (list GuidePath)) :
  schemas (fst (build db guides_dir))
  = fold_left (fun acc '(schema_name, table_rows) =>
                 Dict.set schema_name (scan_tables table_rows) acc) db [].
Proof. unfold build. cbn [fst]. by destruct guides_dir. Qed.

Lemma build_guides (db : Catalog) (paths : list GuidePath) :
  guides (fst (build db (Some paths)))
  = fold_left (scan_guide (schema_names_lower (fst (build db (Some paths))))) paths [].
Proof. unfold build. cbn [fst]. done. Qed.

Lemma build_table_origin (db : Catalog) (guides_dir : option (list GuidePath))
      (schema table : string) (info : TableInfo) :
  get_table_info (fst (build db guides_dir)) schema table = Some info →
  ∃ table_rows f, In (schema, table_rows) db ∧ In (table, f) table_rows
                  ∧ info = scan_table f.
Proof.
  unfold get_table_info. rewrite build_schemas.
  destruct (Dict.get schema _) as [tables|] eqn:Es; [| done].
  intros Ht.
  apply (fold_set_get_origin scan_tables) in Es as [Es | (table_rows & Hin & ->)];
    [done |].
  apply (fold_set_get_origin scan_table) in Ht as [Ht | (f & Hf & ->)]; [done |].
  by exists table_rows, f.
Qed.

(** X1. Whatever the catalog holds, every table of a built index has at most
    [SAMPLE_ROWS] (3) sample rows, and its sample rows are the first rows
    of the table in the order the sample query returned them, or none when
    that query raised. *)
Theorem build_samples_bounded
        (db : Catalog) (guides_dir : option (list GuidePath))
        (schema table : string) (info : TableInfo) :
  get_table_info (fst (build db guides_dir)) schema table = Some info →
  length (sample_rows info) <= SAMPLE_ROWS
  ∧ ∃ table_rows f,
      In (schema, table_rows) db ∧ In (table, f) table_rows
      ∧ sample_rows info
        = match table_data f with
          | Some data => firstn SAMPLE_ROWS data
          | None => []
          end.
Proof.
  intros H. apply build_table_origin in H as (table_rows & f & Hs & Ht & ->).
  split.
  - simpl. destruct (table_data f); [apply firstn_le_length | simpl; lia].
  - by exists table_rows, f.
Qed.

Lemma build_samples_bounded_witness :
  length (sample_rows wide_table) <= SAMPLE_ROWS
  ∧ ∃ table_rows f,
      In ("financial", table_rows) [("financial", [("wide", wide_facts)])]
      ∧ In ("wide", f) table_rows
      ∧ sample_rows wide_table
        = match table_data f with
          | Some data => firstn SAMPLE_ROWS data
          | None => []
          end.
Proof.
  apply (build_samples_bounded [("financial", [("wide", wide_facts)])] None
                               "financial" "wide" wide_table).
  reflexivity.
Defined.

(** X2. The index holds for each schema and table name the scan of the last
    catalog row with that name: the columns in catalog order, a column
    nullable exactly when the catalog says [YES], and the first three rows
    of the table as sample, none when the sample query raised. *)
Theorem build_lookup_scans_last_row
        (db d1 d2 : Catalog) (guides_dir : option (list GuidePath))
        (schema table : string) (table_rows t1 t2 : list (string * TableFacts))
        (f : TableFacts) :
  db = d1 ++ (schema, table_rows) :: d2 → ¬ In schema (map fst d2) →
  table_rows = t1 ++ (table, f) :: t2 → ¬ In table (map fst t2) →
  get_table_info (fst (build db guides_dir)) schema table
  = Some {| columns :=
              map (fun '(cn, dt, nu) =>
                     {| name := cn; type := dt; nullable := String.eqb nu "YES" |})
                  (col_rows f);
            sample_rows :=
              match table_data f with
              | Some data => firstn 3 data
              | None => []
              end |}.
Proof.
  intros -> Hs -> Ht. unfold get_table_info. rewrite build_schemas.
  rewrite (fold_set_get_last scan_tables) by done.
  unfold scan_tables. by rewrite (fold_set_get_last scan_table) by done.
Qed.

Lemma build_lookup_scans_last_row_witness :
  get_table_info (fst (build sample_catalog None)) "financial" "loan"
  = Some {| columns :=
              map (fun '(cn, dt, nu) =>
                     {| name := cn; type := dt; nullable := String.eqb nu "YES" |})
                  (col_rows loan_facts);
            sample_rows :=
              match table_data loan_facts with
              | Some data => firstn 3 data
              | None => []
              end |}.
Proof.
  apply (build_lookup_scans_last_row
           sample_catalog [] [("hr", [("staff", account_facts)]); ("views_only", [])]
           None "financial" "loan"
           [("account", account_facts); ("loan", loan_facts)]
           [("account", account_facts)] [] loan_facts).
  - reflexivity.
  - simpl. intros [H | [H | H]]; [discriminate H | discriminate H | done].
  - reflexivity.
  - simpl. tauto.
Defined.

Lemma sorted_in (l : list string) (x : string) : In x (PyStr.sorted l) ↔ In x l.
Proof.
  unfold PyStr.sorted. split; apply Permutation_in.
  - apply merge_sort_Permutation.
  - symmetry. apply merge_sort_Permutation.
Qed.

Lemma sorted_NoDup (l : list string) : List.NoDup l → List.NoDup (PyStr.sorted l).
Proof.
  intros H. eapply Permutation_NoDup; [| exact H].
  symmetry. apply merge_sort_Permutation.
Qed.

Lemma sorted_Sorted (l : list string) : Sorted String.le (PyStr.sorted l).
Proof. apply Sorted_merge_sort. apply _. Qed.

Lemma build_guides_NoDup (db : Catalog) (guides_dir : option (list GuidePath)) :
  List.NoDup (Dict.keys (guides (fst (build db guides_dir)))).
Proof.
  destruct guides_dir as [paths|]; [| constructor].
  rewrite build_guides.
  generalize (schema_names_lower (fst (build db (Some paths)))). intros known.
  assert (∀ gs, List.NoDup (Dict.keys gs) →
                List.NoDup (Dict.keys (fold_left (scan_guide known) paths gs))) as H.
  { induction paths as [|gp paths IH]; intros gs Hgs; [done |].
    simpl. apply IH. unfold scan_guide.
    destruct (guide_schema known gp); [by apply dict_set_NoDup | done]. }
  apply H. constructor.
Qed.

(** X3. After every build the schema listing holds exactly the schema names
    of the catalog, each once and in ascending order, however often and in
    whatever order the catalog names them; no table name is stored twice
    under a schema and no schema has two guides. *)
Theorem build_names_unique_sorted (db : Catalog) (guides_dir : option (list GuidePath)) :
  let index := fst (build db guides_dir) in
  (∀ s, In s (get_schema_list index) ↔ In s (map fst db))
  ∧ List.NoDup (get_schema_list index)
  ∧ Sorted String.le (get_schema_list index)
  ∧ (∀ s, List.NoDup (get_tables index s) ∧ Sorted String.le (get_tables index s))
  ∧ List.NoDup (get_all_guide_topics index)
  ∧ Sorted String.le (get_all_guide_topics index).
Proof.
  intros index.
  assert (List.NoDup (Dict.keys (schemas index))) as Hnd.
  { unfold index. rewrite build_schemas.
    apply (fold_set_NoDup scan_tables). constructor. }
  split; [| split; [| split; [| split; [| split]]]].
  - intros s. unfold get_schema_list. rewrite sorted_in.
    unfold index. rewrite build_schemas, (fold_set_keys scan_tables). simpl. tauto.
  - by apply sorted_NoDup.
  - apply sorted_Sorted.
  - intros s. unfold get_tables.
    destruct (Dict.get s (schemas index)) as [tables|] eqn:Es;
      [| split; constructor].
    split; [| apply sorted_Sorted].
    apply sorted_NoDup.
    unfold index in Es. rewrite build_schemas in Es.
    apply (fold_set_get_origin scan_tables) in Es as [Es | (table_rows & _ & ->)];
      [done |].
    apply (fold_set_NoDup scan_table). constructor.
  - apply sorted_NoDup, build_guides_NoDup.
  - apply sorted_Sorted.
Qed.

(** ** Listings and lookups *)

Lemma get_Some_iff_in {V} (k : string) (d : list (string * V)) :
  (∃ v, Dict.get k d = Some v) ↔ In k (Dict.keys d).
Proof.
  split; [intros [v H]; by apply dict_get_Some_in in H | apply dict_in_get_Some].
Qed.

Lemma description_is_not_not_found (schema table : string) (info : TableInfo) (m : Z) :
  PyStr.join newline (description_lines schema table info m) ≠ table_not_found schema table.
Proof.
  unfold description_lines.
  set (cols := map column_line (PyStr.slice_to m (columns info))).
  assert (∀ extra : list string,
            PyStr.join newline
              (([table_header_line schema table (length (columns info)); ""; "Columns:"]
                ++ cols) ++ extra)
            ≠ table_not_found schema table) as H.
  { intros extra. simpl. discriminate. }
  destruct (Z.of_nat (length (columns info)) >? m)%Z.
  - destruct (sample_rows info); simpl negb; cbv iota; apply H.
  - destruct (sample_rows info); simpl negb; cbv iota.
    + rewrite <- (app_nil_r (_ ++ cols)). apply H.
    + rewrite <- app_assoc. apply H.
Qed.

(** X4. The accessors agree with each other: a schema is in the schema
    listing exactly when the index has it, a table is in the table listing
    of a schema exactly when [get_table_info] finds it, and
    [get_table_description] gives its not-found text exactly for the tables
    that the table listing of the schema does not show. *)
Theorem listed_iff_found (index : AgentIndex) (schema table : string) (max_columns : Z) :
  (In schema (get_schema_list index)
   ↔ ∃ tables, Dict.get schema (schemas index) = Some tables)
  ∧ (In table (get_tables index schema)
     ↔ ∃ info, get_table_info index schema table = Some info)
  ∧ (get_table_description index schema table max_columns = table_not_found schema table
     ↔ ¬ In table (get_tables index schema))
  ∧ ((∃ info, get_table_info index schema table = Some info)
     → In schema (get_schema_list index)).
Proof.
  assert (In table (get_tables index schema)
          ↔ ∃ info, get_table_info index schema table = Some info) as Htab.
  { unfold get_tables, get_table_info.
    destruct (Dict.get schema (schemas index)) as [tables|].
    - by rewrite sorted_in, get_Some_iff_in.
    - simpl. split; [done | by intros [info H]]. }
  split; [| split; [done | split]].
  - unfold get_schema_list. by rewrite sorted_in, get_Some_iff_in.
  - rewrite Htab. unfold get_table_description.
    destruct (get_table_info index schema table) as [info|].
    + split.
      * intros H. by apply description_is_not_not_found in H.
      * intros H. exfalso. apply H. by exists info.
    + split; [by intros _ [info H] | done].
  - intros [info H]. unfold get_schema_list, get_table_info in *.
    rewrite sorted_in. apply get_Some_iff_in.
    destruct (Dict.get schema (schemas index)) as [tables|]; [by exists tables | done].
Qed.

(** ** The schema overview *)

Lemma in_topics_In (guided : list string) (s : string) :
  in_topics guided s = true ↔ In s guided.
Proof.
  unfold in_topics. rewrite existsb_exists. split.
  - intros (x & Hin & E). apply String.eqb_eq in E. by subst.
  - intros Hin. exists s. split; [done | apply String.eqb_refl].
Qed.

Lemma filter_partition_perm {A} (p : A → bool) (l : list A) :
  List.filter p l ++ List.filter (fun x => negb (p x)) l ≡ₚ l.
Proof.
  induction l as [|x l IH]; simpl; [done |].
  destruct (p x); simpl.
  - by constructor.
  - rewrite <- Permutation_middle. by constructor.
Qed.

Lemma guide_topic_iff_rules (index : AgentIndex) (s : string) :
  In s (get_all_guide_topics index) ↔ ∃ text, get_business_rules index s = Some text.
Proof.
  unfold get_all_guide_topics, get_business_rules.
  rewrite sorted_in, <- get_Some_iff_in. split.
  - intros [g ->]. by exists (content g).
  - intros [text H]. destruct (Dict.get s (guides index)) as [g|]; [by exists g | done].
Qed.

Lemma StronglySorted_filter {A} (R : relation A) (p : A → bool) (l : list A) :
  StronglySorted R l → StronglySorted R (List.filter p l).
Proof.
  induction 1 as [|x l Hl IH Hx]; simpl; [constructor |].
  destruct (p x); [| done]. constructor; [done |].
  rewrite List.Forall_forall in *. intros y Hy.
  apply Hx. by apply filter_In in Hy as [Hy _].
Qed.

Lemma sorted_filter_Sorted (p : string → bool) (l : list string) :
  Sorted String.le (List.filter p (PyStr.sorted l)).
Proof.
  apply StronglySorted_Sorted, StronglySorted_filter.
  apply Sorted_StronglySorted; [apply _ | apply sorted_Sorted].
Qed.

(** X5. The first [list_schemas] answer shows every schema of the index
    exactly where it belongs: the schemas with a guide, each on a line of
    its own with its tables, then on one line the schemas without a guide;
    the two groups together are the schema listing, each group in ascending
    order, and a schema is in the first group exactly when
    [get_business_rules] has a text for it. *)
Theorem schemas_listing_partition (index : AgentIndex) :
  let all_schemas := get_schema_list index in
  let guided := List.filter (in_topics (get_all_guide_topics index)) all_schemas in
  let other :=
    List.filter (fun s => negb (in_topics (get_all_guide_topics index) s)) all_schemas in
  schemas_listing index
  = PyStr.join newline
      (["Available schemas and their tables:"; "";
        "Schemas with business rules guides (most likely relevant):"]
       ++ map (fun s => ("  - " ++ s ++ ": "
                         ++ PyStr.join ", " (get_tables index s))%string) guided
       ++ [""; ("Other schemas (no guide): " ++ PyStr.join ", " other)%string])
  ∧ guided ++ other ≡ₚ all_schemas
  ∧ Sorted String.le guided ∧ Sorted String.le other
  ∧ (∀ s, In s guided
          ↔ In s all_schemas ∧ ∃ text, get_business_rules index s = Some text)
  ∧ (∀ s, In s other ↔ In s all_schemas ∧ get_business_rules index s = None).
Proof.
  intros all_schemas guided other.
  split; [| split; [| split; [| split; [| split]]]].
  - unfold schemas_listing. fold all_schemas guided other.
    by rewrite <- !app_assoc.
  - apply filter_partition_perm.
  - apply sorted_filter_Sorted.
  - apply sorted_filter_Sorted.
  - intros s. unfold guided. rewrite filter_In, in_topics_In, guide_topic_iff_rules.
    tauto.
  - intros s. unfold other. rewrite filter_In, negb_true_iff.
    split; intros [Hin H]; (split; [done |]).
    + destruct (get_business_rules index s) as [text|] eqn:E; [| done].
      assert (in_topics (get_all_guide_topics index) s = true) as Ht.
      { apply in_topics_In, guide_topic_iff_rules. by exists text. }
      congruence.
    + apply not_true_is_false. intros Ht.
      apply in_topics_In, guide_topic_iff_rules in Ht as [text Ht]. congruence.
Qed.

(** X6. After every build the schemas that [list_schemas] shows as having a
    guide are exactly the guide topics, in the same order: no guide of a
    built index is left out of the overview. *)
Theorem built_guided_are_topics (db : Catalog) (guides_dir : option (list GuidePath)) :
  let index := fst (build db guides_dir) in
  List.filter (in_topics (get_all_guide_topics index)) (get_schema_list index)
  = get_all_guide_topics index.
Proof.
  intros index.
  apply (Sorted_unique String.le).
  - apply sorted_filter_Sorted.
  - apply sorted_Sorted.
  - apply NoDup_Permutation.
    + apply NoDup_ListNoDup, List.NoDup_filter, sorted_NoDup.
      unfold index. rewrite build_schemas.
      apply (fold_set_NoDup scan_tables). constructor.
    + apply NoDup_ListNoDup, sorted_NoDup, build_guides_NoDup.
    + intros s. rewrite !list_elem_of_In, filter_In, in_topics_In.
      split; [tauto |]. intros Hs. split; [| done].
      unfold get_all_guide_topics, get_schema_list in *. rewrite sorted_in in *.
      apply dict_in_get_Some in Hs as [g Hg].
      apply build_guide_origin in Hg as (paths & gp & _ & _ & Hm & _).
      apply guide_schema_in in Hm as [x Hx].
      by apply known_lower_Some in Hx as [Hx _].
Qed.

(** ** The lowercase lookup *)

(** X7. The lowercase lookup that the guide matcher works with answers a
    lowercased name with the last schema of the mapping that has this
    lowercase, and has no other entries: of schema names that differ only
    in case, the one inserted last hides the others. *)
Theorem lowercase_lookup_last_wins (index : AgentIndex) (x s : string) :
  Dict.get x (schema_names_lower index) = Some s
  ↔ PyStr.lower s = x
    ∧ ∃ l1 l2 : list string,
        Dict.keys (schemas index) = l1 ++ s :: l2
        ∧ ∀ s', In s' l2 → PyStr.lower s' ≠ PyStr.lower s.
Proof.
  unfold schema_names_lower. split.
  - intros H. apply lower_lookup_split in H as [(l1 & l2 & E & <- & Hl2) | [H _]].
    + split; [done |]. by exists l1, l2.
    + discriminate H.
  - intros [<- (l1 & l2 & -> & Hl2)]. by apply lower_lookup_last.
Qed.

(** ** Which file a schema's guide comes from *)

Lemma scan_guide_get_other (known : list (string * string)) (gs : list (string * GuideInfo))
      (gp : GuidePath) (k : string) :
  guide_schema known gp ≠ Some k →
  Dict.get k (scan_guide known gs gp) = Dict.get k gs.
Proof.
  intros H. unfold scan_guide. destruct (guide_schema known gp) as [k'|]; [| done].
  rewrite dict_get_set. destruct (String.eqb_spec k k') as [-> | Hk]; [done | done].
Qed.

Lemma scan_guides_get_other (known : list (string * string)) (paths : list GuidePath)
      (gs : list (string * GuideInfo)) (k : string) :
  (∀ gp, In gp paths → guide_schema known gp ≠ Some k) →
  Dict.get k (fold_left (scan_guide known) paths gs) = Dict.get k gs.
Proof.
  revert gs. induction paths as [|gp paths IH]; intros gs H; simpl; [done |].
  rewrite IH by (intros gp' Hin; apply H; by right).
  apply scan_guide_get_other, H. by left.
Qed.

Lemma scan_guides_last (known : list (string * string)) (l1 l2 : list GuidePath)
      (gp : GuidePath) (gs : list (string * GuideInfo)) (k : string) :
  guide_schema known gp = Some k →
  (∀ gp', In gp' l2 → guide_schema known gp' ≠ Some k) →
  Dict.get k (fold_left (scan_guide known) (l1 ++ gp :: l2) gs) = Some (guide_info gp).
Proof.
  intros Hk Hl2. rewrite fold_left_app. simpl.
  rewrite scan_guides_get_other by done.
  unfold scan_guide. rewrite Hk. by rewrite dict_get_set, String.eqb_refl.
Qed.

(** X8. When several guide files are assigned to the same schema, the index
    keeps the one that comes last in the sorted directory listing: its
    file name and its text replace what an earlier file left, and
    [get_business_rules] answers with its text. *)
Theorem last_matching_guide_wins
        (db : Catalog) (paths l1 l2 : list GuidePath) (gp : GuidePath) (k : string) :
  let index := fst (build db (Some paths)) in
  let known := schema_names_lower index in
  paths = l1 ++ gp :: l2 →
  guide_schema known gp = Some k →
  (∀ gp', In gp' l2 → guide_schema known gp' ≠ Some k) →
  Dict.get k (guides index) = Some {| file := path_name gp; content := read_text gp |}
  ∧ get_business_rules index k = Some (read_text gp).
Proof.
  intros index known -> Hk Hl2.
  assert (Dict.get k (guides index) = Some (guide_info gp)) as H.
  { unfold index. rewrite build_guides. by apply scan_guides_last. }
  split; [done |]. unfold get_business_rules. by rewrite H.
Qed.

Lemma last_matching_guide_wins_witness :
  let index := fst (build two_guides_catalog (Some [earlier_guide; later_guide])) in
  Dict.get "financial" (guides index)
  = Some {| file := path_name later_guide; content := read_text later_guide |}
  ∧ get_business_rules index "financial" = Some (read_text later_guide).
Proof.
  apply (last_matching_guide_wins two_guides_catalog [earlier_guide; later_guide]
                                  [earlier_guide] [] later_guide "financial").
  - reflexivity.
  - reflexivity.
  - intros gp' [].
Defined.

Lemma scan_guide_keeps (known : list (string * string)) (gs : list (string * GuideInfo))
      (gp : GuidePath) (k : string) :
  (∃ g, Dict.get k gs = Some g) → ∃ g, Dict.get k (scan_guide known gs gp) = Some g.
Proof.
  intros [g Hg]. unfold scan_guide. destruct (guide_schema known gp) as [k'|]; [| by exists g].
  rewrite dict_get_set. destruct (String.eqb k k'); [by eexists | by exists g].
Qed.

Lemma scan_guides_keeps (known : list (string * string)) (paths : list GuidePath)
      (gs : list (string * GuideInfo)) (k : string) :
  (∃ g, Dict.get k gs = Some g) →
  ∃ g, Dict.get k (fold_left (scan_guide known) paths gs) = Some g.
Proof.
  revert gs. induction paths as [|gp paths IH]; intros gs H; simpl; [done |].
  by apply IH, scan_guide_keeps.
Qed.

Lemma scan_guides_get_some (known : list (string * string)) (paths : list GuidePath)
      (gs : list (string * GuideInfo)) (gp : GuidePath) (k : string) :
  In gp paths → guide_schema known gp = Some k →
  ∃ g, Dict.get k (fold_left (scan_guide known) paths gs) = Some g.
Proof.
  revert gs. induction paths as [|a paths IH]; intros gs; simpl; [done |].
  intros [-> | Hin] Hk; [| by apply IH].
  apply scan_guides_keeps. exists (guide_info gp).
  unfold scan_guide. rewrite Hk. by rewrite dict_get_set, String.eqb_refl.
Qed.

(** X9. A built index has no guide for a schema exactly when no guide file
    is assigned to it, which is the case for every schema when the guide
    directory does not exist; a guide it has was read from one of the files
    assigned to the schema. *)
Theorem no_guide_iff_no_match
        (db : Catalog) (guides_dir : option (list GuidePath)) (k : string) :
  let index := fst (build db guides_dir) in
  let known := schema_names_lower index in
  (get_business_rules index k = None
   ↔ ∀ paths gp, guides_dir = Some paths → In gp paths → guide_schema known gp ≠ Some k)
  ∧ (∀ text, get_business_rules index k = Some text
             → ∃ paths gp, guides_dir = Some paths ∧ In gp paths
                           ∧ guide_schema known gp = Some k ∧ text = read_text gp).
Proof.
  intros index known. split.
  - split.
    + intros Hnone paths gp Hd Hin Hk. revert Hnone. unfold get_business_rules.
      assert (∃ g, Dict.get k (guides index) = Some g) as [g ->]; [| done].
      unfold known, index in *. rewrite Hd in *. rewrite build_guides.
      by apply (scan_guides_get_some _ paths [] gp).
    + intros H. unfold get_business_rules.
      destruct (Dict.get k (guides index)) as [g|] eqn:Eg; [| done].
      apply build_guide_origin in Eg as (paths & gp & Hd & Hin & Hk & _).
      exfalso. by apply (H paths gp).
  - intros text. unfold get_business_rules.
    destruct (Dict.get k (guides index)) as [g|] eqn:Eg; [| done].
    intros [= <-].
    apply build_guide_origin in Eg as (paths & gp & Hd & Hin & Hk & ->).
    by exists paths, gp.
Qed.

(** ** The [<word> Database] fallback *)

Lemma space_not_word (c : ascii) : PyStr.is_space c = true → PyStr.is_word c = false.
Proof.
  destruct c as [[] [] [] [] [] [] [] []]; vm_compute; intros H;
    first [discriminate H | reflexivity].
Qed.

Lemma span_by_spec (p : ascii → bool) (s a b : string) :
  span_by p s = (a, b) →
  s = (a ++ b)%string ∧ PyStr.all_chars p a = true ∧ (b = "" ∨ starts_outside p b).
Proof.
  revert a b. induction s as [|c s IH]; intros a b; simpl.
  - intros [= <- <-]. repeat split. by left.
  - destruct (p c) eqn:Ec.
    + destruct (span_by p s) as [a0 b0]. intros [= <- <-].
      destruct (IH a0 b0 eq_refl) as (-> & Ha & Hb).
      repeat split; [simpl; by rewrite Ec, Ha | done].
    + intros [= <- <-]. repeat split. by right.
Qed.

Lemma span_by_max (p : ascii → bool) (a b : string) :
  PyStr.all_chars p a = true → b = "" ∨ starts_outside p b →
  span_by p (a ++ b) = (a, b).
Proof.
  intros Ha Hb. induction a as [|c a IH].
  - rewrite str_app_nil. destruct b as [|x b]; [done |]. simpl.
    destruct Hb as [Hb | Hb]; [done |]. simpl in Hb. by rewrite Hb.
  - simpl in Ha. apply andb_prop in Ha as [Hc Ha].
    rewrite str_app_cons. simpl. by rewrite Hc, IH.
Qed.

Lemma starts_with_spec (pre s : string) :
  PyStr.starts_with pre s = true ↔ ∃ post, s = (pre ++ post)%string.
Proof.
  revert s. induction pre as [|a pre IH]; intros s; simpl.
  - split; [by exists s | done].
  - destruct s as [|b s]; [split; [done | by intros [post H]] |].
    destruct (Ascii.eqb_spec a b) as [-> | Hab].
    + rewrite IH. split; intros [post H]; exists post;
        [by rewrite H | rewrite str_app_cons in H; congruence].
    + split; [done | intros [post H]; rewrite str_app_cons in H; congruence].
Qed.

Lemma word_database_here_spec (s w : string) :
  word_database_here s = Some w ↔ word_database_at s "" w.
Proof.
  unfold word_database_here, word_database_at. split.
  - destruct (span_by PyStr.is_word s) as [w0 r] eqn:Ew.
    apply span_by_spec in Ew as (-> & Hw & _).
    destruct w0 as [|x w0]; [done |].
    destruct (span_by PyStr.is_space r) as [ws r'] eqn:Es.
    apply span_by_spec in Es as (-> & Hs & _).
    destruct ws as [|y ws]; [done |].
    destruct (PyStr.starts_with "Database" r') eqn:Ed; [| done].
    apply starts_with_spec in Ed as [post ->]. intros [= <-].
    by exists (String y ws), post.
  - intros (ws & post & -> & Hne & Hw & Hsne & Hs). rewrite str_app_nil.
    rewrite (span_by_max PyStr.is_word w).
    + destruct w as [|x w]; [done |].
      rewrite (span_by_max PyStr.is_space ws); [| done | by right].
      destruct ws as [|y ws]; [done |].
      assert (PyStr.starts_with "Database" ("Database" ++ post) = true) as ->; [| done].
      apply starts_with_spec. by exists post.
    + done.
    + right. destruct ws as [|y ws]; [done |]. simpl in *.
      apply andb_prop in Hs as [Hy _]. by apply space_not_word.
Qed.

Lemma word_database_at_cons (c : ascii) (s pre w : string) :
  word_database_at (String c s) (String c pre) w ↔ word_database_at s pre w.
Proof.
  unfold word_database_at. split; intros (ws & post & E & H); exists ws, post; (split; [| done]).
  - rewrite str_app_cons in E. congruence.
  - by rewrite str_app_cons, <- E.
Qed.

Lemma search_word_database_spec (title w : string) :
  search_word_database title = Some w
  ↔ ∃ pre, word_database_at title pre w
           ∧ ∀ pre' w', word_database_at title pre' w' →
                        String.length pre <= String.length pre'.
Proof.
  revert w. induction title as [|c s IH]; intros w.
  - simpl. split; [done |].
    intros (pre & (ws & post & E & _ & _ & Hws & _) & _).
    destruct pre; [| done]. destruct w; [| done]. by destruct ws.
  - cbn [search_word_database].
    destruct (word_database_here (String c s)) as [w0|] eqn:Eh.
    + apply word_database_here_spec in Eh. split.
      * intros [= <-]. exists "". split; [done |]. intros. simpl. lia.
      * intros (pre & Hat & Hleft).
        specialize (Hleft "" w0 Eh). destruct pre; [| simpl in Hleft; lia].
        apply word_database_here_spec in Eh, Hat. congruence.
    + rewrite IH. split.
      * intros (pre & Hat & Hleft). exists (String c pre).
        split; [by apply word_database_at_cons |].
        intros [|c' pre'] w' Hat'.
        -- apply word_database_here_spec in Hat'. congruence.
        -- assert (c' = c) as ->.
           { destruct Hat' as (ws & post & E & _). rewrite str_app_cons in E. congruence. }
           apply word_database_at_cons in Hat'. specialize (Hleft pre' w' Hat').
           simpl. lia.
      * intros ([|c' pre] & Hat & Hleft).
        -- apply word_database_here_spec in Hat. congruence.
        -- assert (c' = c) as ->.
           { destruct Hat as (ws & post & E & _). rewrite str_app_cons in E. congruence. }
           exists pre. split; [by apply word_database_at_cons in Hat |].
           intros pre' w' Hat'.
           assert (word_database_at (String c s) (String c pre') w') as Hat''
             by (by apply word_database_at_cons).
           specialize (Hleft _ _ Hat''). simpl in Hleft. lia.
Qed.

Lemma search_word_database_None (title : string) :
  search_word_database title = None → ∀ pre w, ¬ word_database_at title pre w.
Proof.
  induction title as [|c s IH]; intros Hnone pre w Hat.
  - destruct Hat as (ws & post & E & _ & _ & Hws & _).
    destruct pre; [| done]. destruct w; [| done]. by destruct ws.
  - cbn [search_word_database] in Hnone.
    destruct (word_database_here (String c s)) as [w0|] eqn:Eh; [done |].
    destruct pre as [|c' pre].
    + apply word_database_here_spec in Hat. congruence.
    + assert (c' = c) as ->.
      { destruct Hat as (ws & post & E & _). rewrite str_app_cons in E. congruence. }
      apply word_database_at_cons in Hat. by apply (IH Hnone pre w).
Qed.

Lemma search_paren_no_open (title : string) :
  PyStr.all_chars (fun c => negb (is_open_paren c)) title = true →
  search_paren title = None.
Proof.
  induction title as [|c s IH]; [done |]. simpl.
  intros H. apply andb_prop in H as [Hc Hs]. apply negb_true_iff in Hc.
  rewrite Hc. by apply IH.
Qed.

(** X10. The fallback of the title matcher: [<word> Database] is looked for
    at the leftmost place where a non-empty run of word characters is
    followed by whitespace and the literal, written in exactly this case;
    the place is never inside a word, and anything may follow the literal.
    Only the word of this leftmost place is tried: when the parenthesized
    rule found nothing, the title goes to the schema whose lowercased name
    is the lowercase of that word, and to no schema when there is none or
    when no place matches. *)
Theorem title_suffix_rule (known : list (string * string)) (title : string) :
  (∀ w, search_word_database title = Some w
        ↔ ∃ pre, word_database_at title pre w
                 ∧ ∀ pre' w', word_database_at title pre' w' →
                              String.length pre <= String.length pre')
  ∧ (search_word_database title = None ↔ ∀ pre w, ¬ word_database_at title pre w)
  ∧ (title_parenthetical title known = None →
     _extract_schema_from_title title known
     = match search_word_database title with
       | Some w => Dict.get (PyStr.lower w) known
       | None => None
       end).
Proof.
  split; [apply search_word_database_spec |]. split.
  - split.
    + apply search_word_database_None.
    + intros H. destruct (search_word_database title) as [w|] eqn:E; [| done].
      apply search_word_database_spec in E as (pre & Hat & _). by apply H in Hat.
  - intros Hp. unfold _extract_schema_from_title, title_suffix. by rewrite Hp.
Qed.

(** ** Titles of the shapes the matcher is written for *)

Lemma space_not_delimiter (c : ascii) :
  PyStr.is_space c = true → negb (is_close_paren c || is_slash_or_comma c) = true.
Proof.
  destruct c as [[] [] [] [] [] [] [] []]; vm_compute; intros H;
    first [discriminate H | reflexivity].
Qed.

Lemma all_chars_impl (p q : ascii → bool) (s : string) :
  (∀ c, p c = true → q c = true) →
  PyStr.all_chars p s = true → PyStr.all_chars q s = true.
Proof.
  intros Hpq. induction s as [|c s IH]; [done |]. simpl.
  intros H. apply andb_prop in H as [Hc Hs]. by rewrite (Hpq c Hc), IH.
Qed.

Lemma search_paren_first (pre inner post : string) :
  PyStr.all_chars (fun c => negb (is_open_paren c)) pre = true →
  inner ≠ "" →
  PyStr.all_chars (fun c => negb (is_close_paren c)) inner = true →
  search_paren (pre ++ String "(" (inner ++ String ")" post)) = Some inner.
Proof.
  intros Hpre Hne Hin. induction pre as [|c pre IH].
  - rewrite str_app_nil. simpl. rewrite until_close_app by done. by destruct inner.
  - simpl in Hpre. apply andb_prop in Hpre as [Hc Hpre]. apply negb_true_iff in Hc.
    rewrite str_app_cons. simpl. rewrite Hc. by apply IH.
Qed.

Lemma re_split_class_none (p : ascii → bool) (s : string) :
  PyStr.all_chars (fun c => negb (p c)) s = true → PyStr.re_split_class p s = [s].
Proof.
  induction s as [|c s IH]; [done |]. simpl.
  intros H. apply andb_prop in H as [Hc Hs]. apply negb_true_iff in Hc.
  by rewrite Hc, IH.
Qed.

(** X11. The first pattern of the matcher's docstring,
    [Title (SchemaName Database)]: when the title has no ["("] before the
    group, and the group is a name without [")"], ['/'] or [','], whitespace
    and [Database] or [Databases], the title goes to the schema whose name
    is the group's name up to case (the last one of the mapping, if several
    are); nothing after the group is looked at. *)
Theorem title_schema_database_pattern
        (index : AgentIndex) (pre core ws suffix post s : string) :
  let known := schema_names_lower index in
  let title := (pre ++ "(" ++ core ++ ws ++ suffix ++ ")" ++ post)%string in
  PyStr.all_chars (fun c => negb (is_open_paren c)) pre = true →
  PyStr.strip core = core → core ≠ "" →
  PyStr.all_chars (fun c => negb (is_close_paren c || is_slash_or_comma c)) core = true →
  ws ≠ "" → PyStr.all_chars PyStr.is_space ws = true →
  suffix = "Database" ∨ suffix = "Databases" →
  PyStr.lower core = PyStr.lower s → last_with_lower index s →
  _extract_schema_from_title title known = Some s.
Proof.
  intros known title Hpre Hstrip Hne Hcore Hws_ne Hws Hsuf Hlow Hlast.
  set (inner := (core ++ ws ++ suffix)%string).
  assert (PyStr.all_chars (fun c => negb (is_close_paren c || is_slash_or_comma c)) inner
          = true) as Hinner.
  { unfold inner. rewrite !all_chars_app, Hcore.
    rewrite (all_chars_impl PyStr.is_space _ ws space_not_delimiter Hws).
    by destruct Hsuf as [-> | ->]. }
  assert (title = (pre ++ String "(" (inner ++ String ")" post))%string) as Et.
  { unfold title, inner. by rewrite !str_app_assoc. }
  unfold _extract_schema_from_title, title_parenthetical.
  rewrite Et, search_paren_first; [| done | by destruct core |].
  - rewrite re_split_class_none.
    + simpl. unfold inner.
      pose proof (normalize_candidate_suffix "" core ws suffix ""
                    eq_refl eq_refl Hws Hws_ne Hstrip Hne Hsuf) as Hn.
      rewrite str_app_nil, str_app_nil_r in Hn. rewrite Hn, Hlow.
      assert (Dict.get (PyStr.lower s) known = Some s) as ->; [| done].
      by apply known_lower_last.
    + eapply all_chars_impl; [| exact Hinner].
      intros c Hc. apply negb_true_iff, orb_false_elim in Hc as [_ Hc]. by rewrite Hc.
  - eapply all_chars_impl; [| exact Hinner].
    intros c Hc. apply negb_true_iff, orb_false_elim in Hc as [Hc _]. by rewrite Hc.
Qed.

Lemma title_schema_database_pattern_witness :
  _extract_schema_from_title "New rules (Financial Database) v2"
                             (schema_names_lower financial_only)
  = Some "financial".
Proof.
  apply (title_schema_database_pattern financial_only
           "New rules " "Financial" " " "Database" " v2" "financial");
    try reflexivity.
  - discriminate.
  - discriminate.
  - by left.
  - exists [], []. split; [reflexivity | intros s' []].
Defined.

Lemma app_eq_shorter (pre' a pre b : string) :
  (pre' ++ a)%string = (pre ++ b)%string → String.length pre' < String.length pre →
  ∃ c rest, pre = (pre' ++ String c rest)%string ∧ a = String c (rest ++ b).
Proof.
  revert pre. induction pre' as [|x pre' IH]; intros pre E Hlen.
  - destruct pre as [|c rest]; [simpl in Hlen; lia |].
    exists c, rest. by rewrite str_app_nil, str_app_cons in E.
  - destruct pre as [|y pre]; [simpl in Hlen; lia |].
    rewrite !str_app_cons in E. injection E as -> E. simpl in Hlen.
    destruct (IH pre E) as (c & rest & -> & ->); [lia |].
    by exists c, rest.
Qed.

(** X12. The third pattern of the matcher's docstring,
    [Financial Database Business Rules]: when the title has no ["("] and
    reads, after characters that are no word characters, a word, whitespace
    and [Database], it goes to the schema whose name is the word up to case
    (the last one of the mapping, if several are), whatever follows. *)
Theorem title_word_database_pattern
        (index : AgentIndex) (pre w ws post s : string) :
  let known := schema_names_lower index in
  let title := (pre ++ w ++ ws ++ "Database" ++ post)%string in
  PyStr.all_chars (fun c => negb (is_open_paren c)) title = true →
  PyStr.all_chars (fun c => negb (PyStr.is_word c)) pre = true →
  w ≠ "" → PyStr.all_chars PyStr.is_word w = true →
  ws ≠ "" → PyStr.all_chars PyStr.is_space ws = true →
  PyStr.lower w = PyStr.lower s → last_with_lower index s →
  _extract_schema_from_title title known = Some s.
Proof.
  intros known title Hopen Hpre Hne Hw Hws_ne Hws Hlow Hlast.
  unfold _extract_schema_from_title, title_parenthetical, title_suffix.
  rewrite search_paren_no_open by done.
  assert (search_word_database title = Some w) as ->.
  { apply search_word_database_spec. exists pre. split.
    - by exists ws, post.
    - intros pre' w' (ws' & post' & E & Hne' & Hw' & _).
      destruct (Nat.le_gt_cases (String.length pre) (String.length pre')) as [| Hlt];
        [done |].
      unfold title in E. symmetry in E.
      apply app_eq_shorter in E as (c & rest & -> & E); [| done].
      rewrite all_chars_app in Hpre. apply andb_prop in Hpre as [_ Hc].
      simpl in Hc. apply andb_prop in Hc as [Hc _]. apply negb_true_iff in Hc.
      destruct w' as [|x w']; [done |]. rewrite str_app_cons in E.
      injection E as -> _. simpl in Hw'. by rewrite Hc in Hw'. }
  rewrite Hlow. by apply known_lower_last.
Qed.

Lemma title_word_database_pattern_witness :
  _extract_schema_from_title "** Financial  Databases: business rules"
                             (schema_names_lower financial_only)
  = Some "financial".
Proof.
  apply (title_word_database_pattern financial_only
           "** " "Financial" "  " "s: business rules" "financial");
    try reflexivity.
  - discriminate.
  - discriminate.
  - exists [], []. split; [reflexivity | intros s' []].
Defined.

(** ** The title of a guide *)

Lemma before_newline_app (line rest : string) :
  PyStr.all_chars (fun c => negb (PyStr.code c =? 10)%N) line = true →
  PyStr.before_newline (line ++ newline ++ rest) = line.
Proof.
  induction line as [|c line IH]; [done |]. simpl.
  intros H. apply andb_prop in H as [Hc Hl]. apply negb_true_iff in Hc.
  by rewrite Hc, IH.
Qed.

Lemma before_newline_all (line : string) :
  PyStr.all_chars (fun c => negb (PyStr.code c =? 10)%N) line = true →
  PyStr.before_newline line = line.
Proof.
  induction line as [|c line IH]; [done |]. simpl.
  intros H. apply andb_prop in H as [Hc Hl]. apply negb_true_iff in Hc.
  by rewrite Hc, IH.
Qed.

Lemma lstrip_app_stop (p : ascii → bool) (a b : string) :
  starts_outside p b → PyStr.lstrip_by p (a ++ b) = (PyStr.lstrip_by p a ++ b)%string.
Proof.
  intros Hb. induction a as [|c a IH].
  - rewrite str_app_nil. by apply lstrip_starts.
  - rewrite str_app_cons. simpl. by destruct (p c).
Qed.

Lemma lstrip_keeps_all (p q : ascii → bool) (s : string) :
  PyStr.all_chars q s = true → PyStr.all_chars q (PyStr.lstrip_by p s) = true.
Proof.
  induction s as [|c s IH]; [done |]. simpl. intros H.
  destruct (p c); [| done]. apply andb_prop in H as [_ Hs]. by apply IH.
Qed.

Lemma ends_outside_app (p : ascii → bool) (a b : string) :
  ends_outside p b → ends_outside p (a ++ b).
Proof.
  intros (init & z & -> & Hz). exists (a ++ init)%string, z.
  by rewrite str_app_assoc.
Qed.

(** X13. The title that the matcher sees is the text of the first line
    without its heading marker: for a file whose first line is a run of
    ['#'] and blanks, a text that neither starts with one of them nor has
    whitespace at either end, and trailing whitespace, the title is that
    text, whatever the later lines hold; a file that starts with a line
    feed has the empty title. *)
Theorem guide_title_of_heading (marker text trail rest : string) :
  PyStr.all_chars PyStr.is_hash_or_blank marker = true →
  text ≠ "" → PyStr.strip text = text → starts_outside PyStr.is_hash_or_blank text →
  PyStr.all_chars PyStr.is_space trail = true →
  PyStr.all_chars (fun c => negb (PyStr.code c =? 10)%N) (marker ++ text ++ trail) = true →
  guide_first_line (marker ++ text ++ trail ++ newline ++ rest) = text
  ∧ guide_first_line (marker ++ text ++ trail) = text
  ∧ guide_first_line (newline ++ marker ++ text ++ trail) = "".
Proof.
  intros Hm Hne Hstrip Hstart Htrail Hline.
  destruct (stripped_ends text Hstrip Hne) as [Hs He].
  assert (PyStr.strip (PyStr.lstrip_by PyStr.is_hash_or_blank
                         (PyStr.strip (marker ++ text ++ trail))) = text) as H.
  { unfold PyStr.strip at 2.
    rewrite (lstrip_app_stop PyStr.is_space marker (text ++ trail))
      by (by destruct text).
    rewrite <- str_app_assoc, rstrip_app_all by done.
    rewrite rstrip_ends by (by apply ends_outside_app).
    rewrite lstrip_app_all by (by apply lstrip_keeps_all).
    by rewrite lstrip_starts. }
  split; [| split].
  - unfold guide_first_line.
    replace (marker ++ text ++ trail ++ newline ++ rest)%string
      with ((marker ++ text ++ trail) ++ newline ++ rest)%string
      by (by rewrite !str_app_assoc).
    by rewrite before_newline_app.
  - unfold guide_first_line. by rewrite before_newline_all.
  - reflexivity.
Qed.

Lemma guide_title_of_heading_witness :
  guide_first_line ("## Financial Database rules  " ++ newline ++ "Text (HR Database).")
  = "Financial Database rules"
  ∧ guide_first_line "## Financial Database rules  " = "Financial Database rules"
  ∧ guide_first_line (newline ++ "## Financial Database rules  ") = "".
Proof.
  apply (guide_title_of_heading "## " "Financial Database rules" "  " "Text (HR Database).");
    try reflexivity.
  discriminate.
Defined.

(** ** Claim on the title rule *)

Lemma paren_group_at_eq (title pre inner : string) :
  paren_group_at title pre inner
  ↔ inner ≠ ""
    ∧ PyStr.all_chars (fun c => negb (is_close_paren c)) inner = true
    ∧ ∃ post, title = (pre ++ String "(" (inner ++ String ")" post))%string.
Proof. done. Qed.

Lemma paren_group_at_cons (c : ascii) (s pre inner : string) :
  paren_group_at (String c s) (String c pre) inner ↔ paren_group_at s pre inner.
Proof.
  rewrite !paren_group_at_eq.
  split; intros (Hne & Hall & post & E); (split; [done |]); (split; [done |]); exists post.
  - rewrite str_app_cons in E. congruence.
  - by rewrite str_app_cons, <- E.
Qed.

Lemma search_paren_found (title pre inner : string) :
  paren_group_at title pre inner → ∃ i, search_paren title = Some i.
Proof.
  revert title. induction pre as [|c pre IH]; intros title H.
  - destruct (proj1 (paren_group_at_eq _ _ _) H) as (Hne & Hall & post & ->).
    exists inner. rewrite str_app_nil. simpl. rewrite until_close_app by done.
    by destruct inner.
  - destruct title as [|c' s].
    { destruct (proj1 (paren_group_at_eq _ _ _) H) as (_ & _ & post & E). by rewrite str_app_cons in E. }
    assert (c' = c) as ->.
    { destruct (proj1 (paren_group_at_eq _ _ _) H) as (_ & _ & post & E).
      rewrite str_app_cons in E. congruence. }
    destruct (IH s (proj1 (paren_group_at_cons _ _ _ _) H)) as [i Hi].
    simpl. destruct (is_open_paren c); [| by exists i].
    destruct (until_close s) as [[|a r]|]; [by exists i | by eexists | by exists i].
Qed.

Lemma app_eq_same_length (a b x y : string) :
  (a ++ x)%string = (b ++ y)%string → String.length a = String.length b → a = b ∧ x = y.
Proof.
  revert b. induction a as [|c a IH]; intros [|d b] E Hlen; simpl in Hlen; try lia.
  - by rewrite !str_app_nil in E.
  - rewrite !str_app_cons in E. injection E as -> E.
    destruct (IH b E) as [-> ->]; [lia | done].
Qed.

(** [search_paren] finds the group of the leftmost place, and only that. *)
Lemma search_paren_leftmost (title pre inner : string) :
  paren_group_at title pre inner →
  (∀ pre' inner', paren_group_at title pre' inner' →
                  String.length pre <= String.length pre') →
  search_paren title = Some inner.
Proof.
  intros Hat Hleft. destruct (search_paren_found title pre inner Hat) as [i Hi].
  rewrite Hi. f_equal.
  destruct (search_paren_spec title i Hi) as (Hne & Hall & pre2 & post2 & E2 & Hleft2).
  assert (paren_group_at title pre2 i) as Hat2.
  { apply paren_group_at_eq. split; [done |]. split; [done |]. by exists post2. }
  destruct (proj1 (paren_group_at_eq _ _ _) Hat) as (Hne1 & Hall1 & post1 & E1).
  assert (String.length pre2 = String.length pre) as Hlen.
  { apply Nat.le_antisymm; [| by apply (Hleft pre2 i)].
    by apply (Hleft2 pre inner post1). }
  rewrite E1 in E2. symmetry in E2.
  apply app_eq_same_length in E2 as [_ E2]; [| done].
  injection E2 as E2.
  pose proof (until_close_app i post2 Hall) as H2.
  rewrite E2, until_close_app in H2 by done. congruence.
Qed.

Lemma search_paren_group (title inner : string) :
  search_paren title = Some inner →
  ∃ pre, paren_group_at title pre inner
         ∧ ∀ pre' inner', paren_group_at title pre' inner' →
                          String.length pre <= String.length pre'.
Proof.
  intros H. destruct (search_paren_spec title inner H) as (Hne & Hall & pre & post & E & Hleft).
  exists pre. split.
  - apply paren_group_at_eq. split; [done |]. split; [done |]. by exists post.
  - intros pre' inner' Hat. destruct (proj1 (paren_group_at_eq _ _ _) Hat) as (Hne' & Hall' & post' & E').
    by apply (Hleft pre' inner' post').
Qed.

Lemma normalize_candidate_strip (c : string) :
  normalize_candidate c = normalize_candidate (PyStr.strip c).
Proof. unfold normalize_candidate. by rewrite strip_idem. Qed.

Lemma rstrip_split (p : ascii → bool) (s : string) :
  ∃ w, s = (PyStr.rstrip_by p s ++ w)%string ∧ PyStr.all_chars p w = true.
Proof.
  induction s as [|c s (w & E & Hw)]; [by exists "" |]. simpl.
  destruct (PyStr.rstrip_by p s) as [|a r] eqn:Er.
  - rewrite str_app_nil in E. subst w. destruct (p c) eqn:Ec.
    + exists (String c s). split; [done |]. simpl. by rewrite Ec, Hw.
    + by exists s.
  - exists w. split; [| done]. by rewrite str_app_cons, <- E.
Qed.

Lemma rstrip_length (p : ascii → bool) (s : string) :
  String.length (PyStr.rstrip_by p s) <= String.length s.
Proof.
  destruct (rstrip_split p s) as (w & E & _).
  rewrite E at 2. rewrite str_length_app. lia.
Qed.

Lemma ends_outside_no_trail (p : ascii → bool) (x t : string) :
  ends_outside p (x ++ t) → PyStr.all_chars p t = true → t = "".
Proof.
  intros He Ht. pose proof (rstrip_ends p _ He) as E.
  rewrite rstrip_app_all in E by done.
  pose proof (rstrip_length p x) as Hlen. rewrite E, str_length_app in Hlen.
  destruct t; [done | simpl in Hlen; lia].
Qed.

(** A candidate that ends in the literal is looked up under what stands
    before the whitespace before it. *)
Lemma normalize_database_suffixed (c core : string) :
  database_suffixed (PyStr.strip c) core →
  normalize_candidate c = PyStr.lower (PyStr.strip core).
Proof.
  intros (ws & suffix & E & Hne & Hws & Hsuf).
  destruct (strip_result c) as [E0 | [Hs He]].
  { rewrite E0 in E. destruct core; [| done]. by destruct ws. }
  destruct (rstrip_split PyStr.is_space core) as (w0 & Ec & Hw0).
  pose proof (rstrip_result PyStr.is_space core) as Hr.
  remember (PyStr.rstrip_by PyStr.is_space core) as core' eqn:Ecore'.
  clear Ecore'. subst core. rewrite E in Hs.
  assert (core' ≠ "") as Hc'.
  { intros ->. rewrite str_app_nil in Hs. destruct w0 as [|a w0].
    - rewrite str_app_nil in Hs. destruct ws as [|b ws]; [done |].
      rewrite str_app_cons in Hs. simpl in Hs, Hws.
      apply andb_prop in Hws as [Hb _]. congruence.
    - rewrite str_app_cons in Hs. simpl in Hs, Hw0.
      apply andb_prop in Hw0 as [Ha _]. congruence. }
  destruct Hr as [-> | He']; [done |].
  assert (starts_outside PyStr.is_space core') as Hs'.
  { destruct core' as [|x core']; [done |]. by rewrite !str_app_cons in Hs. }
  assert (PyStr.strip (core' ++ w0) = core') as ->.
  { pose proof (strip_around "" core' w0 eq_refl Hw0 Hs' He') as H.
    by rewrite str_app_nil in H. }
  rewrite normalize_candidate_strip, E.
  pose proof (normalize_candidate_suffix "" core' (w0 ++ ws) suffix "" eq_refl eq_refl) as H.
  rewrite str_app_nil, str_app_nil_r in H.
  rewrite !str_app_assoc. rewrite str_app_assoc in H. apply H; try done.
  - by rewrite all_chars_app, Hw0, Hws.
  - destruct w0; [by rewrite str_app_nil | done].
  - by apply strip_fixed.
Qed.

Lemma database_suffix_here_decomp (s : string) :
  database_suffix_here s = true →
  ∃ ws suffix trail,
    s = (ws ++ suffix ++ trail)%string
    ∧ ws ≠ "" ∧ PyStr.all_chars PyStr.is_space ws = true
    ∧ (suffix = "Database" ∨ suffix = "Databases")
    ∧ PyStr.all_chars PyStr.is_space trail = true.
Proof.
  unfold database_suffix_here.
  destruct (span_by PyStr.is_space s) as [ws r] eqn:Es.
  apply span_by_spec in Es as (-> & Hws & _).
  destruct ws as [|a ws]; [done |].
  intros H. apply andb_prop in H as [Hd Hrest].
  apply starts_with_spec in Hd as [post ->].
  change (PyStr.drop 8 ("Database" ++ post)) with post in Hrest.
  destruct (PyStr.starts_with "s" post) eqn:Ep.
  - apply starts_with_spec in Ep as [post' ->].
    exists (String a ws), "Databases", post'. repeat split; [done | done | by right | done].
  - exists (String a ws), "Database", post. repeat split; [done | done | by left | done].
Qed.

(** Where [sub_database_suffix] removes something, the string reads some
    [core], whitespace, the literal and trailing whitespace. *)
Lemma sub_database_suffix_decomp (s : string) :
  sub_database_suffix s = s
  ∨ ∃ core ws suffix trail,
      s = (core ++ ws ++ suffix ++ trail)%string
      ∧ ws ≠ "" ∧ PyStr.all_chars PyStr.is_space ws = true
      ∧ (suffix = "Database" ∨ suffix = "Databases")
      ∧ PyStr.all_chars PyStr.is_space trail = true.
Proof.
  induction s as [|c s IH].
  - by left.
  - rewrite sub_database_suffix_eq.
    destruct (database_suffix_here (String c s)) eqn:Eh.
    + right. apply database_suffix_here_decomp in Eh
        as (ws & suffix & trail & E & Hne & Hws & Hsuf & Htrail).
      exists "", ws, suffix, trail. by rewrite str_app_nil.
    + destruct IH as [-> | (core & ws & suffix & trail & -> & H)]; [by left |].
      right. by exists (String c core), ws, suffix, trail.
Qed.

(** A candidate that does not end in the literal is looked up as it is. *)
Lemma normalize_not_suffixed (c : string) :
  (∀ core, ¬ database_suffixed (PyStr.strip c) core) →
  normalize_candidate c = PyStr.lower (PyStr.strip c).
Proof.
  intros Hno. unfold normalize_candidate.
  destruct (sub_database_suffix_decomp (PyStr.strip c))
    as [-> | (core & ws & suffix & trail & E & Hne & Hws & Hsuf & Htrail)];
    [by rewrite strip_idem |].
  exfalso. apply (Hno core). exists ws, suffix. split; [| done].
  destruct (strip_result c) as [E0 | [_ He]].
  { rewrite E0 in E. destruct core; [| done]. by destruct ws. }
  assert (trail = "") as ->.
  { apply (ends_outside_no_trail PyStr.is_space (core ++ ws ++ suffix)); [| done].
    rewrite E in He. by rewrite !str_app_assoc. }
  by rewrite str_app_nil_r in E.
Qed.

(** C3 (amended). For every guide whose first line (leading heading marker
    and whitespace stripped) contains a parenthesized group, the matcher
    takes the group of the leftmost place where ["("], a non-empty text
    without [")"] and [")"] follow each other, splits its contents at every
    ['/'] and every [','], and for each candidate in order strips
    whitespace, removes a trailing [Database] or [Databases] exactly when it
    is written in this case, preceded by whitespace and ends the candidate,
    and looks the lowercased rest up among the lowercased schema names; the
    first candidate found determines the guide's schema, and the rule finds
    nothing when no candidate is found. *)
Theorem title_parenthetical_rule
        (index : AgentIndex) (gp : GuidePath) (pre inner : string) :
  let known := schema_names_lower index in
  let title := guide_first_line (read_text gp) in
  let candidates := PyStr.re_split_class is_slash_or_comma inner in
  paren_group_at title pre inner →
  (∀ pre' inner', paren_group_at title pre' inner' →
                  String.length pre <= String.length pre') →
  search_paren title = Some inner
  ∧ (∀ t i, search_paren t = Some i →
            ∃ p, paren_group_at t p i
                 ∧ ∀ p' i', paren_group_at t p' i' → String.length p <= String.length p')
  ∧ (∀ t, (∀ p i, ¬ paren_group_at t p i) → search_paren t = None)
  ∧ (∃ seps : list string,
       Forall (fun r => r = "/" ∨ r = ",") seps
       ∧ length candidates = S (length seps)
       ∧ inner = interleave candidates seps)
  ∧ Forall (fun c => PyStr.all_chars
                       (fun x => negb (Ascii.eqb x "/" || Ascii.eqb x ",")) c = true)
           candidates
  ∧ (∀ (before : list string) (c : string) (after : list string) (s : string),
       candidates = before ++ c :: after →
       Forall (fun c' => ∀ s', In s' (Dict.keys (schemas index)) →
                               PyStr.lower s' ≠ normalize_candidate c') before →
       Dict.get (normalize_candidate c) known = Some s →
       guide_schema known gp = Some s
       ∧ In s (Dict.keys (schemas index))
       ∧ PyStr.lower s = normalize_candidate c)
  ∧ (∀ (before : list string) (c : string) (after : list string) (s : string),
       candidates = before ++ c :: after →
       Forall (fun c' => ∀ s', In s' (Dict.keys (schemas index)) →
                               PyStr.lower s' ≠ normalize_candidate c') before →
       PyStr.lower s = normalize_candidate c → last_with_lower index s →
       guide_schema known gp = Some s)
  ∧ (Forall (fun c' => ∀ s', In s' (Dict.keys (schemas index)) →
                             PyStr.lower s' ≠ normalize_candidate c') candidates →
     title_parenthetical title known = None)
  ∧ (∀ c core : string,
       database_suffixed (PyStr.strip c) core →
       normalize_candidate c = PyStr.lower (PyStr.strip core))
  ∧ (∀ c : string,
       (∀ core, ¬ database_suffixed (PyStr.strip c) core) →
       normalize_candidate c = PyStr.lower (PyStr.strip c)).
Proof.
  intros known title candidates Hat Hleft.
  assert (search_paren title = Some inner) as Hsearch
    by (by apply (search_paren_leftmost title pre inner)).
  assert (∀ l : list string,
            Forall (fun c' => ∀ s', In s' (Dict.keys (schemas index)) →
                                    PyStr.lower s' ≠ normalize_candidate c') l →
            Forall (fun c' => Dict.get (normalize_candidate c') known = None) l) as Hnone.
  { intros l. apply List.Forall_impl. intros c' H. by apply known_lower_None. }
  split; [done |].
  split; [apply search_paren_group |].
  split.
  { intros t Hno. destruct (search_paren t) as [i|] eqn:E; [| done].
    apply search_paren_group in E as (p & Hp & _). by apply Hno in Hp. }
  split.
  { destruct (re_split_class_spec is_slash_or_comma inner) as (seps & Hseps & Hlen & Hi).
    exists seps. split; [| done].
    eapply Forall_impl; [exact Hseps |]. intros r (x & -> & Hx).
    apply orb_prop in Hx as [Hx | Hx]; apply Ascii.eqb_eq in Hx; subst x; [by left | by right]. }
  split; [exact (re_split_class_no_sep is_slash_or_comma inner) |].
  assert (∀ before c after s,
            candidates = before ++ c :: after →
            Forall (fun c' => ∀ s', In s' (Dict.keys (schemas index)) →
                                    PyStr.lower s' ≠ normalize_candidate c') before →
            Dict.get (normalize_candidate c) known = Some s →
            guide_schema known gp = Some s) as Hfound.
  { intros before c after s Hc Hb Hs.
    unfold guide_schema, _extract_schema_from_title, title_parenthetical.
    fold title. rewrite Hsearch. fold candidates.
    by rewrite (candidate_found known candidates before after c s Hc (Hnone before Hb) Hs). }
  split; [| split; [| split; [| split]]].
  - intros before c after s Hc Hb Hs.
    split; [by apply (Hfound before c after) |]. by apply known_lower_Some.
  - intros before c after s Hc Hb Hlow Hlast.
    apply (Hfound before c after); [done | done |].
    by apply known_lower_last.
  - intros Hall. unfold title_parenthetical. rewrite Hsearch. fold candidates.
    rewrite first_known_candidate_tokens. apply first_known_token_None.
    apply List.Forall_map. by apply Hnone.
  - apply normalize_database_suffixed.
  - apply normalize_not_suffixed.
Qed.

Lemma title_parenthetical_rule_witness :
  guide_first_line (read_text empty_group_guide) = "Rules () (Credit, CreditCard Databases)"
  ∧ search_paren (guide_first_line (read_text empty_group_guide))
    = Some "Credit, CreditCard Databases"
  ∧ PyStr.re_split_class is_slash_or_comma "Credit, CreditCard Databases"
    = ["Credit"; " CreditCard Databases"]
  ∧ normalize_candidate " CreditCard Databases" = "creditcard"
  ∧ guide_schema (schema_names_lower creditcard_only) empty_group_guide = Some "creditcard".
Proof.
  assert (paren_group_at (guide_first_line (read_text empty_group_guide))
                         "Rules () " "Credit, CreditCard Databases") as Hat.
  { split; [discriminate |]. split; [reflexivity | by exists ""]. }
  assert (∀ pre' inner',
            paren_group_at (guide_first_line (read_text empty_group_guide)) pre' inner' →
            String.length "Rules () " <= String.length pre') as Hleft.
  { intros pre' inner' (Hne & Hall & post & E).
    change (guide_first_line (read_text empty_group_guide))
      with "Rules () (Credit, CreditCard Databases)" in E.
    do 6 (destruct pre' as [|? pre']; [discriminate E | injection E as _ E]).
    destruct pre' as [|? pre'].
    { injection E as E. destruct inner' as [|z i]; [done |].
      injection E as <- _. discriminate Hall. }
    injection E as _ E.
    do 2 (destruct pre' as [|? pre']; [discriminate E | injection E as _ E]).
    simpl. lia. }
  destruct (title_parenthetical_rule creditcard_only empty_group_guide
              "Rules () " "Credit, CreditCard Databases" Hat Hleft)
    as (Hsearch & _ & _ & _ & _ & _ & Hfirst & _ & Hsuffixed & _).
  split; [reflexivity |]. split; [exact Hsearch |]. split; [reflexivity |].
  assert (normalize_candidate " CreditCard Databases" = "creditcard") as Hn.
  { apply (Hsuffixed " CreditCard Databases" "CreditCard").
    exists " ", "Databases". repeat split; [discriminate | by right]. }
  split; [exact Hn |].
  apply (Hfirst ["Credit"] " CreditCard Databases" [] "creditcard").
  - reflexivity.
  - constructor; [| constructor]. intros s' [<- | []]. discriminate.
  - by rewrite Hn.
  - exists [], []. split; [reflexivity | intros s' []].
Defined.

Example title_after_empty_group :
  guide_schema (schema_names_lower creditcard_only) empty_group_guide = Some "creditcard".
Proof. reflexivity. Qed.

(** ** Sessions driven by a list of calls *)

Lemma dedup_key_eq_dec (k k' : DedupKey) : {k = k'} + {k ≠ k'}.
Proof. decide equality; apply String.string_dec. Qed.

Section Runs.

Variable index : AgentIndex.

Lemma run_cons (c : Call) (cs : list Call) (st : Session) :
  run index (c :: cs) st
  = (fst (call index c st) :: fst (run index cs (snd (call index c st))),
     snd (run index cs (snd (call index c st)))).
Proof.
  simpl. destruct (call index c st) as [r st']. simpl.
  by destruct (run index cs st') as [rs st''].
Qed.

Lemma run_app (a b : list Call) (st : Session) :
  run index (a ++ b) st
  = (fst (run index a st) ++ fst (run index b (snd (run index a st))),
     snd (run index b (snd (run index a st)))).
Proof.
  revert st. induction a as [|c a IH]; intros st.
  - simpl. by destruct (run index b st).
  - rewrite <- app_comm_cons, !run_cons, IH. done.
Qed.

Lemma run_length (cs : list Call) (st : Session) :
  length (fst (run index cs st)) = length cs.
Proof.
  revert st. induction cs as [|c cs IH]; intros st; [done |].
  rewrite run_cons. simpl. by rewrite IH.
Qed.

Lemma call_shown_iff (c : Call) (k : DedupKey) (st : Session) :
  shown k (snd (call index c st)) ↔ shown k st ∨ key_of c = Some k.
Proof.
  destruct (key_of c) as [k0|] eqn:Ec.
  - destruct (dedup_key_eq_dec k0 k) as [-> | Hne].
    + split; [by right |]. intros _. by apply call_marks.
    + rewrite call_other_key by (rewrite Ec; congruence).
      split; [by left | intros [H | H]; [done | congruence]].
  - rewrite call_other_key by (by rewrite Ec).
    split; [by left | by intros [H | H]].
Qed.

Lemma run_shown_iff (cs : list Call) (k : DedupKey) (st : Session) :
  shown k (snd (run index cs st)) ↔ shown k st ∨ ∃ c, In c cs ∧ key_of c = Some k.
Proof.
  revert st. induction cs as [|c cs IH]; intros st.
  - simpl. split; [by left | by intros [H | (c & [] & _)]].
  - rewrite run_cons. cbn [snd]. rewrite IH, call_shown_iff. split.
    + intros [[H | H] | (c' & Hin & H)].
      * by left.
      * right. exists c. split; [by left | done].
      * right. exists c'. split; [by right | done].
    + intros [H | (c' & [<- | Hin] & H)].
      * left. by left.
      * left. by right.
      * right. by exists c'.
Qed.

Lemma run_nth (pre post : list Call) (c : Call) (st : Session) :
  nth_error (fst (run index (pre ++ c :: post) st)) (length pre)
  = Some (fst (call index c (snd (run index pre st)))).
Proof.
  rewrite run_app. cbn [fst].
  rewrite nth_error_app2 by (by rewrite run_length).
  rewrite run_length, Nat.sub_diag, run_cons. done.
Qed.

End Runs.

Lemma key_of_inj (c c' : Call) (k : DedupKey) :
  key_of c = Some k → key_of c' = Some k → c = c'.
Proof. destruct c, c'; simpl; congruence. Qed.

(** X14. The dedup state of a session is exactly the record of the calls
    made in it: after any list of calls from a fresh session the schemas
    flag is set exactly when [list_schemas] was called, a (schema, table)
    pair is in [_described] exactly when [describe_table] was called with
    it, and a schema is in [_fetched] exactly when [get_business_rules] was
    called with it, found or not; [list_tables] leaves no trace. *)
Theorem session_records_calls (index : AgentIndex) (cs : list Call) :
  let st := snd (run index cs new_session) in
  (_schemas_listed st = true ↔ In ListSchemas cs)
  ∧ (∀ s t, (s, t) ∈ _described st ↔ In (DescribeTable s t) cs)
  ∧ (∀ s, s ∈ _fetched st ↔ In (GetBusinessRules s) cs).
Proof.
  intros st.
  assert (∀ c k, key_of c = Some k → shown k st ↔ In c cs) as H.
  { intros c k Hc. unfold st. rewrite run_shown_iff. split.
    - intros [H | (c' & Hin & Hc')].
      + destruct k; simpl in H; [done | set_solver | set_solver].
      + by rewrite (key_of_inj c c' k).
    - intros Hin. right. by exists c. }
  split; [| split].
  - by apply (H ListSchemas KSchemas).
  - intros s t. by apply (H (DescribeTable s t) (KTable s t)).
  - intros s. by apply (H (GetBusinessRules s) (KRules s)).
Qed.

(** X15. What a session answers: the list of answers has one text per
    call, in order; the answer to a [list_schemas], [describe_table] or
    [get_business_rules] call is the refusal text of its key when the same
    call was made earlier in the session (or the key was marked when the
    session started) and the result of the index otherwise; the answer to a
    [list_tables] call never depends on the session. *)
Theorem run_answers
        (index : AgentIndex) (pre post : list Call) (c : Call) (st : Session) :
  let answers := fst (run index (pre ++ c :: post) st) in
  length answers = length (pre ++ c :: post)
  ∧ (∀ k, key_of c = Some k → shown k st ∨ In c pre →
          nth_error answers (length pre) = Some (refusal k))
  ∧ (∀ k, key_of c = Some k → ¬ shown k st → ¬ In c pre →
          nth_error answers (length pre) = Some (facade_result index k))
  ∧ (∀ s, c = ListTables s →
          nth_error answers (length pre) = Some (fst (list_tables index s new_session))).
Proof.
  intros answers. unfold answers.
  split; [apply run_length |]. rewrite run_nth.
  split; [| split].
  - intros k Hc Hk. rewrite (call_shown index c k); [done | done |].
    apply run_shown_iff. destruct Hk as [Hk | Hin]; [by left |].
    right. by exists c.
  - intros k Hc Hk Hin. f_equal. apply call_fresh; [done |].
    rewrite run_shown_iff. intros [H | (c' & Hin' & Hc')]; [done |].
    by rewrite (key_of_inj c c' k) in Hin.
  - intros s ->. simpl. f_equal. unfold list_tables.
    by destruct (get_tables index s).
Qed.

(** ** From the catalog to the text of [describe_table] *)

Lemma slice_to_all_Z {A} (m : Z) (l : list A) :
  (Z.of_nat (length l) <= m)%Z → PyStr.slice_to m l = l.
Proof.
  intros H. rewrite <- (Z2Nat.id m) by lia. apply slice_to_all. lia.
Qed.

Lemma description_lines_complete (schema table : string) (info : TableInfo) (m : Z) :
  (Z.of_nat (length (columns info)) <= m)%Z →
  description_lines schema table info m
  = [table_header_line schema table (length (columns info)); ""; "Columns:"]
    ++ map column_line (columns info)
    ++ match sample_rows info with
       | [] => []
       | _ :: _ =>
           [""; sample_title_line (length (sample_rows info));
            sample_header_line (map name (columns info));
            sample_separator_line (map name (columns info))]
           ++ map (sample_row_line m) (sample_rows info)
       end.
Proof.
  intros Hm. unfold description_lines.
  assert ((Z.of_nat (length (columns info)) >? m)%Z = false) as ->.
  { rewrite Z.gtb_ltb. apply Z.ltb_ge. lia. }
  rewrite slice_to_all_Z by done.
  destruct (sample_rows info) as [|row rows].
  - by rewrite app_nil_r.
  - simpl negb. cbv iota. by rewrite <- !app_assoc.
Qed.

(** X16. From the catalog to the agent: a first [describe_table] call for a
    table of at most 40 columns answers with the column count, one line per
    catalog column in ordinal order ([nullable] exactly for [YES]), and,
    when the sample query gave rows, a sample section with the first three
    of them, every row cut to 40 cells; a table whose sample query raised
    or gave no row has no sample section. *)
Theorem describe_scanned_table
        (db d1 d2 : Catalog) (guides_dir : option (list GuidePath))
        (schema table : string) (table_rows t1 t2 : list (string * TableFacts))
        (f : TableFacts) (st : Session) :
  db = d1 ++ (schema, table_rows) :: d2 → ¬ In schema (map fst d2) →
  table_rows = t1 ++ (table, f) :: t2 → ¬ In table (map fst t2) →
  length (col_rows f) <= 40 →
  (schema, table) ∉ _described st →
  let col_names := map (fun '(cn, _, _) => cn) (col_rows f) in
  let samples := match table_data f with Some data => firstn 3 data | None => [] end in
  fst (describe_table (fst (build db guides_dir)) schema table st)
  = PyStr.join newline
      ([("Table: " ++ schema ++ "." ++ table ++ " ("
           ++ PyStr.of_len (length (col_rows f)) ++ " columns)")%string; ""; "Columns:"]
       ++ map (fun '(cn, dt, nu) =>
                 ("  " ++ cn ++ " (" ++ dt
                  ++ (if String.eqb nu "YES" then ", nullable" else "") ++ ")")%string)
              (col_rows f)
       ++ match samples with
          | [] => []
          | _ :: _ =>
              [""; ("Sample rows (" ++ PyStr.of_len (length samples) ++ "):")%string;
               ("  " ++ PyStr.join " | " col_names)%string;
               ("  " ++ PyStr.repeat_char "-" (PyStr.sum_len_plus 3 col_names))%string]
              ++ map (fun row => ("  " ++ PyStr.join " | " (firstn 40 row))%string) samples
          end).
Proof.
  intros -> Hs -> Ht Hlen Hfresh col_names samples.
  rewrite describe_table_fresh by done. cbn [fst].
  unfold get_table_description, get_table_info. rewrite build_schemas.
  rewrite (fold_set_get_last scan_tables) by done.
  unfold scan_tables. rewrite (fold_set_get_last scan_table) by done.
  f_equal. rewrite description_lines_complete.
  2:{ simpl. rewrite length_map. unfold default_max_columns. lia. }
  cbn [columns sample_rows scan_table]. fold samples.
  rewrite !map_map, length_map.
  assert (map (fun x : string * string * string =>
                 let '(cn, dt, nu) := x in
                 name {| name := cn; type := dt; nullable := String.eqb nu "YES" |})
              (col_rows f) = col_names) as Hnames.
  { apply map_ext. by intros [[cn dt] nu]. }
  assert (map (fun x : string * string * string =>
                 name (let '(cn, dt, nu) := x in
                       {| name := cn; type := dt; nullable := String.eqb nu "YES" |}))
              (col_rows f) = col_names) as Hnames'.
  { apply map_ext. by intros [[cn dt] nu]. }
  f_equal. f_equal.
  - apply map_ext. by intros [[cn dt] nu].
  - unfold SAMPLE_ROWS. fold samples. destruct samples as [|row rows]; [done |].
    unfold sample_header_line, sample_separator_line, sample_title_line.
    rewrite Hnames'. do 4 f_equal.
Qed.

Lemma describe_scanned_table_witness :
  let col_names := map (fun '(cn, _, _) => cn) (col_rows loan_facts) in
  let samples :=
    match table_data loan_facts with Some data => firstn 3 data | None => [] end in
  fst (describe_table (fst (build sample_catalog None)) "financial" "loan" new_session)
  = PyStr.join newline
      ([("Table: " ++ "financial" ++ "." ++ "loan" ++ " ("
           ++ PyStr.of_len (length (col_rows loan_facts)) ++ " columns)")%string;
        ""; "Columns:"]
       ++ map (fun '(cn, dt, nu) =>
                 ("  " ++ cn ++ " (" ++ dt
                  ++ (if String.eqb nu "YES" then ", nullable" else "") ++ ")")%string)
              (col_rows loan_facts)
       ++ match samples with
          | [] => []
          | _ :: _ =>
              [""; ("Sample rows (" ++ PyStr.of_len (length samples) ++ "):")%string;
               ("  " ++ PyStr.join " | " col_names)%string;
               ("  " ++ PyStr.repeat_char "-" (PyStr.sum_len_plus 3 col_names))%string]
              ++ map (fun row => ("  " ++ PyStr.join " | " (firstn 40 row))%string) samples
          end).
Proof.
  apply (describe_scanned_table
           sample_catalog [] [("hr", [("staff", account_facts)]); ("views_only", [])]
           None "financial" "loan"
           [("account", account_facts); ("loan", loan_facts)]
           [("account", account_facts)] [] loan_facts new_session).
  - reflexivity.
  - simpl. intros [H | [H | H]]; [discriminate H | discriminate H | done].
  - reflexivity.
  - simpl. tauto.
  - simpl. lia.
  - simpl. apply not_elem_of_empty.
Defined.

(** X17. A negative [max_columns] is read by the slice as a count from the
    end: the description is then always the truncated one, it lists all but
    the last [-max_columns] columns (none when the table has fewer), never
    shows sample rows, and announces [len(columns) - max_columns] further
    columns, which is more than it left out. *)
Theorem description_negative_bound
        (index : AgentIndex) (schema table : string) (info : TableInfo) (max_columns : Z) :
  get_table_info index schema table = Some info →
  (max_columns < 0)%Z →
  let n := length (columns info) in
  let shown := firstn (n - Z.to_nat (- max_columns)) (columns info) in
  get_table_description index schema table max_columns
  = PyStr.join newline
      ([table_header_line schema table n; ""; "Columns:"]
       ++ map column_line shown
       ++ [("  ... and " ++ PyStr.of_int (Z.of_nat n - max_columns)
              ++ " more columns")%string;
           use_run_query_line])
  ∧ length shown = n - Z.to_nat (- max_columns)
  ∧ (Z.of_nat (n - length shown) < Z.of_nat n - max_columns)%Z.
Proof.
  intros Hi Hm n shown. split; [| split].
  - unfold get_table_description. rewrite Hi. f_equal.
    unfold description_lines. fold n.
    assert ((Z.of_nat n >? max_columns)%Z = true) as ->.
    { rewrite Z.gtb_ltb. apply Z.ltb_lt. lia. }
    unfold PyStr.slice_to. fold n.
    assert ((max_columns <? 0)%Z = true) as -> by (apply Z.ltb_lt; lia).
    fold shown. rewrite <- !app_assoc.
    by destruct (sample_rows info).
  - unfold shown. rewrite length_firstn. fold n. lia.
  - unfold shown. rewrite length_firstn. fold n. lia.
Qed.

Lemma description_negative_bound_witness :
  let n := length (columns loan_table) in
  let shown := firstn (n - Z.to_nat (- (-1))) (columns loan_table) in
  get_table_description sample_index "financial" "loan" (-1)
  = PyStr.join newline
      ([table_header_line "financial" "loan" n; ""; "Columns:"]
       ++ map column_line shown
       ++ [("  ... and " ++ PyStr.of_int (Z.of_nat n - (-1))
              ++ " more columns")%string;
           use_run_query_line])
  ∧ length shown = n - Z.to_nat (- (-1))
  ∧ (Z.of_nat (n - length shown) < Z.of_nat n - (-1))%Z.
Proof.
  apply (description_negative_bound sample_index "financial" "loan" loan_table (-1)).
  - reflexivity.
  - lia.
Defined.

(** ** The text of [run_query] *)

Lemma count_lf_app (a b : string) : count_lf (a ++ b) = count_lf a + count_lf b.
Proof. induction a as [|c a IH]; [done |]. rewrite str_app_cons. simpl. rewrite IH. lia. Qed.

Lemma count_lf_join (sep : string) (l : list string) :
  count_lf (PyStr.join sep l) = (length l - 1) * count_lf sep + lf_in l.
Proof.
  unfold PyStr.join, lf_in. induction l as [|x l IH]; [done |].
  destruct l as [|y l]; [simpl; lia |].
  change (String.concat sep (x :: y :: l))
    with (x ++ sep ++ String.concat sep (y :: l))%string.
  rewrite !count_lf_app, IH. simpl. lia.
Qed.

Lemma lf_in_cons (x : string) (l : list string) : lf_in (x :: l) = count_lf x + lf_in l.
Proof. done. Qed.

Lemma lf_in_app (a b : list string) : lf_in (a ++ b) = lf_in a + lf_in b.
Proof. unfold lf_in. by rewrite map_app, list_sum_app. Qed.

Lemma lf_in_joined (sep : string) (rows : list (list string)) :
  count_lf sep = 0 → lf_in (map (PyStr.join sep) rows) = list_sum (map lf_in rows).
Proof.
  intros Hsep. induction rows as [|row rows IH]; [done |].
  cbn [map]. rewrite lf_in_cons, IH, count_lf_join, Hsep. simpl. lia.
Qed.

Lemma count_lf_uint (d : Decimal.uint) : count_lf (NilEmpty.string_of_uint d) = 0.
Proof. induction d; simpl; done. Qed.

(** The decimal writing of an integer holds no line feed. *)
Lemma count_lf_of_int (z : Z) : count_lf (PyStr.of_int z) = 0.
Proof.
  unfold PyStr.of_int, NilZero.string_of_int, NilZero.string_of_uint.
  destruct (Z.to_int z) as [d|d]; destruct d; simpl; try done; apply count_lf_uint.
Qed.

Lemma count_lf_of_len (n : nat) : count_lf (PyStr.of_len n) = 0.
Proof. apply count_lf_of_int. Qed.

Lemma count_lf_repeat (c : ascii) (n : nat) :
  (PyStr.code c =? 10)%N = false → count_lf (PyStr.repeat_char c n) = 0.
Proof. intros Hc. induction n as [|n IH]; [done |]. simpl. by rewrite Hc, IH. Qed.

(** X18. A successful query with a dataframe is answered with a count line,
    an empty line, the column names, a separator, then the first ten rows in
    order, and, only when there are more than ten, one line announcing how
    many rows were left out: the rows shown and the rows announced add up to
    the total. These are at most fifteen entries joined by line feeds; the
    answer has as many lines as entries plus one for every line feed inside
    a column name or a shown cell, hence at most fifteen lines when these
    hold none. The separator is three dashes wider than the line of column
    names as soon as there is a column. *)
Theorem run_query_output
        (execute_query : string → RunQuery.QueryExecutionResult) (query : string)
        (df : RunQuery.DataFrame) :
  RunQuery.is_success (execute_query query) = true →
  RunQuery.dataframe (execute_query query) = Some df →
  let n := length (RunQuery.rows df) in
  let header := PyStr.join " | " (RunQuery.columns df) in
  let separator := PyStr.repeat_char "-" (PyStr.sum_len_plus 3 (RunQuery.columns df)) in
  let shown := firstn 10 (RunQuery.rows df) in
  let answer := RunQuery.run_query execute_query query in
  answer
  = PyStr.join newline
      ([("Rows: " ++ PyStr.of_len n ++ ", Columns: "
           ++ PyStr.of_len (length (RunQuery.columns df)))%string;
        ""; header; separator]
       ++ map (PyStr.join " | ") shown
       ++ (if (10 <? n)%nat
           then [("... (" ++ PyStr.of_len (n - 10) ++ " more rows)")%string]
           else []))
  ∧ length shown + (n - 10) = n
  ∧ length (RunQuery.result_lines df) = 4 + length shown + (if (10 <? n)%nat then 1 else 0)
  ∧ length (RunQuery.result_lines df) <= 15
  ∧ count_lf answer + 1
    = length (RunQuery.result_lines df)
      + lf_in (RunQuery.columns df) + list_sum (map lf_in shown)
  ∧ (lf_in (RunQuery.columns df) = 0 → Forall (fun row => lf_in row = 0) shown →
     count_lf answer + 1 <= 15)
  ∧ String.length separator
    = String.length header + (if RunQuery.columns df is [] then 0 else 3).
Proof.
  intros Hok Hdf n header separator shown answer.
  assert (length shown = Nat.min 10 n) as Hshown by apply length_firstn.
  assert (RunQuery.result_lines df
          = [("Rows: " ++ PyStr.of_len n ++ ", Columns: "
                ++ PyStr.of_len (length (RunQuery.columns df)))%string;
             ""; header; separator]
            ++ map (PyStr.join " | ") shown
            ++ (if (10 <? n)%nat
                then [("... (" ++ PyStr.of_len (n - 10) ++ " more rows)")%string]
                else [])) as Hlines.
  { unfold RunQuery.result_lines. fold n.
    change (Z.of_nat RunQuery.MAX_ROWS) with (Z.of_nat 10).
    rewrite slice_to_nat. fold shown.
    destruct (Nat.ltb_spec 10 n) as [Hn | Hn].
    - assert ((Z.of_nat n >? Z.of_nat 10)%Z = true) as ->.
      { rewrite Z.gtb_ltb. apply Z.ltb_lt. lia. }
      unfold RunQuery.more_rows_line, PyStr.of_len.
      change (Z.of_nat RunQuery.MAX_ROWS) with (Z.of_nat 10).
      replace (Z.of_nat n - Z.of_nat 10)%Z with (Z.of_nat (n - 10)) by lia.
      by rewrite <- app_assoc.
    - assert ((Z.of_nat n >? Z.of_nat 10)%Z = false) as ->.
      { rewrite Z.gtb_ltb. apply Z.ltb_ge. lia. }
      by rewrite app_nil_r. }
  assert (answer = PyStr.join newline (RunQuery.result_lines df)) as Hanswer.
  { unfold answer, RunQuery.run_query. by rewrite Hok, Hdf. }
  assert (length (RunQuery.result_lines df)
          = 4 + length shown + (if (10 <? n)%nat then 1 else 0)) as Hlen.
  { rewrite Hlines. cbn [length app]. rewrite length_app, length_map.
    destruct (10 <? n)%nat; simpl; lia. }
  assert (lf_in (RunQuery.result_lines df)
          = lf_in (RunQuery.columns df) + list_sum (map lf_in shown)) as Hlf.
  { rewrite Hlines, !lf_in_app, !lf_in_cons, lf_in_joined by done.
    rewrite !count_lf_app, !count_lf_of_len.
    unfold header, separator. rewrite count_lf_join, count_lf_repeat by done.
    assert (lf_in (if (10 <? n)%nat
                   then [("... (" ++ PyStr.of_len (n - 10) ++ " more rows)")%string]
                   else []) = 0) as ->.
    { destruct (10 <? n)%nat; [| done].
      by rewrite lf_in_cons, !count_lf_app, count_lf_of_len. }
    change (count_lf "Rows: ") with 0. change (count_lf ", Columns: ") with 0.
    change (count_lf " | ") with 0. change (count_lf "") with 0.
    change (lf_in []) with 0. lia. }
  assert (count_lf answer + 1
          = length (RunQuery.result_lines df)
            + lf_in (RunQuery.columns df) + list_sum (map lf_in shown)) as Hcount.
  { rewrite Hanswer, count_lf_join, Hlf.
    change (count_lf newline) with 1.
    assert (4 <= length (RunQuery.result_lines df)) by (rewrite Hlen; lia).
    lia. }
  split; [by rewrite Hanswer, Hlines |].
  assert (length (RunQuery.result_lines df) <= 15) as Hbound.
  { rewrite Hlen, Hshown. destruct (10 <? n)%nat; lia. }
  split; [lia |]. split; [done |]. split; [done |]. split; [done |]. split.
  - intros Hcols Hrows. rewrite Hcount, Hcols.
    assert (list_sum (map lf_in shown) = 0) as ->; [| lia].
    clear -Hrows. induction Hrows as [|row rows Hr _ IH]; [done |].
    simpl. by rewrite Hr, IH.
  - unfold separator, header. rewrite repeat_char_length. apply sum_len_plus_join.
Qed.

Lemma run_query_output_witness :
  count_lf (RunQuery.run_query sample_query "select") + 1 = 15
  ∧ length (RunQuery.result_lines
              {| RunQuery.columns := ["n"; "sq"];
                 RunQuery.rows :=
                   map (fun i => [PyStr.of_len i; PyStr.of_len (i * i)]) (seq 0 12) |}) = 15
  ∧ count_lf (RunQuery.run_query multiline_query "select") + 1 = 7
  ∧ length (RunQuery.result_lines
              {| RunQuery.columns := ["note"];
                 RunQuery.rows :=
                   [[("first" ++ newline ++ "second")%string]; ["third"]] |}) = 6.
Proof.
  destruct (run_query_output sample_query "select" _ eq_refl eq_refl)
    as (_ & _ & Hlen & _ & Hcount & _).
  destruct (run_query_output multiline_query "select" _ eq_refl eq_refl)
    as (_ & _ & Hlen' & _ & Hcount' & _).
  split; [rewrite Hcount; reflexivity |]. split; [rewrite Hlen; reflexivity |].
  split; [rewrite Hcount'; reflexivity | rewrite Hlen'; reflexivity].
Defined.

(** ** The characters of the cache file *)

Lemma escape_char_plain (c : ascii) :
  PyStr.all_chars is_plain_char (Json.escape_char c) = true.
Proof. destruct c as [[] [] [] [] [] [] [] []]; reflexivity. Qed.

Lemma dump_string_plain (s : string) :
  PyStr.all_chars is_plain_char (Json.dump_string s) = true.
Proof.
  unfold Json.dump_string. cbn [PyStr.all_chars]. rewrite all_chars_app.
  assert (PyStr.all_chars is_plain_char (Json.escape_body s) = true) as ->; [| done].
  induction s as [|c s IH]; [done |]. simpl.
  by rewrite all_chars_app, escape_char_plain, IH.
Qed.

Lemma nl_plain (level : nat) : PyStr.all_chars is_plain_char (Json.nl level) = true.
Proof. unfold Json.nl. cbn [PyStr.all_chars]. by rewrite all_chars_repeat. Qed.

(** X19. Whatever the schema names, column names, sample cells and guide
    texts hold, the text written to the cache file is made of printable
    ASCII characters and line feeds only: every other character of the
    index is written as an escape. *)
Theorem cache_text_plain (index : AgentIndex) :
  PyStr.all_chars is_plain_char (_save_cache index) = true.
Proof.
  unfold _save_cache, Json.dumps. generalize 0 as level.
  induction (cache_data index) as [s|b|items IH|members IH] using json_nested_ind;
    intros level.
  - apply dump_string_plain.
  - by destruct b.
  - destruct IH as [|x rest Hx Hrest]; [done |].
    rewrite dump_arr_cons, !all_chars_app, !nl_plain, Hx.
    assert (PyStr.all_chars is_plain_char (Json.more_items (S level) rest) = true) as ->;
      [| done].
    induction Hrest as [|y rest Hy _ IHr]; [done |].
    cbn [Json.more_items]. by rewrite !all_chars_app, nl_plain, Hy, IHr.
  - destruct IH as [|[k v] rest Hv Hrest]; [done |]. simpl in Hv.
    rewrite dump_obj_cons, !all_chars_app, !nl_plain, dump_string_plain, Hv.
    assert (PyStr.all_chars is_plain_char (Json.more_members (S level) rest) = true) as ->;
      [| done].
    induction Hrest as [|[k' v'] rest Hy _ IHr]; [done |]. simpl in Hy.
    cbn [Json.more_members]. by rewrite !all_chars_app, nl_plain, dump_string_plain, Hy, IHr.
Qed.

(** ** From the catalog to the text of [list_tables] *)



(** ** Telling a refusal from an answer *)

Lemma description_lines_head (schema table : string) (info : TableInfo) (m : Z) :
  ∃ rest, description_lines schema table info m
          = table_header_line schema table (length (columns info)) :: rest.
Proof.
  unfold description_lines.
  destruct (Z.of_nat (length (columns info)) >? m)%Z, (sample_rows info);
    simpl; eexists; reflexivity.
Qed.

Lemma facade_result_not_refusal (index : AgentIndex) (k : DedupKey) :
  (∀ s, k = KRules s → get_business_rules index s ≠ Some (rules_refusal s)) →
  facade_result index k ≠ refusal k.
Proof.
  intros Hrules. destruct k as [|s t|s]; simpl.
  - unfold schemas_listing. simpl. discriminate.
  - unfold get_table_description.
    destruct (get_table_info index s t) as [info|]; [| discriminate].
    destruct (description_lines_head s t info default_max_columns) as [rest ->].
    destruct rest; simpl; discriminate.
  - specialize (Hrules s eq_refl).
    destruct (get_business_rules index s) as [text|]; [congruence | discriminate].
Qed.

(** X21. An answer is the refusal text exactly when the call is a repeat:
    a [list_schemas] or [describe_table] call returns the refusal text of
    its key if and only if the key was marked before the call, since no
    overview and no description, found or not, reads like a refusal; the
    same holds for [get_business_rules] unless the guide of the schema is
    itself the refusal text. *)
Theorem refusal_iff_repeat (index : AgentIndex) (c : Call) (k : DedupKey) (st : Session) :
  key_of c = Some k →
  (∀ s, k = KRules s → get_business_rules index s ≠ Some (rules_refusal s)) →
  fst (call index c st) = refusal k ↔ shown k st.
Proof.
  intros Hc Hrules. split.
  - intros H. destruct (shown_dec k st) as [Hs | Hs]; [done |].
    destruct (call_fresh index c k st Hc Hs) as [E _].
    rewrite E in H. by apply facade_result_not_refusal in H.
  - intros Hs. by rewrite (call_shown index c k st Hc Hs).
Qed.

Lemma refusal_iff_repeat_witness :
  fst (call sample_index (DescribeTable "financial" "missing_table") new_session)
  = refusal (KTable "financial" "missing_table")
  ↔ shown (KTable "financial" "missing_table") new_session.
Proof.
  apply (refusal_iff_repeat sample_index (DescribeTable "financial" "missing_table")
                            (KTable "financial" "missing_table") new_session).
  - reflexivity.
  - intros s H. discriminate H.
Defined.

(** ** Without a guide directory *)

Lemma filter_no_topics (l : list string) :
  List.filter (in_topics []) l = []
  ∧ List.filter (fun s => negb (in_topics [] s)) l = l.
Proof.
  split; induction l as [|x l IH]; [done | | done |].
  - cbn [List.filter]. change (in_topics [] x) with false. exact IH.
  - cbn [List.filter]. change (in_topics [] x) with false. cbn [negb]. by rewrite IH.
Qed.

(** X22. When the guide directory does not exist, the built index has no
    guide topic: the [list_schemas] overview has an empty first group and
    names every schema of the catalog on its last line, and every first
    [get_business_rules] call is answered with the not-found text and an
    empty list of topics. *)
Theorem no_guide_directory (db : Catalog) :
  let index := fst (build db None) in
  get_all_guide_topics index = []
  ∧ schemas_listing index
    = PyStr.join newline
        ["Available schemas and their tables:"; "";
         "Schemas with business rules guides (most likely relevant):"; "";
         ("Other schemas (no guide): " ++ PyStr.join ", " (get_schema_list index))%string]
  ∧ (∀ s, In s (get_schema_list index) ↔ In s (map fst db))
  ∧ (∀ s st, s ∉ _fetched st →
             fst (get_business_rules_tool index s st)
             = ("No business rules guide found for schema '" ++ s ++ "'." ++ newline
                ++ "Available guide topics: ")%string).
Proof.
  intros index.
  assert (guides index = []) as Hg by done.
  assert (get_all_guide_topics index = []) as Ht.
  { unfold get_all_guide_topics. by rewrite Hg. }
  split; [done |]. split; [| split].
  - unfold schemas_listing. rewrite Ht.
    destruct (filter_no_topics (get_schema_list index)) as [-> ->]. done.
  - intros s. unfold get_schema_list, index. rewrite sorted_in, build_schemas.
    rewrite (fold_set_keys scan_tables). simpl. tauto.
  - intros s st Hs. rewrite rules_tool_fresh by done. cbn [fst facade_result].
    unfold get_business_rules, rules_not_found. by rewrite Hg, Ht.
Qed.
